(** * Insights dashboard: the data layer of [script.js]

    A shallow embedding of the coordinate normaliser, the display helper, the
    occurrence normaliser and the two aggregators of [script.js], together
    with the promise plumbing of its fetchers, and the properties the
    specification states about them.

    Conventions of the embedding.
    - A property that may be absent ([r.family], [r.eventDate], ...) is an
      [option]: [None] is JavaScript's [undefined].
    - Strings are [string]; a string is truthy when it is not empty.
    - Integer-valued numbers (counts, indices, calendar fields) are [Z].
      Where the source computes with fractions ([n / 100], [n * 0.8]) the
      value is a rational [Q]; where it compares and clamps arbitrary numbers
      the type [number] adds the three non-finite values.
    - An [async] function returns a [Promise]: the settled outcome of the
      call, fulfilled with a value or rejected with an exception. *)

From Stdlib Require Import ZArith QArith Qround Qminmax.
From Stdlib Require Import List String Ascii Bool Lia Lqa.
From Stdlib Require Import Sorted Permutation DecimalString.
From Stdlib Require Import DecimalPos.
From Stdlib Require DecimalFacts.
Import ListNotations.

Set Warnings "-register-all".

Open Scope Z_scope.
Open Scope string_scope.
Open Scope list_scope.

Infix "+++" := String.append (right associativity, at level 60).

(** ** JavaScript primitives *)

(** [String(n)] for an integer-valued number: its decimal digits, after a
    minus sign when it is negative.  This is the text of the double below
    [2^53] in magnitude, where every integer is a double; the counts,
    lengths, indices and calendar fields it is applied to lie there. *)
Definition Number_toString (n : Z) : string :=
  NilZero.string_of_int (Z.to_int n).

(** [Boolean(s)] for a string property that may be absent. *)
Definition truthy (o : option string) : bool :=
  match o with
  | Some s => negb (String.eqb s "")
  | None => false
  end.

(** [Boolean(n)] for an integer property that may be absent. *)
Definition truthyZ (o : option Z) : bool :=
  match o with
  | Some n => negb (Z.eqb n 0)
  | None => false
  end.

(** [Boolean(q)] for a fractional property that may be absent. *)
Definition truthyQ (o : option Q) : bool :=
  match o with
  | Some q => negb (Qeq_bool q 0)
  | None => false
  end.

(** [a || b] on optional strings: the first operand when truthy. *)
Definition or_else (a b : option string) : option string :=
  if truthy a then a else b.

Definition or_elseQ (a b : option Q) : option Q :=
  if truthyQ a then a else b.

(** [xs.filter(Boolean)] on a list of optional strings. *)
Fixpoint filter_Boolean (xs : list (option string)) : list string :=
  match xs with
  | [] => []
  | Some s :: rest =>
      if negb (String.eqb s "") then s :: filter_Boolean rest
      else filter_Boolean rest
  | None :: rest => filter_Boolean rest
  end.

(** [s.padStart(2, "0")]. *)
Definition padStart2 (s : string) : string :=
  match s with
  | EmptyString => "00"
  | String c EmptyString => String "0" (String c EmptyString)
  | _ => s
  end.

(** [xs.join(sep)]. *)
Fixpoint join (sep : string) (xs : list string) : string :=
  match xs with
  | [] => ""
  | [x] => x
  | x :: rest => x +++ sep +++ join sep rest
  end.

(** [s.toLowerCase()] on the ASCII letters.  No character outside ASCII
    lower-cases to one of the letters of "actinopterygii", so the comparison
    the source makes with that word is not affected by the restriction. *)
Definition lower_ascii (c : ascii) : ascii :=
  let n := nat_of_ascii c in
  if (Nat.leb 65 n && Nat.leb n 90)%bool then ascii_of_nat (n + 32) else c.

Fixpoint toLowerCase (s : string) : string :=
  match s with
  | EmptyString => EmptyString
  | String c rest => String (lower_ascii c) (toLowerCase rest)
  end.

(** *** [Set]: insertion-ordered, compared with [===] on strings *)

Definition Set_has (s : list string) (x : string) : bool :=
  existsb (String.eqb x) s.

Definition Set_add (s : list string) (x : string) : list string :=
  if Set_has s x then s else s ++ [x].

(** [Array.from(new Set(xs))]. *)
Definition Set_from (xs : list string) : list string :=
  fold_left Set_add xs [].

(** *** Numbers that are compared and clamped

    Every finite double is a rational, and [<], [Math.min] and [Math.max]
    are exact on doubles, so a finite number is its rational value; the
    negative zero is identified with zero. *)
Inductive number : Type :=
  | NaN
  | NegInfinity
  | Finite (q : Q)
  | PosInfinity.

(** [a < b]; false as soon as one side is [NaN]. *)
Definition num_lt (a b : number) : bool :=
  match a, b with
  | NaN, _ | _, NaN => false
  | NegInfinity, NegInfinity => false
  | NegInfinity, _ => true
  | _, NegInfinity => false
  | PosInfinity, _ => false
  | Finite _, PosInfinity => true
  | Finite x, Finite y => negb (Qle_bool y x)
  end.

Definition num_gt (a b : number) : bool := num_lt b a.

(** [a <= b] and [a >= b]. *)
Definition num_le (a b : number) : bool :=
  match a, b with
  | NaN, _ | _, NaN => false
  | NegInfinity, _ => true
  | _, PosInfinity => true
  | _, NegInfinity => false
  | PosInfinity, _ => false
  | Finite x, Finite y => Qle_bool x y
  end.

Definition num_ge (a b : number) : bool := num_le b a.

Definition Math_min (a b : number) : number :=
  match a, b with
  | NaN, _ | _, NaN => NaN
  | _, _ => if num_lt b a then b else a
  end.

Definition Math_max (a b : number) : number :=
  match a, b with
  | NaN, _ | _, NaN => NaN
  | _, _ => if num_lt a b then b else a
  end.

(** ** Utilities *)

Definition clamp (value min max : number) : number :=
  Math_max min (Math_min max value).

Record Coordinate : Type := mkCoordinate {
  latitude : number;
  longitude : number
}.

Definition deg (z : Z) : number := Finite (inject_Z z).

Definition normalizeCoordsMaybeSwap (lat lon : number) : Coordinate :=
  let looksFlipped :=
    ((num_lt lat (deg (-90)) || num_gt lat (deg 90))
     && num_ge lon (deg (-180)) && num_le lon (deg 180))%bool in
  if looksFlipped then
    {| latitude := clamp lon (deg (-90)) (deg 90);
       longitude := clamp lat (deg (-180)) (deg 180) |}
  else
    {| latitude := clamp lat (deg (-90)) (deg 90);
       longitude := clamp lon (deg (-180)) (deg 180) |}.

(** Both callers, [parseCoordsFromInputs] and [getCoordsFromQuery], return
    [null] when either parsed value is [NaN] and normalise otherwise. *)
Definition Number_isNaN (x : number) : bool :=
  match x with NaN => true | _ => false end.

Definition getCoordsFromQuery (lat lon : number) : option Coordinate :=
  if (Number_isNaN lat || Number_isNaN lon)%bool then None
  else
    let normalized := normalizeCoordsMaybeSwap lat lon in
    Some {| latitude := latitude normalized;
            longitude := longitude normalized |}.

(** *** Values handed to [display]

    The values a parsed payload or a summary holds.  [JsNumber] holds an
    integer-valued number (a count, an index).  A measured number (a depth,
    a temperature), whose decimal text is not modelled, is handed to
    [display] through [displayNumber] below, which takes that text as a
    parameter. *)

Inductive JsValue : Type :=
  | JsUndefined
  | JsNull
  | JsBoolean (b : bool)
  | JsNumber (n : Z)
  | JsString (s : string)
  | JsArray (items : list JsValue).

(** The string a template literal makes of a value.  An array is the join
    of its items with a comma, where [null] and [undefined] items give the
    empty string. *)
Fixpoint ToString (v : JsValue) : string :=
  match v with
  | JsUndefined => "undefined"
  | JsNull => "null"
  | JsBoolean true => "true"
  | JsBoolean false => "false"
  | JsNumber n => Number_toString n
  | JsString s => s
  | JsArray items =>
      join ","
        (map (fun item =>
                match item with
                | JsUndefined | JsNull => ""
                | _ => ToString item
                end) items)
  end.

Definition display (value : JsValue) (suffix : string) : string :=
  match value with
  | JsNull | JsUndefined | JsString "" | JsArray [] => "-"
  | _ => ToString value +++ suffix
  end.

(** The four values the specification lists as blank. *)
Definition blank (v : JsValue) : Prop :=
  v = JsNull \/ v = JsUndefined \/ v = JsString "" \/ v = JsArray [].

(** ** Occurrence records *)

(** A record as the aggregators read it: an OBIS occurrence, or the
    normalised subset that [fetchGbifFishOccurrences] returns (whose
    [family], [genus] and [class] are absent). *)
Record OccurrenceRecord : Type := mkOccurrence {
  scientificName : option string;
  eventDate : option string;
  minimumDepthInMeters : option Q;
  family : option string;
  genus : option string;
  class : option string
}.

(** A raw GBIF occurrence, with the properties the normaliser reads;
    [taxon_scientificName] is [r.taxon?.scientificName]. *)
Module GbifRaw.
Record t : Type := mk {
  scientificName : option string;
  species : option string;
  genericName : option string;
  taxon_scientificName : option string;
  eventDate : option string;
  year : option Z;
  month : option Z;
  day : option Z;
  depth : option Q;
  minimumDepthInMeters : option Q;
  decimalDepth : option Q
}.
End GbifRaw.

(** [n || ""] inside a template literal or [String(...)]. *)
Definition numberOrEmpty (o : option Z) : string :=
  match o with
  | Some n => if Z.eqb n 0 then "" else Number_toString n
  | None => ""
  end.

(** The arrow function mapped over [results] in [fetchGbifFishOccurrences].
    The conditional operator binds weaker than [||], so the test of the
    [eventDate] entry is the whole chain
    [r.eventDate || r.day || r.month || r.year]. *)
Definition normalizeGbif (r : GbifRaw.t) : OccurrenceRecord :=
  {| scientificName :=
       or_else (or_else (or_else (or_else (GbifRaw.scientificName r)
                                          (GbifRaw.species r))
                                 (GbifRaw.genericName r))
                        (GbifRaw.taxon_scientificName r))
               None;
     eventDate :=
       if (truthy (GbifRaw.eventDate r) || truthyZ (GbifRaw.day r)
           || truthyZ (GbifRaw.month r) || truthyZ (GbifRaw.year r))%bool
       then Some (numberOrEmpty (GbifRaw.year r) +++ "-"
                  +++ padStart2 (numberOrEmpty (GbifRaw.month r)) +++ "-"
                  +++ padStart2 (numberOrEmpty (GbifRaw.day r)))
       else None;
     minimumDepthInMeters :=
       or_elseQ (or_elseQ (or_elseQ (GbifRaw.depth r)
                                    (GbifRaw.minimumDepthInMeters r))
                          (GbifRaw.decimalDepth r))
                None;
     family := None;
     genus := None;
     class := None |}.

(** ** Plain objects used as counters

    The own properties of [familyCounts] and [genusCounts], in the order of
    their creation.  [Object.entries] lists the keys that are array indices
    first, in ascending numeric order, and the other keys after them in
    creation order. *)
Definition JsObject : Type := list (string * Z).

Fixpoint own_get (o : JsObject) (k : string) : option Z :=
  match o with
  | [] => None
  | (k', v) :: rest => if String.eqb k' k then Some v else own_get rest k
  end.

Fixpoint own_set (o : JsObject) (k : string) (v : Z) : JsObject :=
  match o with
  | [] => [(k, v)]
  | (k', v') :: rest =>
      if String.eqb k' k then (k', v) :: rest
      else (k', v') :: own_set rest k v
  end.

Definition digit_of (c : ascii) : option N :=
  let n := N_of_ascii c in
  if (N.leb 48 n && N.leb n 57)%bool then Some (n - 48)%N else None.

Fixpoint parse_digits (s : string) (acc : N) : option N :=
  match s with
  | EmptyString => Some acc
  | String c rest =>
      match digit_of c with
      | Some d => parse_digits rest (10 * acc + d)%N
      | None => None
      end
  end.

(** The numeric value of a key that is an array index: a canonical decimal
    numeral below [2^32 - 1]. *)
Definition array_index (k : string) : option N :=
  match k with
  | EmptyString => None
  | String "0" EmptyString => Some 0%N
  | String "0" _ => None
  | _ =>
      match parse_digits k 0 with
      | Some n => if (n <? 4294967295)%N then Some n else None
      | None => None
      end
  end.

Definition is_array_index (k : string) : bool :=
  match array_index k with Some _ => true | None => false end.

Fixpoint insert_index (x : N * (string * Z)) (l : list (N * (string * Z)))
  : list (N * (string * Z)) :=
  match l with
  | [] => [x]
  | y :: rest =>
      if (fst x <=? fst y)%N then x :: l else y :: insert_index x rest
  end.

Definition index_entries (o : JsObject) : list (N * (string * Z)) :=
  flat_map (fun e => match array_index (fst e) with
                     | Some i => [(i, e)]
                     | None => []
                     end) o.

Definition Object_entries (o : JsObject) : list (string * Z) :=
  map snd (fold_right insert_index [] (index_entries o))
  ++ filter (fun e => negb (is_array_index (fst e))) o.

(** The property names every plain object inherits from
    [Object.prototype]. *)
Definition inheritedNames : list string :=
  [ "constructor"; "hasOwnProperty"; "isPrototypeOf";
    "propertyIsEnumerable"; "toLocaleString"; "toString"; "valueOf";
    "__proto__"; "__defineGetter__"; "__defineSetter__";
    "__lookupGetter__"; "__lookupSetter__" ].

Definition inherited (k : string) : bool :=
  existsb (String.eqb k) inheritedNames.

(** [v || 0] for a counter read from the object. *)
Definition or_zero (o : option Z) : Z :=
  match o with
  | Some c => c
  | None => 0
  end.

(** [obj[k] = (obj[k] || 0) + 1].  When [k] names an inherited property
    that the object does not own, the read yields a function, [+ 1]
    concatenates to its source text, and the text is left to the engine:
    the embedding stops there with [None]. *)
Definition bump (o : JsObject) (k : string) : option JsObject :=
  if inherited k then None
  else Some (own_set o k (or_zero (own_get o k) + 1)).

(** [if (key) obj[key] = (obj[key] || 0) + 1]. *)
Definition count_step (acc : option JsObject) (key : option string)
  : option JsObject :=
  match key with
  | Some k =>
      if negb (String.eqb k "") then
        match acc with
        | Some o => bump o k
        | None => None
        end
      else acc
  | None => acc
  end.

(** The [for (const r of records)] loop of [fetchBiodiversityFromApi]. *)
Definition countLoop (records : list OccurrenceRecord)
  : option JsObject * option JsObject :=
  fold_left
    (fun acc r =>
       (count_step (fst acc) (family r), count_step (snd acc) (genus r)))
    records (Some [], Some []).

(** [Array.prototype.sort] with a comparator: the sort is stable, and with
    a consistent comparator its result is determined; insertion from the
    right computes it. *)
Fixpoint sort_insert {A : Type} (cmp : A -> A -> Z) (x : A) (l : list A)
  : list A :=
  match l with
  | [] => [x]
  | y :: rest =>
      if Z.ltb 0 (cmp x y) then y :: sort_insert cmp x rest else x :: l
  end.

Definition Array_sort {A : Type} (cmp : A -> A -> Z) (l : list A) : list A :=
  fold_right (sort_insert cmp) [] l.

Definition formatEntry (e : string * Z) : string :=
  fst e +++ " (" +++ Number_toString (snd e) +++ ")".

(** [Object.entries(obj).sort((a,b)=>b[1]-a[1]).slice(0,k)]. *)
Definition topEntries (obj : JsObject) (k : nat) : list (string * Z) :=
  firstn k (Array_sort (fun a b => snd b - snd a) (Object_entries obj)).

Definition topK (obj : JsObject) (k : nat) : list string :=
  map formatEntry (topEntries obj k).

(** ** Biodiversity aggregation *)

(** [x.toFixed(2)] for [x >= 0]: the integer [m] nearest to [100 * x], the
    larger one on a tie, printed with two decimals.  The double nearest to
    [n / 100] rounds to the same [m] as the rational does. *)
Definition toFixed2 (x : Q) : string :=
  let m := Qfloor (x * inject_Z 100 + (1 # 2)) in
  Number_toString (m / 100) +++ "."
  +++ padStart2 (Number_toString (m mod 100)).

Record MolecularSummary : Type := mkMolecular {
  eDnaDiversityIndex : string;
  potentialTaxaDetected : Z;
  invasiveRisk : string;
  markerGenes : list string;
  topTaxa : list string;
  totalOccurrences : Z;
  topFamilies : option (list string);
  topGenera : option (list string);
  occurrences : list OccurrenceRecord
}.

Definition array_length {A : Type} (l : list A) : Z := Z.of_nat (List.length l).

(** [records.map(r => r.scientificName).filter(Boolean)], then the [Set]. *)
Definition uniqueTaxa (records : list OccurrenceRecord) : list string :=
  Set_from (filter_Boolean (map scientificName records)).

(** The body of [fetchBiodiversityFromApi] once [records] is bound. *)
Definition biodiversityOf (records : list OccurrenceRecord)
  : MolecularSummary :=
  let unique := uniqueTaxa records in
  let counts := countLoop records in
  {| eDnaDiversityIndex :=
       if Z.ltb 0 (array_length unique)
       then toFixed2 (Qmin (inject_Z (array_length unique) / inject_Z 100)
                           (95 # 100))
       else "0.00";
     potentialTaxaDetected := array_length unique;
     invasiveRisk :=
       if Z.ltb 50 (array_length unique) then "Moderate" else "Low";
     markerGenes := ["COI"; "16S"; "18S"];
     topTaxa := firstn 5 unique;
     totalOccurrences := array_length records;
     topFamilies := option_map (fun o => topK o 3) (fst counts);
     topGenera := option_map (fun o => topK o 3) (snd counts);
     occurrences := firstn 20 records |}.

(** ** Fisheries aggregation *)

(** [Math.round]: the nearest integer, the larger one on a tie. *)
Definition Math_round (x : Q) : Z := Qfloor (x + (1 # 2)).

Record FisheriesSummary : Type := mkFisheries {
  predictedCatchIndex : Z;
  dominantSpecies : string;
  habitatSuitability : Z;
  advisories : string;
  totalFishOccurrences : Z;
  totalFishOccurrencesGbif : Z;
  totalFishOccurrencesCombined : Z;
  sampleSpecies : list string;
  fishOccurrences : list OccurrenceRecord;
  fishOccurrencesGbif : list OccurrenceRecord
}.

(** [(r.class || "").toLowerCase() === "actinopterygii"]. *)
Definition isFish (r : OccurrenceRecord) : bool :=
  String.eqb
    (toLowerCase (match or_else (class r) (Some "") with
                  | Some s => s
                  | None => ""
                  end))
    "actinopterygii".

(** [xs[0]?.scientificName]. *)
Definition firstName (xs : list OccurrenceRecord) : option string :=
  match xs with
  | r :: _ => scientificName r
  | [] => None
  end.

(** [a || "Unknown"]. *)
Definition or_text (a : option string) (d : string) : string :=
  match a with
  | Some s => if String.eqb s "" then d else s
  | None => d
  end.

Definition obisSpeciesOf (obisRecords : list OccurrenceRecord) : list string :=
  filter_Boolean (map scientificName (filter isFish obisRecords)).

Definition gbifSpeciesOf (gbifFish : list OccurrenceRecord) : list string :=
  filter_Boolean (map scientificName gbifFish).

Definition combinedSpeciesOf (obisRecords gbifFish : list OccurrenceRecord)
  : list string :=
  Set_from (obisSpeciesOf obisRecords ++ gbifSpeciesOf gbifFish).

(** The body of [fetchFisheriesFromApi] once [obisRecords] and [gbifFish]
    are bound.  [totalCount * 0.8] is the rational [8 n / 10]: its distance
    to the nearest tie of [Math.round] is at least one tenth, which the
    rounding of the double product does not reach for any count that fits
    in a response. *)
Definition fisheriesOf (obisRecords gbifFish : list OccurrenceRecord)
  : FisheriesSummary :=
  let obisFish := filter isFish obisRecords in
  let combinedSpecies := combinedSpeciesOf obisRecords gbifFish in
  let dominant :=
    or_text (or_else (or_else (hd_error combinedSpecies)
                              (firstName obisRecords))
                     (firstName gbifFish))
            "Unknown" in
  let obisCount := array_length obisFish in
  let gbifCount := array_length gbifFish in
  let totalCount := obisCount + gbifCount in
  {| predictedCatchIndex := Z.min 95 (Z.max 20 (totalCount * 2 + 20));
     dominantSpecies := dominant;
     habitatSuitability :=
       Z.min 98 (40 + Math_round (inject_Z totalCount * (8 # 10)));
     advisories :=
       if Z.ltb 10 totalCount
       then "Conditions favorable for small-scale fishing"
       else "Survey area recommended";
     totalFishOccurrences := obisCount;
     totalFishOccurrencesGbif := gbifCount;
     totalFishOccurrencesCombined := totalCount;
     sampleSpecies := firstn 5 combinedSpecies;
     fishOccurrences := firstn 20 obisFish;
     fishOccurrencesGbif := firstn 20 gbifFish |}.

(** ** Promises and the network

    An [async] call is modelled by its settled outcome.  [fetch(url)] is an
    input of the model: the outcome of the request, a rejection when the
    network fails and a response otherwise.  The query strings the fetchers
    build from the coordinate only select what the remote service answers
    and are not modelled. *)

Inductive Exception : Type :=
  | Error (message : string)
  | TypeError (message : string)
  | SyntaxError (message : string).

Inductive Promise (A : Type) : Type :=
  | Fulfilled (value : A)
  | Rejected (reason : Exception).

Arguments Fulfilled {A} value.
Arguments Rejected {A} reason.

(** [const x = await p; k x] inside an [async] function. *)
Definition await {A B : Type} (p : Promise A) (k : A -> Promise B)
  : Promise B :=
  match p with
  | Fulfilled v => k v
  | Rejected e => Rejected e
  end.

Notation "x <- p ;; k" := (await p (fun x => k))
  (at level 61, p at next level, right associativity).

(** [try { body } catch (e) { handler }]. *)
Definition try_catch {A : Type} (body : Promise A)
  (handler : Exception -> Promise A) : Promise A :=
  match body with
  | Fulfilled v => Fulfilled v
  | Rejected e => handler e
  end.

(** [Promise.all]: fulfilled with all the values when every promise is
    fulfilled, rejected as soon as one is.  The reason kept is that of the
    first rejected promise of the array; no handler here reads it. *)
Definition Promise_all2 {A B : Type} (a : Promise A) (b : Promise B)
  : Promise (A * B) :=
  match a, b with
  | Fulfilled x, Fulfilled y => Fulfilled (x, y)
  | Rejected e, _ => Rejected e
  | _, Rejected e => Rejected e
  end.

Definition Promise_all3 {A B C : Type}
  (a : Promise A) (b : Promise B) (c : Promise C) : Promise (A * B * C) :=
  match a, b, c with
  | Fulfilled x, Fulfilled y, Fulfilled z => Fulfilled (x, y, z)
  | Rejected e, _, _ => Rejected e
  | _, Rejected e, _ => Rejected e
  | _, _, Rejected e => Rejected e
  end.

(** A response: its [ok] flag and the outcome of [res.json()]. *)
Record Response (J : Type) : Type := mkResponse {
  ok : bool;
  json : Promise J
}.

Arguments mkResponse {J} ok json.
Arguments ok {J} r.
Arguments json {J} r.

(** The body of an occurrence service: [results] is [None] when
    [json?.results] is not an array. *)
Record OccurrenceJson (R : Type) : Type := mkOccurrenceJson {
  results : option (list R)
}.

Arguments mkOccurrenceJson {R} results.
Arguments results {R} o.

(** [Array.isArray(json?.results) ? json.results : []]. *)
Definition resultsOrEmpty {R : Type} (j : OccurrenceJson R) : list R :=
  match results j with
  | Some rs => rs
  | None => []
  end.

(** The ten hourly variables requested from the marine service. *)
Inductive Metric : Type :=
  | sea_surface_temperature
  | wave_height | wave_direction | wave_period
  | swell_wave_height | swell_wave_direction | swell_wave_period
  | wind_wave_height | wind_wave_direction | wind_wave_period.

(** The body of the marine service.  [time] is [None] when
    [json.hourly.time] is not an array; an entry of [series] or of
    [hourly_units] is [None] when the property is absent or falsy. *)
Module Marine.
Record Hourly : Type := mkHourly {
  time : option (list string);
  series : Metric -> option (list (option Q))
}.
Record Json : Type := mkJson {
  hourly : option Hourly;
  hourly_units : option (Metric -> option string)
}.
End Marine.

Record HourlySummary : Type := mkHourlySummary {
  time : list string;
  series : Metric -> list (option Q)
}.

Record OceanSummary : Type := mkOcean {
  hourly : HourlySummary;
  units : Metric -> option string
}.

(** The body of a marine response is [None] when it parses to [null]:
    reading [json.hourly] then throws. *)
Definition fetchOceanographicFromApi
  (fetch : Promise (Response (option Marine.Json)))
  : Promise (option OceanSummary) :=
  try_catch
    (res <- fetch ;;
     if negb (ok res) then Rejected (Error "Open-Meteo response not ok")
     else
       body <- json res ;;
       match body with
       | None => Rejected (TypeError "Cannot read properties of null")
       | Some json =>
           let times :=
             match Marine.hourly json with
             | Some h =>
                 match Marine.time h with
                 | Some ts => ts
                 | None => []
                 end
             | None => []
             end in
           Fulfilled (Some
             {| hourly :=
                  {| time := map (fun t => t +++ "Z") times;
                     series := fun m =>
                       match Marine.hourly json with
                       | Some h =>
                           match Marine.series h m with
                           | Some xs => xs
                           | None => []
                           end
                       | None => []
                       end |};
                units :=
                  match Marine.hourly_units json with
                  | Some u => u
                  | None => fun _ => None
                  end |})
       end)
    (fun _ => Fulfilled None).

Definition fetchObisOccurrences
  (fetch : Promise (Response (OccurrenceJson OccurrenceRecord)))
  : Promise (OccurrenceJson OccurrenceRecord) :=
  res <- fetch ;;
  if negb (ok res) then Rejected (Error "OBIS response not ok")
  else json res.

Definition fetchGbifFishOccurrences
  (fetch : Promise (Response (OccurrenceJson GbifRaw.t)))
  : Promise (list OccurrenceRecord) :=
  try_catch
    (res <- fetch ;;
     if negb (ok res) then Rejected (Error "GBIF response not ok")
     else
       json <- json res ;;
       Fulfilled (map normalizeGbif (resultsOrEmpty json)))
    (fun _ => Fulfilled []).

Definition fetchBiodiversityFromApi
  (fetch : Promise (Response (OccurrenceJson OccurrenceRecord)))
  : Promise (option MolecularSummary) :=
  try_catch
    (json <- fetchObisOccurrences fetch ;;
     Fulfilled (Some (biodiversityOf (resultsOrEmpty json))))
    (fun _ => Fulfilled None).

Definition fetchFisheriesFromApi
  (fetchObis : Promise (Response (OccurrenceJson OccurrenceRecord)))
  (fetchGbif : Promise (Response (OccurrenceJson GbifRaw.t)))
  : Promise (option FisheriesSummary) :=
  try_catch
    (both <- Promise_all2 (fetchObisOccurrences fetchObis)
                          (fetchGbifFishOccurrences fetchGbif) ;;
     Fulfilled (Some (fisheriesOf (resultsOrEmpty (fst both)) (snd both))))
    (fun _ => Fulfilled None).

(** [x || {}] for a summary that may be [null]. *)
Inductive OrEmpty (A : Type) : Type :=
  | Summary (a : A)
  | EmptyObject.

Arguments Summary {A} a.
Arguments EmptyObject {A}.

Definition or_empty {A : Type} (x : option A) : OrEmpty A :=
  match x with
  | Some a => Summary a
  | None => EmptyObject
  end.

Record LiveData : Type := mkLiveData {
  oceanographic : OrEmpty OceanSummary;
  fisheries : OrEmpty FisheriesSummary;
  molecular : OrEmpty MolecularSummary
}.

(** The four requests of one page render: the marine one, the two of the
    fisheries pipeline and the one of the biodiversity pipeline. *)
Record Network : Type := mkNetwork {
  marineRequest : Promise (Response (option Marine.Json));
  fisheriesObisRequest : Promise (Response (OccurrenceJson OccurrenceRecord));
  fisheriesGbifRequest : Promise (Response (OccurrenceJson GbifRaw.t));
  biodiversityObisRequest : Promise (Response (OccurrenceJson OccurrenceRecord))
}.

Definition getLiveOrMockData (net : Network) : Promise LiveData :=
  apis <- Promise_all3
            (fetchOceanographicFromApi (marineRequest net))
            (fetchFisheriesFromApi (fisheriesObisRequest net)
                                   (fisheriesGbifRequest net))
            (fetchBiodiversityFromApi (biodiversityObisRequest net)) ;;
  let '(oceanApi, fishApi, molApi) := apis in
  Fulfilled {| oceanographic := or_empty oceanApi;
               fisheries := or_empty fishApi;
               molecular := or_empty molApi |}.

(** A request has failed when the network rejected it or the response
    carries a non-success status. *)
Definition requestFailed {J : Type} (fetch : Promise (Response J)) : bool :=
  match fetch with
  | Rejected _ => true
  | Fulfilled res => negb (ok res)
  end.

(** ** Notions used to state the properties *)

(** [lo <= x <= hi], false for [NaN]. *)
Definition within (lo hi : Z) (x : number) : Prop :=
  num_le (deg lo) x = true /\ num_le x (deg hi) = true.

(** Two numbers with the same value. *)
Definition same_number (a b : number) : Prop :=
  match a, b with
  | NaN, NaN => True
  | NegInfinity, NegInfinity => True
  | PosInfinity, PosInfinity => True
  | Finite x, Finite y => Qeq x y
  | _, _ => False
  end.

(** How often a name occurs, and where it occurs first. *)
Definition occurrencesOf (names : list string) (x : string) : nat :=
  count_occ string_dec names x.

Fixpoint first_index (x : string) (names : list string) : nat :=
  match names with
  | [] => 0
  | y :: rest => if String.eqb y x then 0%nat else S (first_index x rest)
  end.

(** [a] is listed before [b]: it occurs more often, or as often and was
    met first. *)
Definition ranks_before (names : list string) (a b : string) : bool :=
  (Nat.ltb (occurrencesOf names b) (occurrencesOf names a)
   || (Nat.eqb (occurrencesOf names a) (occurrencesOf names b)
       && Nat.ltb (first_index a names) (first_index b names)))%bool.

(** [picks] are the [k] best names of [names], best first. *)
Definition top_ranked (names picks : list string) (k : nat) : Prop :=
  NoDup picks /\
  (forall x, In x picks -> In x names) /\
  List.length picks = Nat.min k (List.length (nodup string_dec names)) /\
  StronglySorted (fun a b => ranks_before names a b = true) picks /\
  (forall a b, In a picks -> In b names -> ~ In b picks ->
               ranks_before names a b = true).

(** What the specification says of [topFamilies] and [topGenera]: the
    counter object exists, the field lists its three best names in rank
    order, each followed by its number of occurrences. *)
Definition claimed_top (names : list string) (counts : option JsObject)
  (field : option (list string)) : Prop :=
  exists obj,
    counts = Some obj /\
    field = Some (topK obj 3) /\
    top_ranked names (map fst (topEntries obj 3)) 3 /\
    topK obj 3 =
      map (fun x => x +++ " ("
                    +++ Number_toString (Z.of_nat (occurrencesOf names x))
                    +++ ")")
          (map fst (topEntries obj 3)).

(** A name that is neither an array index nor the name of an inherited
    property. *)
Definition ordinary (k : string) : Prop :=
  is_array_index k = false /\ inherited k = false.

Definition familyNames (records : list OccurrenceRecord) : list string :=
  filter_Boolean (map family records).

Definition genusNames (records : list OccurrenceRecord) : list string :=
  filter_Boolean (map genus records).

(** The names a list of records supplies, in the order of the records:
    the scientific names that are present and not empty. *)
Fixpoint suppliedNames (rs : list OccurrenceRecord) : list string :=
  match rs with
  | [] => []
  | r :: rest =>
      match scientificName r with
      | Some name =>
          if String.eqb name "" then suppliedNames rest
          else name :: suppliedNames rest
      | None => suppliedNames rest
      end
  end.

(** A list without its repetitions: every name stays where it is met
    first. *)
Fixpoint withoutRepeats (xs : list string) : list string :=
  match xs with
  | [] => []
  | x :: rest =>
      x :: filter (fun y => negb (String.eqb y x)) (withoutRepeats rest)
  end.

(** The duplicate-free union of two lists of names: the distinct names of
    the first, then the distinct names of the second that the first does
    not have. *)
Definition unionInOrder (a b : list string) : list string :=
  withoutRepeats a
  ++ filter (fun x => negb (existsb (String.eqb x) a)) (withoutRepeats b).

(** A record of the bony-fish class, whatever the case of the letters. *)
Definition ofFishClass (r : OccurrenceRecord) : bool :=
  match class r with
  | Some c => String.eqb (toLowerCase c) "actinopterygii"
  | None => false
  end.

(** The scientific name of the first record of a list, when the list has a
    record and that record a name that is not empty. *)
Definition nameOfFirst (rs : list OccurrenceRecord) : option string :=
  match rs with
  | r :: _ =>
      match scientificName r with
      | Some name => if String.eqb name "" then None else Some name
      | None => None
      end
  | [] => None
  end.

(** In the stable sort [a] goes before [b]: a larger key, or the same key
    and an earlier position in the list that is sorted. *)
Definition goes_before {A : Type} (key : A -> Z) (pos : A -> nat) (a b : A)
  : Prop :=
  key b < key a \/ (key a = key b /\ (pos a < pos b)%nat).

(** The counter object after the names have been counted one by one. *)
Definition tally (names : list string) : JsObject :=
  fold_left (fun o k => own_set o k (or_zero (own_get o k) + 1)) names [].

(** A raw record that carries only a direct date. *)
Definition gbifDateOnly : GbifRaw.t :=
  {| GbifRaw.scientificName := Some "Sardinella longiceps";
     GbifRaw.species := None;
     GbifRaw.genericName := None;
     GbifRaw.taxon_scientificName := None;
     GbifRaw.eventDate := Some "2019-07-21T09:30:00Z";
     GbifRaw.year := None;
     GbifRaw.month := None;
     GbifRaw.day := None;
     GbifRaw.depth := None;
     GbifRaw.minimumDepthInMeters := None;
     GbifRaw.decimalDepth := None |}.

(** The same record with the calendar fields GBIF derives from the date. *)
Definition gbifDateAndParts : GbifRaw.t :=
  {| GbifRaw.scientificName := Some "Sardinella longiceps";
     GbifRaw.species := None;
     GbifRaw.genericName := None;
     GbifRaw.taxon_scientificName := None;
     GbifRaw.eventDate := Some "2019-07-21T09:30:00Z";
     GbifRaw.year := Some 2019;
     GbifRaw.month := Some 7;
     GbifRaw.day := Some 21;
     GbifRaw.depth := None;
     GbifRaw.minimumDepthInMeters := None;
     GbifRaw.decimalDepth := None |}.

(** The text composed from the calendar fields. *)
Definition composedDate (r : GbifRaw.t) : string :=
  numberOrEmpty (GbifRaw.year r) +++ "-"
  +++ padStart2 (numberOrEmpty (GbifRaw.month r)) +++ "-"
  +++ padStart2 (numberOrEmpty (GbifRaw.day r)).

(** An occurrence that carries a family and nothing else. *)
Definition ofFamily (name : string) : OccurrenceRecord :=
  {| scientificName := None;
     eventDate := None;
     minimumDepthInMeters := None;
     family := Some name;
     genus := None;
     class := None |}.

(** Six occurrences of four fish families. *)
Definition sixOccurrences : list OccurrenceRecord :=
  map ofFamily [ "Clupeidae"; "Scombridae"; "Carangidae"; "Scombridae";
                 "Engraulidae"; "Clupeidae" ].

(** Two occurrences whose families are the numerals "2" and "1". *)
Definition numeralFamilies : list OccurrenceRecord :=
  map ofFamily [ "2"; "1" ].

(** [parseCoordsFromInputs], after [parseFloat] has read the two inputs: an
    argument is [None] when the input element is missing from the page. *)
Definition parseCoordsFromInputs (lonInput latInput : option number)
  : option Coordinate :=
  match lonInput, latInput with
  | Some lon, Some lat =>
      if (Number_isNaN lon || Number_isNaN lat)%bool then None
      else
        let normalized := normalizeCoordsMaybeSwap lat lon in
        Some {| latitude := latitude normalized;
                longitude := longitude normalized |}
  | _, _ => None
  end.

(** [a <= b] on numbers that are not NaN. *)
Definition number_le (a b : number) : Prop := num_le a b = true.

(** The first truthy entry of a chain [a || b || ... || undefined]. *)
Fixpoint firstTruthy (xs : list (option string)) : option string :=
  match xs with
  | [] => None
  | x :: rest => if truthy x then x else firstTruthy rest
  end.

Fixpoint firstTruthyQ (xs : list (option Q)) : option Q :=
  match xs with
  | [] => None
  | x :: rest => if truthyQ x then x else firstTruthyQ rest
  end.

(** The body a request delivers: the parsed body of a response with a
    success status, [None] when the network failed, the status was not a
    success or the body did not parse. *)
Definition delivered {J : Type} (fetch : Promise (Response J)) : option J :=
  match fetch with
  | Fulfilled res =>
      if ok res then
        match json res with
        | Fulfilled body => Some body
        | Rejected _ => None
        end
      else None
  | Rejected _ => None
  end.

(** The records a request delivers: the [results] array of the delivered
    body; none when nothing was delivered or the body has no such array. *)
Definition deliveredRecords {R : Type}
  (fetch : Promise (Response (OccurrenceJson R))) : list R :=
  match delivered fetch with
  | Some body =>
      match results body with
      | Some records => records
      | None => []
      end
  | None => []
  end.

(** The time axis and a series of a marine body, as the fetcher reads
    them: empty when [hourly] or the array is missing. *)
Definition hourlyTimes (body : Marine.Json) : list string :=
  match Marine.hourly body with
  | Some h => match Marine.time h with Some ts => ts | None => [] end
  | None => []
  end.

Definition hourlySeries (body : Marine.Json) (m : Metric)
  : list (option Q) :=
  match Marine.hourly body with
  | Some h => match Marine.series h m with Some xs => xs | None => [] end
  | None => []
  end.

(** [s] ends with the letter Z. *)
Fixpoint endsWithZ (s : string) : bool :=
  match s with
  | EmptyString => false
  | String c EmptyString => Ascii.eqb c "Z"
  | String _ rest => endsWithZ rest
  end.

(** A render during which the network is down, and one during which every
    service answers with an error status and a body. *)
Definition networkDown : Network :=
  {| marineRequest := Rejected (TypeError "Failed to fetch");
     fisheriesObisRequest := Rejected (TypeError "Failed to fetch");
     fisheriesGbifRequest := Rejected (TypeError "Failed to fetch");
     biodiversityObisRequest := Rejected (TypeError "Failed to fetch") |}.

Definition servicesFailing : Network :=
  {| marineRequest :=
       Fulfilled {| ok := false; json := Fulfilled None |};
     fisheriesObisRequest :=
       Fulfilled {| ok := false;
                    json := Fulfilled {| results := Some [] |} |};
     fisheriesGbifRequest :=
       Fulfilled {| ok := false;
                    json := Rejected (SyntaxError "Unexpected token") |};
     biodiversityObisRequest :=
       Fulfilled {| ok := false;
                    json := Fulfilled {| results := None |} |} |}.

(** The sum of the counters of an object. *)
Definition sumCounts (o : JsObject) : Z :=
  fold_right (fun e acc => snd e + acc) 0 o.

(** [obj] counts the names exactly: one key per distinct name, each with
    the number of occurrences of the name, and nothing for a name that does
    not occur. *)
Definition counts_exactly (names : list string) (obj : JsObject) : Prop :=
  NoDup (map fst obj) /\
  (forall k, In k (map fst obj) <-> In k names) /\
  (forall k, own_get obj k =
             if Nat.eqb (occurrencesOf names k) 0 then None
             else Some (Z.of_nat (occurrencesOf names k))) /\
  sumCounts obj = Z.of_nat (List.length names).

(** [picks] are the [k] most frequent names of [names], most frequent
    first; nothing is said of names that occur equally often. *)
Definition top_by_count (names picks : list string) (k : nat) : Prop :=
  NoDup picks /\
  (forall x, In x picks -> In x names) /\
  List.length picks = Nat.min k (List.length (nodup string_dec names)) /\
  StronglySorted
    (fun a b => (occurrencesOf names b <= occurrencesOf names a)%nat) picks /\
  (forall a b, In a picks -> In b names -> ~ In b picks ->
               (occurrencesOf names b <= occurrencesOf names a)%nat).

(** ** Coordinates in links *)

Fixpoint zeros (k : nat) : string :=
  match k with
  | O => ""
  | S k' => String "0" (zeros k')
  end.

(** The first [n] characters of a string, and the rest. *)
Fixpoint str_take (n : nat) (s : string) : string :=
  match n, s with
  | S n', String c rest => String c (str_take n' rest)
  | _, _ => ""
  end.

Fixpoint str_drop (n : nat) (s : string) : string :=
  match n, s with
  | S n', String _ rest => str_drop n' rest
  | _, _ => s
  end.

(** [x.toFixed(f)], after the algorithm of the language specification: the
    sign is split off, [n] is the integer nearest to [x * 10^f] (the larger
    one on a tie), its decimal digits are padded with zeros to [f + 1]
    characters and the point is put before the last [f].  A finite number
    is its exact rational value, which is what the algorithm rounds.  From
    [10^21] on the result is the general number-to-string conversion, which
    is not modelled: [None]. *)
Definition Number_toFixed (f : nat) (x : number) : option string :=
  match x with
  | NaN => Some "NaN"
  | PosInfinity => Some "Infinity"
  | NegInfinity => Some "-Infinity"
  | Finite q =>
      let negative := negb (Qle_bool 0 q) in
      let x := if negative then Qopp q else q in
      if Qle_bool (inject_Z (10 ^ 21)) x then None
      else
        let n := Math_round (x * inject_Z (10 ^ Z.of_nat f)) in
        let m := Number_toString n in
        let m :=
          if Nat.eqb f 0 then m
          else
            let m :=
              if Nat.leb (String.length m) f
              then zeros (f + 1 - String.length m) +++ m
              else m in
            let k := String.length m in
            str_take (k - f) m +++ "." +++ str_drop (k - f) m in
        Some ((if negative then "-" else "") +++ m)
  end.

Definition formatCoord (value : number) : option string :=
  Number_toFixed 6 value.

(** [encodeURIComponent] on a string read as its UTF-8 bytes: letters,
    digits and the marks [- _ . ! ~ * ' ( )] are kept, every other byte
    becomes [%] and its two hexadecimal digits. *)
Definition isUnreserved (c : ascii) : bool :=
  let n := nat_of_ascii c in
  ((Nat.leb 65 n && Nat.leb n 90) || (Nat.leb 97 n && Nat.leb n 122)
   || (Nat.leb 48 n && Nat.leb n 57)
   || existsb (Ascii.eqb c)
        [ "-"; "_"; "."; "!"; "~"; "*"; "'"; "("; ")" ]%char)%bool.

Definition hexDigit (n : nat) : ascii :=
  nth n [ "0"; "1"; "2"; "3"; "4"; "5"; "6"; "7"; "8"; "9";
          "A"; "B"; "C"; "D"; "E"; "F" ]%char "0"%char.

Fixpoint encodeURIComponent (s : string) : string :=
  match s with
  | EmptyString => EmptyString
  | String c rest =>
      if isUnreserved c then String c (encodeURIComponent rest)
      else
        String "%"
          (String (hexDigit (nat_of_ascii c / 16))
             (String (hexDigit (nat_of_ascii c mod 16))
                (encodeURIComponent rest)))
  end.

(** The [query] that the Explore button and [setNavLinksWithCoords] build
    from a coordinate. *)
Definition coordsQuery (latitude longitude : number) : option string :=
  match formatCoord latitude, formatCoord longitude with
  | Some lat, Some lon =>
      Some ("?lat=" +++ encodeURIComponent lat
            +++ "&lon=" +++ encodeURIComponent lon)
  | _, _ => None
  end.

(** The [href] of the three navigation links; [None] for a link that the
    page does not have. *)
Record NavLinks : Type := mkNavLinks {
  oceanographicLink : option string;
  fisheriesLink : option string;
  molecularLink : option string
}.

Definition setNavLinksWithCoords (links : NavLinks)
  (latitude longitude : number) : option NavLinks :=
  match coordsQuery latitude longitude with
  | Some query =>
      Some {| oceanographicLink :=
                option_map (fun _ => "oceanographic.html" +++ query)
                           (oceanographicLink links);
              fisheriesLink :=
                option_map (fun _ => "fisheries.html" +++ query)
                           (fisheriesLink links);
              molecularLink :=
                option_map (fun _ => "molecular-biodiversity.html" +++ query)
                           (molecularLink links) |}
  | None => None
  end.

(** Every character of [s] is a decimal digit. *)
Fixpoint allDigits (s : string) : bool :=
  match s with
  | EmptyString => true
  | String c rest =>
      match digit_of c with
      | Some _ => allDigits rest
      | None => false
      end
  end.

(** [text] is the decimal numeral of [n]: digits only, at least one, no
    zero in front of another digit, and the value [n]. *)
Definition decimalNumeral (text : string) (n : N) : Prop :=
  allDigits text = true /\
  parse_digits text 0 = Some n /\
  match text with
  | EmptyString => False
  | String c rest => c = "0"%char -> rest = ""
  end.

(** ** Rendering

    The renderers assign markup to [container.innerHTML].  What is
    modelled of it is the text of the table cells, row by row and in the
    order of the markup; the constant markup around the cells is left out.
    The decimal text of a fractional number is the parameter
    [Number_text]. *)

Section Rendering.

Variable Number_text : Q -> string.

(** [display(v, suffix)] for a number that may be [undefined] ([None]) or
    [null] ([Some None]): a number is none of the blank values. *)
Definition displayNumber (v : option (option Q)) (suffix : string) : string :=
  match v with
  | Some (Some q) => Number_text q +++ suffix
  | _ => "-"
  end.

(** [v !== undefined && v !== null]. *)
Definition isPresent (v : option (option Q)) : bool :=
  match v with
  | Some (Some _) => true
  | _ => false
  end.

(** A string property that may be absent, as a value. *)
Definition optString (o : option string) : JsValue :=
  match o with
  | Some s => JsString s
  | None => JsUndefined
  end.

(** [Boolean(v)]. *)
Definition truthyValue (v : JsValue) : bool :=
  match v with
  | JsUndefined | JsNull => false
  | JsBoolean b => b
  | JsNumber n => negb (Z.eqb n 0)
  | JsString s => negb (String.eqb s "")
  | JsArray _ => true
  end.

(** [data.p] where [data] is a summary or the empty object. *)
Definition field {A : Type} (data : OrEmpty A) (get : A -> JsValue)
  : JsValue :=
  match data with
  | Summary s => get s
  | EmptyObject => JsUndefined
  end.

(** [units.m || ""]. *)
Definition unitText (units : Metric -> option string) (m : Metric) : string :=
  match units m with
  | Some u => u
  | None => ""
  end.

(** The ten series in the order of the columns. *)
Definition metricColumns : list Metric :=
  [ sea_surface_temperature; wave_height; wave_direction; wave_period;
    swell_wave_height; swell_wave_direction; swell_wave_period;
    wind_wave_height; wind_wave_direction; wind_wave_period ].

(** The cells of the row that [h.time.map((t, i) => ...)] makes of the
    time stamp [t] at index [i]. *)
Definition hourlyRow (s : OceanSummary) (i : nat) (t : string)
  : list string :=
  display (JsString t) ""
  :: map (fun m =>
            let v := nth_error (series (hourly s) m) i in
            displayNumber v
              (if isPresent v then " " +++ unitText (units s) m else ""))
         metricColumns.

Definition hourlyRows (s : OceanSummary) : list (list string) :=
  map (fun it => hourlyRow s (fst it) (snd it))
      (combine (seq 0 (List.length (time (hourly s)))) (time (hourly s))).

(** [rows || placeholder]: a body without row gets one row whose single
    cell is the placeholder. *)
Definition tableBody (rows : list (list string)) : list (list string) :=
  match rows with
  | [] => [["-"]]
  | _ => rows
  end.

(** [renderOceanographic]: the hourly table for a summary, the three
    cells of the fallback table for the empty object. *)
Definition renderOceanographic (data : OrEmpty OceanSummary)
  : list (list string) :=
  match data with
  | Summary s => tableBody (hourlyRows s)
  | EmptyObject =>
      [ [display JsUndefined ""];
        [display JsUndefined (if truthyValue JsUndefined then " °C" else "")];
        [display JsUndefined (if truthyValue JsUndefined then " m" else "")] ]
  end.

(** The row of an occurrence table. *)
Definition occurrenceRow (r : OccurrenceRecord) : list string :=
  [ display (optString (scientificName r)) "";
    display (optString (eventDate r)) "";
    displayNumber (option_map Some (minimumDepthInMeters r)) "" ].

Definition occurrenceTable (rs : list OccurrenceRecord) : list (list string) :=
  tableBody (map occurrenceRow rs).

(** [renderFisheries]: the header and the cell of each row of the metrics
    table, then the two occurrence tables. *)
Definition fisheriesCells (data : OrEmpty FisheriesSummary)
  : list (string * string) :=
  [ ("Predicted Catch Index",
     display (field data (fun s => JsNumber (predictedCatchIndex s))) "");
    ("Dominant Species",
     display (field data (fun s => JsString (dominantSpecies s))) "");
    ("Habitat Suitability",
     let v := field data (fun s => JsNumber (habitatSuitability s)) in
     display v (if truthyValue v then "%" else ""));
    ("Advisory",
     display (field data (fun s => JsString (advisories s))) "");
    ("Total Fish Occurrences (OBIS)",
     display (field data (fun s => JsNumber (totalFishOccurrences s))) "");
    ("Total Fish Occurrences (GBIF)",
     display (field data (fun s => JsNumber (totalFishOccurrencesGbif s))) "");
    ("Total Fish Occurrences (Combined)",
     display (field data
                (fun s => JsNumber (totalFishOccurrencesCombined s))) "");
    ("Sample Species",
     display (field data (fun s => JsString (join ", " (sampleSpecies s))))
             "") ].

Definition fisheriesTables (data : OrEmpty FisheriesSummary)
  : list (list string) * list (list string) :=
  match data with
  | Summary s => (occurrenceTable (fishOccurrences s),
                  occurrenceTable (fishOccurrencesGbif s))
  | EmptyObject => (occurrenceTable [], occurrenceTable [])
  end.

(** [renderMolecular]: the metrics table and the occurrence table.  The
    result is [None] when the summary lies outside the embedding of the
    counters. *)
Definition molecularCells (data : OrEmpty MolecularSummary)
  : option (list (string * string)) :=
  let lists :=
    match data with
    | Summary s =>
        match topFamilies s, topGenera s with
        | Some f, Some g =>
            Some (JsString (join ", " f), JsString (join ", " g))
        | _, _ => None
        end
    | EmptyObject => Some (JsUndefined, JsUndefined)
    end in
  match lists with
  | Some (families, genera) =>
      Some
        [ ("eDNA Diversity Index",
           display (field data (fun s => JsString (eDnaDiversityIndex s))) "");
          ("Potential Taxa Detected",
           display (field data (fun s => JsNumber (potentialTaxaDetected s)))
                   "");
          ("Invasive Risk",
           display (field data (fun s => JsString (invasiveRisk s))) "");
          ("Marker Genes",
           display (field data
                      (fun s => JsString (join ", " (markerGenes s)))) "");
          ("Total Occurrences (OBIS)",
           display (field data (fun s => JsNumber (totalOccurrences s))) "");
          ("Top Families", display families "");
          ("Top Genera", display genera "") ]
  | None => None
  end.

Definition molecularTable (data : OrEmpty MolecularSummary)
  : list (list string) :=
  match data with
  | Summary s => occurrenceTable (occurrences s)
  | EmptyObject => occurrenceTable []
  end.

End Rendering.

(** ** The page controller

    What a handler does to the page is the list of its effects, in order.
    The charts, which are drawn after the table inside [try], are not
    among them. *)

Inductive Effect : Type :=
  | Alert (message : string)
  | StorageSetItem (coords : Coordinate)
  | Navigate (href : string)
  | ShowLoading
  | SetNavLinks (latitude longitude : number)
  | CallGetLiveOrMockData (latitude longitude : number)
  | RenderOceanographic (data : OrEmpty OceanSummary)
  | RenderFisheries (data : OrEmpty FisheriesSummary)
  | RenderMolecular (data : OrEmpty MolecularSummary).

(** The click handler of the Explore button.  The two arguments are what
    [parseFloat] read from the inputs ([None] for a missing input).  The
    result is [None] only where the text of a coordinate is not modelled. *)
Definition exploreClick (lonInput latInput : option number)
  : option (list Effect) :=
  match parseCoordsFromInputs lonInput latInput with
  | None => Some [Alert "Please enter valid Longitude and Latitude."]
  | Some coords =>
      match coordsQuery (latitude coords) (longitude coords) with
      | Some query =>
          Some [ StorageSetItem {| latitude := latitude coords;
                                   longitude := longitude coords |};
                 Navigate ("oceanographic.html" +++ query) ]
      | None => None
      end
  end.





(** ** The data of the families chart *)

(** [String(s).split(' (')[0]]: the text before the first space that is
    followed by an opening bracket, the whole text when there is none. *)
Fixpoint beforeBracket (s : string) : string :=
  match s with
  | EmptyString => EmptyString
  | String c rest =>
      match rest with
      | String d _ =>
          if (Ascii.eqb c " " && Ascii.eqb d "(")%bool then EmptyString
          else String c (beforeBracket rest)
      | EmptyString => String c EmptyString
      end
  end.

(** The longest prefix of digits, and what follows it. *)
Fixpoint spanDigits (s : string) : string * string :=
  match s with
  | EmptyString => (EmptyString, EmptyString)
  | String c rest =>
      match digit_of c with
      | Some _ => (String c (fst (spanDigits rest)), snd (spanDigits rest))
      | None => (EmptyString, s)
      end
  end.

(** The group of the first match of [/\((\d+)\)/]: the digits of the first
    opening bracket that is followed by one digit or more and a closing
    bracket. *)
Fixpoint bracketedDigits (s : string) : option string :=
  match s with
  | EmptyString => None
  | String c rest =>
      if Ascii.eqb c "(" then
        match spanDigits rest with
        | (String d ds, String e _) =>
            if Ascii.eqb e ")" then Some (String d ds)
            else bracketedDigits rest
        | _ => bracketedDigits rest
        end
      else bracketedDigits rest
  end.

(** [m ? Number(m[1]) : 1]; the number of a digit string is its value, as
    long as it is below [2^53]. *)
Definition chartValue (s : string) : Z :=
  match bracketedDigits s with
  | Some digits =>
      match parse_digits digits 0 with
      | Some n => Z.of_N n
      | None => 1
      end
  | None => 1
  end.

(** The [labels] and [values] of the doughnut chart of the families. *)
Definition familyChartData (topFamilies : list string)
  : list string * list Z :=
  (map beforeBracket topFamilies, map chartValue topFamilies).

(** No character of [s] is an opening bracket. *)
Fixpoint noBracket (s : string) : bool :=
  match s with
  | EmptyString => true
  | String c rest => (negb (Ascii.eqb c "(") && noBracket rest)%bool
  end.

(** * Properties *)

(** ** Coordinates *)

Lemma num_lt_not_le (x : number) (q : Q) :
  Number_isNaN x = false ->
  num_lt x (Finite q) = negb (num_le (Finite q) x).
Proof. destruct x; simpl; intros H; try reflexivity; discriminate. Qed.

Lemma num_gt_not_le (x : number) (q : Q) :
  Number_isNaN x = false ->
  num_gt x (Finite q) = negb (num_le x (Finite q)).
Proof. destruct x; simpl; intros H; try reflexivity; discriminate. Qed.

Lemma Qle_bool_false (x y : Q) : Qle_bool x y = false -> (y < x)%Q.
Proof.
  intros H. apply Qnot_le_lt. intros Hle.
  apply Qle_bool_iff in Hle. congruence.
Qed.

(** [clamp] lands between its bounds, and leaves a value that already is
    between them as it is. *)
Lemma clamp_within (x : number) (lo hi : Z) :
  Number_isNaN x = false -> lo <= hi ->
  within lo hi (clamp x (deg lo) (deg hi)) /\
  (within lo hi x -> same_number (clamp x (deg lo) (deg hi)) x).
Proof.
  intros Hx Hlohi.
  assert (Hq : (inject_Z lo <= inject_Z hi)%Q)
    by (rewrite <- Zle_Qle; exact Hlohi).
  unfold within, clamp, deg.
  destruct x as [ | | q | ]; try discriminate; simpl;
    repeat match goal with
           | |- context [Qle_bool ?a ?b] =>
               let E := fresh "E" in
               destruct (Qle_bool a b) eqn:E; simpl
           end;
    repeat match goal with
           | H : Qle_bool _ _ = true |- _ => apply Qle_bool_iff in H
           | H : Qle_bool _ _ = false |- _ => apply Qle_bool_false in H
           end;
    repeat split; try reflexivity; try (exfalso; lra);
    try (intros [H1 H2]; try discriminate;
         repeat match goal with
                | H : Qle_bool _ _ = true |- _ => apply Qle_bool_iff in H
                end;
         simpl; lra).
Qed.

(** C3 (as amended).  For every pair of numbers neither of which is NaN,
    the normalised coordinate has its latitude in [-90,90] and its longitude
    in [-180,180].  When the latitude given lies outside [-90,90] and the
    longitude given inside [-180,180] the result is the swapped pair,
    clamped axis by axis; otherwise it is the pair itself, clamped axis by
    axis; a pair already in range is returned with the same values. *)
Theorem normalizeCoordsMaybeSwap_in_range (lat lon : number) :
  Number_isNaN lat = false ->
  Number_isNaN lon = false ->
  let c := normalizeCoordsMaybeSwap lat lon in
  within (-90) 90 (latitude c) /\
  within (-180) 180 (longitude c) /\
  (~ within (-90) 90 lat -> within (-180) 180 lon ->
   c = {| latitude := clamp lon (deg (-90)) (deg 90);
          longitude := clamp lat (deg (-180)) (deg 180) |}) /\
  (within (-90) 90 lat \/ ~ within (-180) 180 lon ->
   c = {| latitude := clamp lat (deg (-90)) (deg 90);
          longitude := clamp lon (deg (-180)) (deg 180) |}) /\
  (within (-90) 90 lat -> within (-180) 180 lon ->
   same_number (latitude c) lat /\ same_number (longitude c) lon).
Proof.
  intros Hlat Hlon c.
  assert (Hflip :
    ((num_lt lat (deg (-90)) || num_gt lat (deg 90))
     && num_ge lon (deg (-180)) && num_le lon (deg 180))%bool = true
    <-> (~ within (-90) 90 lat /\ within (-180) 180 lon)).
  { unfold within, num_ge, deg.
    rewrite (num_lt_not_le _ _ Hlat), (num_gt_not_le _ _ Hlat).
    destruct (num_le (Finite (inject_Z (-90))) lat),
             (num_le lat (Finite (inject_Z 90))),
             (num_le (Finite (inject_Z (-180))) lon),
             (num_le lon (Finite (inject_Z 180))); simpl;
      intuition congruence. }
  assert (L1 := clamp_within lat (-90) 90 Hlat ltac:(lia)).
  assert (L2 := clamp_within lon (-180) 180 Hlon ltac:(lia)).
  assert (L3 := clamp_within lon (-90) 90 Hlon ltac:(lia)).
  assert (L4 := clamp_within lat (-180) 180 Hlat ltac:(lia)).
  subst c. unfold normalizeCoordsMaybeSwap.
  destruct ((num_lt lat (deg (-90)) || num_gt lat (deg 90))
            && num_ge lon (deg (-180)) && num_le lon (deg 180))%bool eqn:E;
    cbn [latitude longitude].
  - destruct (proj1 Hflip eq_refl) as [E1 E2].
    split; [apply L3 | split; [apply L4 | ]].
    split; [reflexivity | ]. split; intros; tauto.
  - assert (E' : ~ (~ within (-90) 90 lat /\ within (-180) 180 lon)).
    { intros H. apply Hflip in H. discriminate. }
    split; [apply L1 | split; [apply L2 | ]].
    split; [intros; tauto | ]. split; [reflexivity | ].
    intros H1 H2. split; [apply L1 | apply L2]; assumption.
Qed.

(** At latitude 200 and longitude 10 the pair is taken as swapped. *)
Lemma normalizeCoordsMaybeSwap_in_range_witness :
  let c := normalizeCoordsMaybeSwap (deg 200) (deg 10) in
  within (-90) 90 (latitude c) /\ within (-180) 180 (longitude c).
Proof.
  pose proof (normalizeCoordsMaybeSwap_in_range (deg 200) (deg 10)
                eq_refl eq_refl) as H.
  simpl in H. destruct H as (H1 & H2 & _). split; assumption.
Defined.

(** C3 (as stated) fails on NaN: the latitude returned for [(NaN, 0)] is
    NaN, which no interval contains. *)
Lemma normalizeCoordsMaybeSwap_NaN_out_of_range :
  latitude (normalizeCoordsMaybeSwap NaN (deg 0)) = NaN /\
  ~ within (-90) 90 (latitude (normalizeCoordsMaybeSwap NaN (deg 0))).
Proof.
  split; [reflexivity | ].
  intros [H _]. discriminate H.
Qed.

(** The callers keep NaN away from the normaliser: the coordinate read from
    the query is [null] exactly when one of the two values is NaN, and the
    normalised pair otherwise. *)
Lemma getCoordsFromQuery_guards_NaN (lat lon : number) :
  (getCoordsFromQuery lat lon = None <->
   Number_isNaN lat = true \/ Number_isNaN lon = true) /\
  (Number_isNaN lat = false -> Number_isNaN lon = false ->
   getCoordsFromQuery lat lon = Some (normalizeCoordsMaybeSwap lat lon)).
Proof.
  unfold getCoordsFromQuery. split.
  - destruct (Number_isNaN lat), (Number_isNaN lon); simpl;
      split; intros H; try reflexivity; try discriminate; try tauto;
      destruct H; discriminate.
  - intros H1 H2. rewrite H1, H2. simpl.
    destruct (normalizeCoordsMaybeSwap lat lon). reflexivity.
Qed.

(** ** The display helper *)

Lemma allDigits_uint (d : Decimal.uint) :
  allDigits (NilEmpty.string_of_uint d) = true.
Proof. induction d; simpl; try reflexivity; assumption. Qed.

Lemma Number_toString_nonneg (n : Z) :
  0 <= n ->
  (n = 0 /\ Number_toString n = "0") \/
  exists d, d <> Decimal.Nil /\
            Number_toString n = NilEmpty.string_of_uint d /\
            Pos.of_uint d = Z.to_N n.
Proof.
  intros Hn. unfold Number_toString.
  destruct n as [ | p | p]; [left; split; reflexivity | | lia].
  cbn [Z.to_int NilZero.string_of_int]. unfold NilZero.string_of_uint.
  pose proof (DecimalPos.Unsigned.of_to p) as Hp.
  destruct (Pos.to_uint p) eqn:E;
    try (right; eexists; split; [ | split; [reflexivity | exact Hp]];
         discriminate).
  simpl in Hp. discriminate Hp.
Qed.

Lemma allDigits_Number_toString (n : Z) :
  0 <= n -> allDigits (Number_toString n) = true.
Proof.
  intros Hn.
  destruct (Number_toString_nonneg n Hn) as [[_ E] | [d [_ [E _]]]];
    rewrite E; [reflexivity | apply allDigits_uint].
Qed.

Lemma parse_digits_uint_acc (d : Decimal.uint) (acc : positive) :
  parse_digits (NilEmpty.string_of_uint d) (N.pos acc)
  = Some (N.pos (Pos.of_uint_acc d acc)).
Proof.
  revert acc.
  induction d; intros acc;
    cbn [NilEmpty.string_of_uint parse_digits Pos.of_uint_acc];
    try reflexivity;
    match goal with
    | |- context [digit_of ?c] =>
        let v := eval vm_compute in (digit_of c) in
        change (digit_of c) with v
    end;
    cbv iota beta; rewrite <- IHd; f_equal; lia.
Qed.

Lemma parse_digits_uint (d : Decimal.uint) :
  parse_digits (NilEmpty.string_of_uint d) 0 = Some (Pos.of_uint d).
Proof.
  induction d; cbn [NilEmpty.string_of_uint parse_digits Pos.of_uint];
    try reflexivity;
    match goal with
    | |- context [digit_of ?c] =>
        let v := eval vm_compute in (digit_of c) in
        change (digit_of c) with v
    end;
    cbv iota beta; try exact IHd;
    match goal with
    | |- parse_digits _ ?a = _ =>
        let v := eval vm_compute in a in change a with v
    end;
    apply parse_digits_uint_acc.
Qed.

Lemma parse_digits_Number_toString (n : Z) :
  0 <= n -> parse_digits (Number_toString n) 0 = Some (Z.to_N n).
Proof.
  intros Hn.
  destruct (Number_toString_nonneg n Hn) as [[-> E] | [d [_ [E Hd]]]];
    rewrite E.
  - reflexivity.
  - rewrite parse_digits_uint, Hd. reflexivity.
Qed.

Lemma append_empty_r (s : string) : s +++ "" = s.
Proof. induction s as [ | c s IH]; simpl; [reflexivity | rewrite IH; reflexivity]. Qed.

Lemma to_uint_no_leading_zero (p : positive) (d : Decimal.uint) :
  Pos.to_uint p <> Decimal.D0 d.
Proof.
  intros E.
  assert (Hn : Decimal.unorm (Pos.to_uint p) = Pos.to_uint p).
  { rewrite <- DecimalPos.Unsigned.to_of, DecimalPos.Unsigned.of_to.
    reflexivity. }
  destruct (Decimal.uint_eq_dec (Decimal.nzhead (Pos.to_uint p)) Decimal.Nil)
    as [Ez | Ez].
  - apply DecimalFacts.unorm_0 in Ez. rewrite Hn in Ez.
    exact (DecimalPos.Unsigned.to_uint_nonzero p Ez).
  - rewrite (DecimalFacts.unorm_nzhead _ Ez) in Hn.
    rewrite E in Hn at 2. exact (DecimalFacts.nzhead_nonzero _ _ Hn).
Qed.

Lemma Number_toString_numeral (n : Z) :
  0 <= n -> decimalNumeral (Number_toString n) (Z.to_N n).
Proof.
  intros Hn. unfold decimalNumeral.
  split; [apply allDigits_Number_toString; exact Hn | ].
  split; [apply parse_digits_Number_toString; exact Hn | ].
  unfold Number_toString.
  destruct n as [ | p | p]; [intros _; reflexivity | | lia].
  cbn [Z.to_int NilZero.string_of_int]. unfold NilZero.string_of_uint.
  pose proof (to_uint_no_leading_zero p) as Hz.
  pose proof (DecimalPos.Unsigned.to_uint_nonnil p) as Hnil.
  destruct (Pos.to_uint p) as [ | d | d | d | d | d | d | d | d | d | d ];
    cbn [NilEmpty.string_of_uint]; try discriminate.
  - contradiction.
  - exfalso. exact (Hz d eq_refl).
Qed.

Lemma Number_toString_negative (n : Z) :
  n < 0 -> Number_toString n = "-" +++ Number_toString (- n).
Proof.
  intros Hn. destruct n as [ | p | p]; try lia.
  unfold Number_toString. cbn [Z.opp Z.to_int NilZero.string_of_int].
  reflexivity.
Qed.

Lemma numeral_not_dash (text : string) (n : N) (rest : string) :
  decimalNumeral text n -> text +++ rest <> "-".
Proof.
  intros (Hd & _ & Hne). destruct text as [ | c text]; [contradiction | ].
  cbn [allDigits] in Hd. destruct (digit_of c) eqn:E; [ | discriminate].
  simpl. intros H. injection H as -> _. discriminate E.
Qed.

(** C10 (as amended).  [display] returns the placeholder for [null],
    [undefined], the empty string and the empty array.  Every other value
    is rendered as its text followed by the suffix: a string as it is, a
    boolean as its name, an integer-valued number below [2^53] in magnitude
    as its decimal numeral (after a minus sign when negative), an array as
    the texts of its items joined by commas (nothing for a blank item), a
    measured number as its decimal text [Number_text].  The number 0 is
    rendered "0"; no such integer and no boolean is rendered as the
    placeholder.  A string is rendered "-" exactly when it is empty, or
    when it is the text "-" itself and there is no suffix. *)
Theorem display_placeholder_or_text (Number_text : Q -> string)
  (suffix : string) :
  (forall value, blank value -> display value suffix = "-") /\
  (forall value, ~ blank value ->
     display value suffix = display value "" +++ suffix) /\
  (forall s, s <> "" -> display (JsString s) suffix = s +++ suffix) /\
  (forall b : bool,
     display (JsBoolean b) suffix
     = (if b then "true" else "false") +++ suffix) /\
  (forall n, 0 <= n < 2 ^ 53 ->
     exists digits,
       decimalNumeral digits (Z.to_N n) /\
       display (JsNumber n) suffix = digits +++ suffix) /\
  (forall n, - 2 ^ 53 < n < 0 ->
     exists digits,
       decimalNumeral digits (Z.to_N (- n)) /\
       display (JsNumber n) suffix = "-" +++ digits +++ suffix) /\
  (forall items, items <> [] ->
     display (JsArray items) suffix
     = join ","
         (map (fun item =>
                 match item with
                 | JsNull | JsUndefined | JsString "" | JsArray [] => ""
                 | _ => display item ""
                 end) items) +++ suffix) /\
  (forall q, displayNumber Number_text (Some (Some q)) suffix
             = Number_text q +++ suffix) /\
  displayNumber Number_text None suffix = "-" /\
  displayNumber Number_text (Some None) suffix = "-" /\
  display (JsNumber 0) "" = "0" /\
  (forall n, - 2 ^ 53 < n < 2 ^ 53 -> display (JsNumber n) suffix <> "-") /\
  (forall b, display (JsBoolean b) suffix <> "-") /\
  (forall s, display (JsString s) suffix = "-" <->
             s = "" \/ (s = "-" /\ suffix = "")).
Proof.
  assert (Hpos : forall n, 0 <= n ->
            exists digits,
              decimalNumeral digits (Z.to_N n) /\
              display (JsNumber n) suffix = digits +++ suffix).
  { intros n Hn. exists (Number_toString n).
    split; [apply Number_toString_numeral; exact Hn | reflexivity]. }
  assert (Hneg : forall n, n < 0 ->
            exists digits,
              decimalNumeral digits (Z.to_N (- n)) /\
              display (JsNumber n) suffix = "-" +++ digits +++ suffix).
  { intros n Hn. exists (Number_toString (- n)).
    split; [apply Number_toString_numeral; lia | ].
    unfold display. cbn [ToString].
    rewrite (Number_toString_negative n Hn). reflexivity. }
  split; [ | split; [ | split; [ | split; [ | split; [ | split;
    [ | split; [ | split; [ | split; [ | split; [ | split; [ | split;
    [ | split]]]]]]]]]]]].
  - intros value [H | [H | [H | H]]]; subst; reflexivity.
  - intros value Hb. unfold blank in Hb.
    destruct value as [ | | b | n | s | items ]; try tauto;
      unfold display.
    + rewrite append_empty_r. reflexivity.
    + rewrite append_empty_r. reflexivity.
    + destruct s; [tauto | ]. rewrite append_empty_r. reflexivity.
    + destruct items; [tauto | ]. rewrite append_empty_r. reflexivity.
  - intros s Hs. destruct s; [contradiction | reflexivity].
  - intros [ | ]; reflexivity.
  - intros n Hn. apply Hpos. lia.
  - intros n Hn. apply Hneg. lia.
  - intros items Hi. destruct items as [ | i items]; [contradiction | ].
    unfold display. cbn [ToString]. do 2 f_equal.
    apply map_ext. intros item.
    destruct item as [ | | b | n | s | its ]; try reflexivity;
      unfold display.
    + rewrite append_empty_r. reflexivity.
    + rewrite append_empty_r. reflexivity.
    + destruct s; [reflexivity | ]. rewrite append_empty_r. reflexivity.
    + destruct its; [reflexivity | ]. rewrite append_empty_r. reflexivity.
  - intros q. reflexivity.
  - reflexivity.
  - reflexivity.
  - reflexivity.
  - intros n Hn. destruct (Z.lt_ge_cases n 0) as [Hlt | Hge].
    + destruct (Hneg n Hlt) as [digits [Hd ->]].
      destruct Hd as (Hd & _ & Hne).
      destruct digits; [contradiction | discriminate].
    + destruct (Hpos n Hge) as [digits [Hd ->]].
      apply (numeral_not_dash _ _ _ Hd).
  - intros [ | ]; discriminate.
  - intros s. destruct s as [ | c s].
    + split; [intros _; left; reflexivity | reflexivity].
    + unfold display. cbn [ToString]. split.
      * intros H. right. simpl in H. injection H as -> H.
        destruct s; [ | discriminate].
        simpl in H. subst. split; reflexivity.
      * intros [H | [H1 H2]]; [discriminate | ].
        rewrite H1, H2. reflexivity.
Qed.

(** C10 (as stated) fails for the string "-": it is none of the four
    blank values, yet what [display] returns for it is the placeholder
    text. *)
Lemma display_dash_text_is_placeholder :
  ~ blank (JsString "-") /\ display (JsString "-") "" = "-".
Proof.
  split; [ | reflexivity].
  intros [H | [H | [H | H]]]; discriminate.
Qed.

(** ** The GBIF normaliser *)

(** C4 (the code departs from it).  A record with a direct date gets the
    text composed from its calendar fields, not its direct date: "-00-00"
    when it has no calendar field, the day alone when it has them.  The date
    is absent exactly when the direct date and the three calendar fields are
    all missing. *)
Theorem normalizeGbif_drops_direct_date :
  eventDate (normalizeGbif gbifDateOnly) = Some "-00-00" /\
  eventDate (normalizeGbif gbifDateAndParts) = Some "2019-07-21" /\
  GbifRaw.eventDate gbifDateAndParts = Some "2019-07-21T09:30:00Z" /\
  (forall r : GbifRaw.t,
     truthy (GbifRaw.eventDate r) = true ->
     eventDate (normalizeGbif r) = Some (composedDate r)) /\
  (forall r : GbifRaw.t,
     eventDate (normalizeGbif r) = None <->
     truthy (GbifRaw.eventDate r) = false /\
     truthyZ (GbifRaw.day r) = false /\
     truthyZ (GbifRaw.month r) = false /\
     truthyZ (GbifRaw.year r) = false).
Proof.
  split; [reflexivity | ]. split; [reflexivity | ]. split; [reflexivity | ].
  split.
  - intros r H. unfold normalizeGbif, composedDate. cbn [eventDate].
    rewrite H. reflexivity.
  - intros r. unfold normalizeGbif. cbn [eventDate].
    destruct (truthy (GbifRaw.eventDate r)), (truthyZ (GbifRaw.day r)),
      (truthyZ (GbifRaw.month r)), (truthyZ (GbifRaw.year r)); simpl;
      split; intros H; try discriminate; try tauto;
      try (destruct H as (H1 & H2 & H3 & H4); discriminate).
Qed.

(** ** Failure containment *)

Lemma try_catch_null_fulfilled {A : Type} (body : Promise (option A)) :
  exists r, try_catch body (fun _ => Fulfilled None) = Fulfilled r.
Proof. destruct body as [v | e]; simpl; eauto. Qed.

Lemma fetchOceanographicFromApi_settles fetch :
  exists r, fetchOceanographicFromApi fetch = Fulfilled r.
Proof. apply try_catch_null_fulfilled. Qed.

Lemma fetchFisheriesFromApi_settles fetchObis fetchGbif :
  exists r, fetchFisheriesFromApi fetchObis fetchGbif = Fulfilled r.
Proof. apply try_catch_null_fulfilled. Qed.

Lemma fetchBiodiversityFromApi_settles fetch :
  exists r, fetchBiodiversityFromApi fetch = Fulfilled r.
Proof. apply try_catch_null_fulfilled. Qed.

(** A failed request makes its pipeline yield [null]. *)
Lemma fetchOceanographicFromApi_failed fetch :
  requestFailed fetch = true -> fetchOceanographicFromApi fetch = Fulfilled None.
Proof.
  unfold fetchOceanographicFromApi, requestFailed.
  destruct fetch as [res | e]; simpl; [ | reflexivity].
  intros H. rewrite H. reflexivity.
Qed.

Lemma fetchBiodiversityFromApi_failed fetch :
  requestFailed fetch = true -> fetchBiodiversityFromApi fetch = Fulfilled None.
Proof.
  unfold fetchBiodiversityFromApi, fetchObisOccurrences, requestFailed.
  destruct fetch as [res | e]; simpl; [ | reflexivity].
  intros H. rewrite H. reflexivity.
Qed.

Lemma fetchFisheriesFromApi_failed fetchObis fetchGbif :
  requestFailed fetchObis = true ->
  fetchFisheriesFromApi fetchObis fetchGbif = Fulfilled None.
Proof.
  unfold fetchFisheriesFromApi, fetchObisOccurrences, requestFailed.
  destruct fetchObis as [res | e]; simpl; [ | reflexivity].
  intros H. rewrite H. reflexivity.
Qed.

(** C7.  When the request fails (the network rejects it, or the status is
    not a success) [fetchObisOccurrences] rejects, handing the failure to
    its caller, while [fetchGbifFishOccurrences] is fulfilled with the empty
    list. *)
Theorem failed_request_obis_throws_gbif_empty
  (fetchObis : Promise (Response (OccurrenceJson OccurrenceRecord)))
  (fetchGbif : Promise (Response (OccurrenceJson GbifRaw.t))) :
  requestFailed fetchObis = true ->
  requestFailed fetchGbif = true ->
  (exists e, fetchObisOccurrences fetchObis = Rejected e /\
             (forall e', fetchObis = Rejected e' -> e = e') /\
             (forall res, fetchObis = Fulfilled res ->
                          e = Error "OBIS response not ok")) /\
  fetchGbifFishOccurrences fetchGbif = Fulfilled [].
Proof.
  unfold requestFailed, fetchObisOccurrences, fetchGbifFishOccurrences.
  intros HA HB. split.
  - destruct fetchObis as [res | e]; simpl.
    + rewrite HA. eexists. split; [reflexivity | ].
      split; [intros e' H; discriminate | reflexivity].
    + exists e. split; [reflexivity | ].
      split; [intros e' H; congruence | intros res H; discriminate].
  - destruct fetchGbif as [res | e]; simpl; [ | reflexivity].
    rewrite HB. reflexivity.
Qed.

(** The network is down for both services. *)
Lemma failed_request_obis_throws_gbif_empty_witness :
  (exists e,
     fetchObisOccurrences (Rejected (TypeError "Failed to fetch")) = Rejected e)
  /\ fetchGbifFishOccurrences (Rejected (TypeError "Failed to fetch"))
     = Fulfilled [].
Proof.
  destruct (failed_request_obis_throws_gbif_empty
              (Rejected (TypeError "Failed to fetch"))
              (Rejected (TypeError "Failed to fetch"))
              eq_refl eq_refl) as [[e [He _]] Hg].
  split; [exists e; exact He | exact Hg].
Defined.

(** What the occurrence fetchers and the two aggregating fetchers make of
    a request, in terms of what the request delivers. *)
Lemma fetchGbifFishOccurrences_eq
  (fetch : Promise (Response (OccurrenceJson GbifRaw.t))) :
  fetchGbifFishOccurrences fetch
  = Fulfilled (map normalizeGbif (deliveredRecords fetch)).
Proof.
  unfold fetchGbifFishOccurrences, deliveredRecords, delivered.
  destruct fetch as [res | e]; simpl; [ | reflexivity].
  destruct (ok res); simpl; [ | reflexivity].
  destruct (json res) as [body | e]; reflexivity.
Qed.

Lemma fetchBiodiversityFromApi_eq
  (fetch : Promise (Response (OccurrenceJson OccurrenceRecord))) :
  fetchBiodiversityFromApi fetch
  = Fulfilled (option_map (fun _ => biodiversityOf (deliveredRecords fetch))
                          (delivered fetch)).
Proof.
  unfold fetchBiodiversityFromApi, fetchObisOccurrences, deliveredRecords,
    delivered.
  destruct fetch as [res | e]; simpl; [ | reflexivity].
  destruct (ok res); simpl; [ | reflexivity].
  destruct (json res) as [body | e]; reflexivity.
Qed.

Lemma fetchFisheriesFromApi_eq
  (fetchObis : Promise (Response (OccurrenceJson OccurrenceRecord)))
  (fetchGbif : Promise (Response (OccurrenceJson GbifRaw.t))) :
  fetchFisheriesFromApi fetchObis fetchGbif
  = Fulfilled
      (option_map
         (fun _ =>
            fisheriesOf (deliveredRecords fetchObis)
                        (map normalizeGbif (deliveredRecords fetchGbif)))
         (delivered fetchObis)).
Proof.
  unfold fetchFisheriesFromApi.
  rewrite (fetchGbifFishOccurrences_eq fetchGbif).
  generalize (map normalizeGbif (deliveredRecords fetchGbif)). intros gbifFish.
  destruct fetchObis as [[[ | ] [body | e]] | e]; reflexivity.
Qed.

Lemma fetchOceanographicFromApi_summary
  (fetch : Promise (Response (option Marine.Json))) (body : Marine.Json) :
  delivered fetch = Some (Some body) ->
  exists s,
    fetchOceanographicFromApi fetch = Fulfilled (Some s) /\
    time (hourly s) = map (fun t => t +++ "Z") (hourlyTimes body) /\
    (forall m, series (hourly s) m = hourlySeries body m).
Proof.
  unfold fetchOceanographicFromApi, delivered.
  destruct fetch as [res | e]; simpl; [ | discriminate].
  destruct (ok res); simpl; [ | discriminate].
  destruct (json res) as [[b | ] | e]; simpl; intros H; try discriminate.
  injection H as <-. eexists. split; [reflexivity | ].
  split; reflexivity.
Qed.

(** C6.  Whatever the four requests of a render do, [getLiveOrMockData] is
    fulfilled, never rejected.  Each of the three fetchers is fulfilled, and
    each field of the result is that fetcher's summary when it yielded one
    and the empty object when it yielded [null].  A request that delivers a
    body (for the marine service, a body other than [null]) gives its
    domain the summary of what it delivered; a failed request empties its
    own domain.  A field depends on the requests of its own pipeline only:
    whatever the other requests do, it stays as it is. *)
Theorem getLiveOrMockData_contains_failures (net : Network) :
  exists oceanApi fishApi molApi data,
    fetchOceanographicFromApi (marineRequest net) = Fulfilled oceanApi /\
    fetchFisheriesFromApi (fisheriesObisRequest net)
                          (fisheriesGbifRequest net) = Fulfilled fishApi /\
    fetchBiodiversityFromApi (biodiversityObisRequest net)
      = Fulfilled molApi /\
    getLiveOrMockData net = Fulfilled data /\
    oceanographic data
      = match oceanApi with Some s => Summary s | None => EmptyObject end /\
    fisheries data
      = match fishApi with Some s => Summary s | None => EmptyObject end /\
    molecular data
      = match molApi with Some s => Summary s | None => EmptyObject end /\
    (forall body, delivered (marineRequest net) = Some (Some body) ->
       exists s,
         oceanographic data = Summary s /\
         time (hourly s) = map (fun t => t +++ "Z") (hourlyTimes body) /\
         (forall m, series (hourly s) m = hourlySeries body m)) /\
    (forall body, delivered (fisheriesObisRequest net) = Some body ->
       fisheries data
       = Summary (fisheriesOf
                    (deliveredRecords (fisheriesObisRequest net))
                    (map normalizeGbif
                       (deliveredRecords (fisheriesGbifRequest net))))) /\
    (forall body, delivered (biodiversityObisRequest net) = Some body ->
       molecular data
       = Summary (biodiversityOf
                    (deliveredRecords (biodiversityObisRequest net)))) /\
    (forall net' data',
       getLiveOrMockData net' = Fulfilled data' ->
       (marineRequest net' = marineRequest net ->
        oceanographic data' = oceanographic data) /\
       (fisheriesObisRequest net' = fisheriesObisRequest net ->
        fisheriesGbifRequest net' = fisheriesGbifRequest net ->
        fisheries data' = fisheries data) /\
       (biodiversityObisRequest net' = biodiversityObisRequest net ->
        molecular data' = molecular data)) /\
    (requestFailed (marineRequest net) = true ->
     oceanApi = None /\ oceanographic data = EmptyObject) /\
    (requestFailed (fisheriesObisRequest net) = true ->
     fishApi = None /\ fisheries data = EmptyObject) /\
    (requestFailed (biodiversityObisRequest net) = true ->
     molApi = None /\ molecular data = EmptyObject).
Proof.
  destruct (fetchOceanographicFromApi_settles (marineRequest net))
    as [o Ho].
  destruct (fetchFisheriesFromApi_settles (fisheriesObisRequest net)
              (fisheriesGbifRequest net)) as [f Hf].
  destruct (fetchBiodiversityFromApi_settles (biodiversityObisRequest net))
    as [m Hm].
  assert (Hdata : getLiveOrMockData net
                  = Fulfilled
                      {| oceanographic :=
                           match o with
                           | Some s => Summary s
                           | None => EmptyObject
                           end;
                         fisheries :=
                           match f with
                           | Some s => Summary s
                           | None => EmptyObject
                           end;
                         molecular :=
                           match m with
                           | Some s => Summary s
                           | None => EmptyObject
                           end |}).
  { unfold getLiveOrMockData. rewrite Ho, Hf, Hm.
    destruct o, f, m; reflexivity. }
  eexists o, f, m, _.
  split; [exact Ho | ]. split; [exact Hf | ]. split; [exact Hm | ].
  split; [exact Hdata | ]. cbn [oceanographic fisheries molecular].
  split; [reflexivity | ]. split; [reflexivity | ]. split; [reflexivity | ].
  split.
  { intros body Hb.
    destruct (fetchOceanographicFromApi_summary _ _ Hb) as [s [Hs Hrest]].
    rewrite Hs in Ho. injection Ho as <-. exists s. split; [reflexivity | ].
    exact Hrest. }
  split.
  { intros body Hb. rewrite fetchFisheriesFromApi_eq, Hb in Hf.
    injection Hf as <-. reflexivity. }
  split.
  { intros body Hb. rewrite fetchBiodiversityFromApi_eq, Hb in Hm.
    injection Hm as <-. reflexivity. }
  split.
  { intros net' data' H'. unfold getLiveOrMockData in H'.
    destruct (fetchOceanographicFromApi_settles (marineRequest net'))
      as [o' Ho'].
    destruct (fetchFisheriesFromApi_settles (fisheriesObisRequest net')
                (fisheriesGbifRequest net')) as [f' Hf'].
    destruct (fetchBiodiversityFromApi_settles
                (biodiversityObisRequest net')) as [m' Hm'].
    rewrite Ho', Hf', Hm' in H'. simpl in H'.
    injection H' as H'. subst data'. cbn [oceanographic fisheries molecular].
    split; [ | split].
    - intros E. rewrite E in Ho'.
      assert (o' = o) by congruence. subst o'. destruct o; reflexivity.
    - intros E1 E2. rewrite E1, E2 in Hf'.
      assert (f' = f) by congruence. subst f'. destruct f; reflexivity.
    - intros E. rewrite E in Hm'.
      assert (m' = m) by congruence. subst m'. destruct m; reflexivity. }
  split; [ | split].
  - intros H. rewrite (fetchOceanographicFromApi_failed _ H) in Ho.
    injection Ho as <-. split; reflexivity.
  - intros H. rewrite (fetchFisheriesFromApi_failed _ _ H) in Hf.
    injection Hf as <-. split; reflexivity.
  - intros H. rewrite (fetchBiodiversityFromApi_failed _ H) in Hm.
    injection Hm as <-. split; reflexivity.
Qed.

(** ** Fisheries indices *)

Lemma array_length_nonneg {A : Type} (l : list A) : 0 <= array_length l.
Proof. unfold array_length. lia. Qed.

(** [Math.round(n * 0.8)] is the integer nearest to [4 n / 5]. *)
Lemma Math_round_four_fifths (n : Z) :
  Math_round (inject_Z n * (8 # 10)) = (16 * n + 10) / 20 /\
  -2 <= 5 * Math_round (inject_Z n * (8 # 10)) - 4 * n <= 2.
Proof.
  assert (E : Math_round (inject_Z n * (8 # 10)) = (16 * n + 10) / 20).
  { unfold Math_round, Qfloor, Qplus, Qmult, inject_Z.
    cbn -[Z.mul Z.add Z.div]. f_equal. lia. }
  split; [exact E | ]. rewrite E.
  pose proof (Z.div_mod (16 * n + 10) 20 ltac:(lia)) as Hd.
  pose proof (Z.mod_pos_bound (16 * n + 10) 20 ltac:(lia)) as Hm.
  lia.
Qed.

(** C2.  With [n] the combined count of fish occurrences (the records of
    source A whose class is the bony fishes, plus the records of source B),
    the predicted catch index is [2 n + 20] clamped into [20, 95], so 20 at
    [n = 0] and 95 from [n = 38] on; the habitat suitability is 40 plus the
    integer nearest to [0.8 n], capped at 98, so 40 at [n = 0]; the advisory
    is the favourable one exactly when [n > 10]. *)
Theorem fisheriesOf_indices (obisRecords gbifFish : list OccurrenceRecord) :
  let s := fisheriesOf obisRecords gbifFish in
  let n := totalFishOccurrencesCombined s in
  n = array_length (filter isFish obisRecords) + array_length gbifFish /\
  0 <= n /\
  predictedCatchIndex s = Z.max 20 (Z.min 95 (2 * n + 20)) /\
  20 <= predictedCatchIndex s <= 95 /\
  (n = 0 -> predictedCatchIndex s = 20) /\
  (38 <= n -> predictedCatchIndex s = 95) /\
  (exists r, -2 <= 5 * r - 4 * n <= 2 /\
             habitatSuitability s = Z.min 98 (40 + r)) /\
  habitatSuitability s <= 98 /\
  (n = 0 -> habitatSuitability s = 40) /\
  (10 < n ->
   advisories s = "Conditions favorable for small-scale fishing") /\
  (n <= 10 -> advisories s = "Survey area recommended").
Proof.
  intros s n. subst s n. unfold fisheriesOf.
  cbn [totalFishOccurrencesCombined predictedCatchIndex habitatSuitability
       advisories].
  set (n := array_length (filter isFish obisRecords) + array_length gbifFish).
  assert (Hn : 0 <= n).
  { pose proof (array_length_nonneg (filter isFish obisRecords)).
    pose proof (array_length_nonneg gbifFish). lia. }
  destruct (Math_round_four_fifths n) as [Hr Hb].
  split; [reflexivity | ]. split; [exact Hn | ].
  split; [lia | ]. split; [lia | ]. split; [lia | ]. split; [lia | ].
  split; [exists (Math_round (inject_Z n * (8 # 10))); split;
          [exact Hb | reflexivity] | ].
  split; [lia | ].
  split; [intros H0; rewrite H0; reflexivity | ].
  split; intros H.
  - destruct (Z.ltb_spec 10 n); [reflexivity | lia].
  - destruct (Z.ltb_spec 10 n); [lia | reflexivity].
Qed.

(** ** Sets of names *)

Lemma Set_has_In (s : list string) (x : string) :
  Set_has s x = true <-> In x s.
Proof.
  unfold Set_has. rewrite existsb_exists. split.
  - intros [y [Hy E]]. apply String.eqb_eq in E. subst. assumption.
  - intros H. exists x. split; [assumption | apply String.eqb_refl].
Qed.

Lemma Set_has_not_In (s : list string) (x : string) :
  Set_has s x = false <-> ~ In x s.
Proof.
  rewrite <- Set_has_In. destruct (Set_has s x); split; congruence.
Qed.

Lemma Set_from_snoc (l : list string) (x : string) :
  Set_from (l ++ [x]) = Set_add (Set_from l) x.
Proof. unfold Set_from. rewrite fold_left_app. reflexivity. Qed.

Lemma Set_add_In (s : list string) (x y : string) :
  In y (Set_add s x) <-> In y s \/ y = x.
Proof.
  unfold Set_add. destruct (Set_has s x) eqn:E.
  - apply Set_has_In in E. split; [tauto | ].
    intros [H | H]; [assumption | subst; assumption].
  - rewrite in_app_iff. simpl. split; intros [H | H]; auto.
    + destruct H as [H | []]; auto.
Qed.

Lemma Set_from_In (l : list string) (x : string) :
  In x (Set_from l) <-> In x l.
Proof.
  induction l as [ | y l IH] using rev_ind.
  - reflexivity.
  - rewrite Set_from_snoc, Set_add_In, in_app_iff, IH. simpl.
    split; intros [H | H]; auto.
    destruct H as [H | []]; auto.
Qed.

Lemma NoDup_snoc {A : Type} (l : list A) (x : A) :
  NoDup l -> ~ In x l -> NoDup (l ++ [x]).
Proof.
  intros Hl Hx. induction Hl as [ | y l Hy Hl IH]; simpl.
  - constructor; [intros [] | constructor].
  - constructor.
    + rewrite in_app_iff. simpl. intros [H | [H | []]]; [tauto | ].
      subst. apply Hx. left. reflexivity.
    + apply IH. intros H. apply Hx. right. assumption.
Qed.

Lemma Set_from_NoDup (l : list string) : NoDup (Set_from l).
Proof.
  induction l as [ | y l IH] using rev_ind.
  - constructor.
  - rewrite Set_from_snoc. unfold Set_add.
    destruct (Set_has (Set_from l) y) eqn:E; [assumption | ].
    apply NoDup_snoc; [assumption | ].
    apply Set_has_not_In. assumption.
Qed.

(** The set of a concatenation: the set of the first list, then the
    members of the set of the second that the first does not have. *)
Lemma Set_from_app (a b : list string) :
  Set_from (a ++ b) =
  Set_from a ++ filter (fun x => negb (Set_has a x)) (Set_from b).
Proof.
  induction b as [ | x b IH] using rev_ind.
  - rewrite app_nil_r. simpl. rewrite app_nil_r. reflexivity.
  - rewrite app_assoc, !Set_from_snoc, IH. unfold Set_add.
    destruct (Set_has (Set_from b) x) eqn:Eb.
    + assert (H : Set_has
                    (Set_from a
                     ++ filter (fun x => negb (Set_has a x)) (Set_from b)) x
                  = true).
      { apply Set_has_In. rewrite in_app_iff, filter_In, Set_from_In.
        apply Set_has_In in Eb.
        destruct (Set_has a x) eqn:Ea.
        - left. apply Set_has_In. assumption.
        - right. split; [assumption | reflexivity]. }
      rewrite H. reflexivity.
    + rewrite filter_app. simpl.
      apply Set_has_not_In in Eb.
      destruct (Set_has a x) eqn:Ea; simpl.
      * assert (H : Set_has
                      (Set_from a
                       ++ filter (fun x => negb (Set_has a x)) (Set_from b)) x
                    = true).
        { apply Set_has_In. rewrite in_app_iff, Set_from_In.
          left. apply Set_has_In. assumption. }
        rewrite H, app_nil_r. reflexivity.
      * assert (H : Set_has
                      (Set_from a
                       ++ filter (fun x => negb (Set_has a x)) (Set_from b)) x
                    = false).
        { apply Set_has_not_In. rewrite in_app_iff, filter_In, Set_from_In.
          apply Set_has_not_In in Ea. tauto. }
        rewrite H, app_assoc. reflexivity.
Qed.

Lemma filter_Boolean_In (xs : list (option string)) (x : string) :
  In x (filter_Boolean xs) <-> x <> "" /\ In (Some x) xs.
Proof.
  induction xs as [ | [s | ] xs IH]; simpl.
  - tauto.
  - destruct (String.eqb_spec s ""); simpl; rewrite IH.
    + split.
      * intros [H1 H2]. tauto.
      * intros [H1 [H2 | H2]]; [congruence | tauto].
    + split.
      * intros [H | [H1 H2]]; [subst; tauto | tauto].
      * intros [H1 [H2 | H2]]; [left; congruence | tauto].
  - rewrite IH. split; [tauto | ].
    intros [H1 [H2 | H2]]; [discriminate | tauto].
Qed.

(** ** Biodiversity metrics *)

Lemma uniqueTaxa_In (records : list OccurrenceRecord) (x : string) :
  In x (uniqueTaxa records) <->
  x <> "" /\ exists r, In r records /\ scientificName r = Some x.
Proof.
  unfold uniqueTaxa. rewrite Set_from_In, filter_Boolean_In, in_map_iff.
  split; intros [H1 [r [H2 H3]]]; split; try assumption; exists r; tauto.
Qed.

Lemma Number_toString_digits :
  forall n, 0 <= n < 100 ->
  padStart2 (Number_toString n) =
  String (ascii_of_nat (48 + Z.to_nat (n / 10)))
         (String (ascii_of_nat (48 + Z.to_nat (n mod 10))) "").
Proof.
  intros n Hn.
  assert (H : In n (map Z.of_nat (seq 0 100))).
  { apply in_map_iff. exists (Z.to_nat n). split; [lia | ].
    apply in_seq. lia. }
  revert H. clear Hn. revert n.
  apply Forall_forall. vm_compute.
  repeat (constructor; [reflexivity | ]). constructor.
Qed.

(** The diversity index of [n] unique taxa: the hundredths [min n 95]. *)
Lemma diversity_index_text (n : Z) :
  0 <= n ->
  toFixed2 (Qmin (inject_Z n / inject_Z 100) (95 # 100)) =
  "0." +++ padStart2 (Number_toString (Z.min n 95)).
Proof.
  intros Hn.
  assert (Hm : Qfloor (Qmin (inject_Z n / inject_Z 100) (95 # 100)
                       * inject_Z 100 + (1 # 2)) = Z.min n 95).
  { unfold Qmin, GenericMinMax.gmin.
    destruct (Qcompare (inject_Z n / inject_Z 100) (95 # 100)) eqn:E.
    - apply Qeq_alt in E. 
      unfold Qeq, Qdiv, Qmult, Qinv, inject_Z in E.
      cbn -[Z.mul Z.add Z.div] in E.
      unfold Qfloor, Qplus, Qmult, Qdiv, Qinv, inject_Z.
      cbn -[Z.mul Z.add Z.div Z.min].
      symmetry. apply Z.div_unique with (r := 100); lia.
    - apply Qlt_alt in E.
      unfold Qlt, Qdiv, Qmult, Qinv, inject_Z in E.
      cbn -[Z.mul Z.add Z.div] in E.
      unfold Qfloor, Qplus, Qmult, Qdiv, Qinv, inject_Z.
      cbn -[Z.mul Z.add Z.div Z.min].
      symmetry. apply Z.div_unique with (r := 100); lia.
    - apply Qgt_alt in E.
      unfold Qlt, Qdiv, Qmult, Qinv, inject_Z in E.
      cbn -[Z.mul Z.add Z.div] in E.
      unfold Qfloor, Qplus, Qmult.
      cbn -[Z.mul Z.add Z.div Z.min].
      symmetry. apply Z.div_unique with (r := 100); lia. }
  unfold toFixed2. rewrite Hm.
  assert (H0 : Z.min n 95 / 100 = 0) by (apply Z.div_small; lia).
  assert (H1 : Z.min n 95 mod 100 = Z.min n 95) by (apply Z.mod_small; lia).
  rewrite H0, H1. reflexivity.
Qed.

(** C1.  The taxa detected are counted once each: the count is the length
    of a duplicate-free list holding exactly the non-empty scientific names
    of the records.  With [n] that count, the diversity index is
    [min(n / 100, 0.95)] printed with two decimals, that is "0." followed by
    the two digits of [min n 95], and "0.00" when [n = 0]; the invasive risk
    is "Moderate" exactly when [n > 50] and "Low" otherwise. *)
Theorem biodiversityOf_metrics (records : list OccurrenceRecord) :
  let s := biodiversityOf records in
  let n := potentialTaxaDetected s in
  NoDup (uniqueTaxa records) /\
  (forall x, In x (uniqueTaxa records) <->
             x <> "" /\ exists r, In r records /\ scientificName r = Some x) /\
  n = Z.of_nat (List.length (uniqueTaxa records)) /\
  eDnaDiversityIndex s =
    toFixed2 (Qmin (inject_Z n / inject_Z 100) (95 # 100)) /\
  eDnaDiversityIndex s =
    "0." +++ String (ascii_of_nat (48 + Z.to_nat (Z.min n 95 / 10)))
               (String (ascii_of_nat (48 + Z.to_nat (Z.min n 95 mod 10))) "") /\
  (n = 0 -> eDnaDiversityIndex s = "0.00") /\
  (invasiveRisk s = "Moderate" <-> 50 < n) /\
  (invasiveRisk s = "Low" <-> n <= 50).
Proof.
  intros s n. subst s n. unfold biodiversityOf.
  cbn [potentialTaxaDetected eDnaDiversityIndex invasiveRisk].
  set (n := array_length (uniqueTaxa records)).
  assert (Hn : 0 <= n) by apply array_length_nonneg.
  assert (Hidx :
    (if Z.ltb 0 n
     then toFixed2 (Qmin (inject_Z n / inject_Z 100) (95 # 100))
     else "0.00")
    = toFixed2 (Qmin (inject_Z n / inject_Z 100) (95 # 100))).
  { destruct (Z.ltb_spec 0 n); [reflexivity | ].
    replace n with 0 by lia. reflexivity. }
  split; [apply Set_from_NoDup | ].
  split; [apply uniqueTaxa_In | ].
  split; [reflexivity | ].
  split; [exact Hidx | ].
  split.
  { rewrite Hidx, diversity_index_text by exact Hn.
    rewrite Number_toString_digits by lia. reflexivity. }
  split.
  { intros H0. rewrite H0. reflexivity. }
  split.
  - destruct (Z.ltb_spec 50 n); split; intros H'; try reflexivity;
      try lia; discriminate.
  - destruct (Z.ltb_spec 50 n); split; intros H'; try reflexivity;
      try lia; discriminate.
Qed.

(** ** Combined species and the dominant one *)

Lemma filter_Boolean_not_empty (xs : list (option string)) :
  Forall (fun x => x <> "") (filter_Boolean xs).
Proof.
  apply Forall_forall. intros x H.
  apply filter_Boolean_In in H. tauto.
Qed.

Lemma combinedSpeciesOf_not_empty obisRecords gbifFish :
  Forall (fun x => x <> "") (combinedSpeciesOf obisRecords gbifFish).
Proof.
  apply Forall_forall. intros x H. unfold combinedSpeciesOf in H.
  apply (proj1 (Set_from_In _ _)) in H. apply in_app_iff in H.
  unfold obisSpeciesOf, gbifSpeciesOf in H.
  destruct H as [H | H]; apply filter_Boolean_In in H; tauto.
Qed.

Lemma filter_Boolean_suppliedNames (rs : list OccurrenceRecord) :
  filter_Boolean (map scientificName rs) = suppliedNames rs.
Proof.
  induction rs as [ | r rs IH]; simpl; [reflexivity | ].
  destruct (scientificName r) as [name | ]; [ | exact IH].
  destruct (String.eqb name ""); simpl; rewrite IH; reflexivity.
Qed.

Lemma Set_from_cons (x : string) (l : list string) :
  Set_from (x :: l)
  = x :: filter (fun y => negb (String.eqb y x)) (Set_from l).
Proof.
  change (x :: l) with ([x] ++ l). rewrite Set_from_app.
  change (Set_from [x]) with [x]. simpl. f_equal.
  apply filter_ext. intros y. unfold Set_has. simpl.
  rewrite orb_false_r. reflexivity.
Qed.

Lemma Set_from_withoutRepeats (l : list string) :
  Set_from l = withoutRepeats l.
Proof.
  induction l as [ | x l IH]; [reflexivity | ].
  rewrite Set_from_cons, IH. reflexivity.
Qed.

Lemma isFish_ofFishClass (r : OccurrenceRecord) : isFish r = ofFishClass r.
Proof.
  unfold isFish, ofFishClass, or_else.
  destruct (class r) as [c | ]; cbn [truthy]; [ | reflexivity].
  destruct (String.eqb_spec c ""); cbn [negb]; [ | reflexivity].
  subst. reflexivity.
Qed.

Lemma combinedSpeciesOf_union (obisRecords gbifFish : list OccurrenceRecord) :
  combinedSpeciesOf obisRecords gbifFish
  = unionInOrder (suppliedNames (filter ofFishClass obisRecords))
                 (suppliedNames gbifFish).
Proof.
  unfold combinedSpeciesOf, obisSpeciesOf, gbifSpeciesOf, unionInOrder.
  rewrite Set_from_app, !filter_Boolean_suppliedNames, !Set_from_withoutRepeats.
  rewrite (filter_ext isFish ofFishClass isFish_ofFishClass).
  reflexivity.
Qed.

Lemma suppliedNames_In (rs : list OccurrenceRecord) (x : string) :
  In x (suppliedNames rs) <->
  x <> "" /\ exists r, In r rs /\ scientificName r = Some x.
Proof.
  rewrite <- filter_Boolean_suppliedNames, filter_Boolean_In, in_map_iff.
  split; intros [H1 [r [H2 H3]]]; split; try assumption; exists r; tauto.
Qed.

(** C8.  The combined species list is the duplicate-free union of the
    names of the two sources: the distinct names of the fish records of
    source A in the order in which they are first met, then the distinct
    names of source B that source A does not have.  It has no duplicate and
    holds exactly the non-empty names of the fish records of source A and
    of the records of source B.  The dominant species is the first combined
    name; when the combined list is empty it is the scientific name of the
    first raw record of source A, failing that of the first record of
    source B, and "Unknown" when neither has one. *)
Theorem fisheriesOf_species (obisRecords gbifFish : list OccurrenceRecord) :
  let s := fisheriesOf obisRecords gbifFish in
  let a := suppliedNames (filter ofFishClass obisRecords) in
  let b := suppliedNames gbifFish in
  let combined := unionInOrder a b in
  combinedSpeciesOf obisRecords gbifFish = combined /\
  NoDup combined /\
  (forall x, In x combined <->
     x <> "" /\
     ((exists r c, In r obisRecords /\ class r = Some c /\
                   toLowerCase c = "actinopterygii" /\
                   scientificName r = Some x)
      \/ exists r, In r gbifFish /\ scientificName r = Some x)) /\
  sampleSpecies s = firstn 5 combined /\
  dominantSpecies s =
    match combined with
    | x :: _ => x
    | [] =>
        match nameOfFirst obisRecords with
        | Some x => x
        | None =>
            match nameOfFirst gbifFish with
            | Some x => x
            | None => "Unknown"
            end
        end
    end.
Proof.
  intros s a b combined.
  assert (E : combinedSpeciesOf obisRecords gbifFish = combined)
    by apply combinedSpeciesOf_union.
  split; [exact E | ].
  split; [rewrite <- E; apply Set_from_NoDup | ].
  split.
  { intros x. rewrite <- E. unfold combinedSpeciesOf.
    rewrite Set_from_In, in_app_iff. unfold obisSpeciesOf, gbifSpeciesOf.
    rewrite !filter_Boolean_suppliedNames, !suppliedNames_In.
    split.
    - intros [[Hx [r [Hr Hn]]] | [Hx [r [Hr Hn]]]]; (split; [exact Hx | ]).
      + left. apply filter_In in Hr. destruct Hr as [Hr Hf].
        rewrite isFish_ofFishClass in Hf. unfold ofFishClass in Hf.
        destruct (class r) as [c | ] eqn:Ec; [ | discriminate].
        exists r, c. apply String.eqb_eq in Hf. tauto.
      + right. exists r. tauto.
    - intros [Hx [[r [c [Hr [Hc [Hl Hn]]]]] | [r [Hr Hn]]]].
      + left. split; [exact Hx | ]. exists r. split; [ | exact Hn].
        apply filter_In. split; [exact Hr | ].
        rewrite isFish_ofFishClass. unfold ofFishClass. rewrite Hc.
        apply String.eqb_eq. exact Hl.
      + right. split; [exact Hx | ]. exists r. tauto. }
  split.
  { subst s. unfold fisheriesOf. cbn [sampleSpecies]. rewrite E. reflexivity. }
  subst s. unfold fisheriesOf. cbn [dominantSpecies]. rewrite E.
  pose proof (combinedSpeciesOf_not_empty obisRecords gbifFish) as Hne.
  rewrite E in Hne.
  destruct combined as [ | x rest]; cbn [hd_error].
  - unfold or_else at 2. cbn [truthy].
    unfold nameOfFirst, or_else, firstName.
    destruct obisRecords as [ | r1 ?]; cbn [truthy].
    + destruct gbifFish as [ | r2 ?]; cbn [or_text]; [reflexivity | ].
      destruct (scientificName r2) as [n | ]; cbn [or_text]; [ | reflexivity].
      destruct (String.eqb n ""); reflexivity.
    + destruct (scientificName r1) as [n | ]; cbn [truthy].
      * destruct (String.eqb n "") eqn:En; cbn [negb or_text].
        -- destruct gbifFish as [ | r2 ?]; cbn [or_text]; [reflexivity | ].
           destruct (scientificName r2) as [n2 | ]; cbn [or_text]; [ | reflexivity].
           destruct (String.eqb n2 ""); reflexivity.
        -- rewrite En. reflexivity.
      * destruct gbifFish as [ | r2 ?]; cbn [or_text]; [reflexivity | ].
        destruct (scientificName r2) as [n2 | ]; cbn [or_text]; [ | reflexivity].
        destruct (String.eqb n2 ""); reflexivity.
  - inversion Hne as [ | ? ? Hx _]; subst.
    apply String.eqb_neq in Hx.
    unfold or_else at 2. cbn [truthy]. rewrite Hx. cbn [negb].
    unfold or_else. cbn [truthy]. rewrite Hx. cbn [negb or_text].
    rewrite Hx. reflexivity.
Qed.

(** ** The stable sort *)

Section StableSort.

Variable A : Type.
Variable key : A -> Z.

Lemma sort_insert_In (x y : A) (l : list A) :
  In y (sort_insert (fun a b => key b - key a) x l) <-> y = x \/ In y l.
Proof.
  induction l as [ | z l IH]; simpl.
  - intuition.
  - destruct (Z.ltb 0 (key z - key x)); simpl; [rewrite IH | ]; intuition.
Qed.

Lemma Array_sort_In (y : A) (l : list A) :
  In y (Array_sort (fun a b => key b - key a) l) <-> In y l.
Proof.
  induction l as [ | x l IH]; simpl; [reflexivity | ].
  rewrite sort_insert_In, IH. intuition.
Qed.

Lemma sort_insert_perm (x : A) (l : list A) :
  Permutation (sort_insert (fun a b => key b - key a) x l) (x :: l).
Proof.
  induction l as [ | z l IH]; simpl; [reflexivity | ].
  destruct (Z.ltb 0 (key z - key x)); [ | reflexivity].
  rewrite IH. apply perm_swap.
Qed.

Lemma Array_sort_perm (l : list A) :
  Permutation (Array_sort (fun a b => key b - key a) l) l.
Proof.
  induction l as [ | x l IH]; simpl; [reflexivity | ].
  rewrite sort_insert_perm. constructor. assumption.
Qed.

Variable pos : A -> nat.

Lemma sort_insert_sorted (x : A) (l : list A) :
  StronglySorted (goes_before key pos) l ->
  Forall (fun y => (pos x < pos y)%nat) l ->
  StronglySorted (goes_before key pos) (sort_insert (fun a b => key b - key a) x l).
Proof.
  intros Hs. induction Hs as [ | z l Hs IH Hz]; intros Hp; simpl.
  - constructor; constructor.
  - inversion Hp as [ | ? ? Hxz Hxl]; subst.
    destruct (Z.ltb_spec 0 (key z - key x)) as [Hlt | Hge].
    + constructor; [apply IH; assumption | ].
      apply Forall_forall. intros y Hy.
      apply sort_insert_In in Hy. destruct Hy as [Hy | Hy].
      * subst. left. lia.
      * rewrite Forall_forall in Hz. apply Hz. assumption.
    + constructor; [constructor; assumption | ].
      constructor.
      * unfold goes_before. destruct (Z.eq_dec (key x) (key z)); [ | left; lia].
        right. split; assumption.
      * apply Forall_forall. intros y Hy.
        rewrite Forall_forall in Hz, Hxl.
        specialize (Hz y Hy). specialize (Hxl y Hy).
        unfold goes_before in *.
        destruct (Z.eq_dec (key x) (key y)); [right; split; assumption | ].
        left. lia.
Qed.

(** Sorting a list whose positions increase puts it in rank order. *)
Lemma Array_sort_sorted (l : list A) :
  StronglySorted (fun a b => (pos a < pos b)%nat) l ->
  StronglySorted (goes_before key pos) (Array_sort (fun a b => key b - key a) l).
Proof.
  intros Hs. induction Hs as [ | x l Hs IH Hx]; simpl.
  - constructor.
  - apply sort_insert_sorted; [assumption | ].
    apply Forall_forall. intros y Hy. apply (proj1 (Array_sort_In _ _)) in Hy.
    rewrite Forall_forall in Hx. apply Hx. assumption.
Qed.

End StableSort.

Lemma StronglySorted_weaken {A : Type} (R R' : A -> A -> Prop) (l : list A) :
  (forall a b, In a l -> In b l -> R a b -> R' a b) ->
  StronglySorted R l -> StronglySorted R' l.
Proof.
  intros H Hs. induction Hs as [ | x l Hs IH Hx].
  - constructor.
  - constructor.
    + apply IH. intros a b Ha Hb. apply H; right; assumption.
    + rewrite Forall_forall in *. intros y Hy.
      apply H; [left; reflexivity | right; assumption | apply Hx; assumption].
Qed.

Lemma StronglySorted_map {A B : Type} (f : A -> B) (R : B -> B -> Prop)
  (l : list A) :
  StronglySorted (fun a b => R (f a) (f b)) l -> StronglySorted R (map f l).
Proof.
  intros Hs. induction Hs as [ | x l Hs IH Hx]; simpl; constructor.
  - assumption.
  - rewrite Forall_forall in *. intros y Hy.
    apply in_map_iff in Hy. destruct Hy as [z [E Hz]]. subst.
    apply Hx. assumption.
Qed.

Lemma StronglySorted_unmap {A B : Type} (f : A -> B) (R : B -> B -> Prop)
  (l : list A) :
  StronglySorted R (map f l) -> StronglySorted (fun a b => R (f a) (f b)) l.
Proof.
  induction l as [ | x l IH]; simpl; intros Hs; [constructor | ].
  inversion Hs as [ | ? ? Hs' Hx]; subst. constructor.
  - apply IH. assumption.
  - rewrite Forall_forall in *. intros y Hy. apply Hx.
    apply in_map. assumption.
Qed.

Lemma StronglySorted_app_inv {A : Type} (R : A -> A -> Prop) (l1 l2 : list A) :
  StronglySorted R (l1 ++ l2) ->
  StronglySorted R l1 /\ (forall a b, In a l1 -> In b l2 -> R a b).
Proof.
  induction l1 as [ | x l1 IH]; simpl; intros Hs.
  - split; [constructor | intros a b []].
  - inversion Hs as [ | ? ? Hs' Hx]; subst.
    destruct (IH Hs') as [H1 H2]. split.
    + constructor; [assumption | ].
      rewrite Forall_forall in *. intros y Hy. apply Hx.
      apply in_app_iff. left. assumption.
    + intros a b [Ha | Ha] Hb.
      * subst. rewrite Forall_forall in Hx. apply Hx.
        apply in_app_iff. right. assumption.
      * apply H2; assumption.
Qed.

Lemma StronglySorted_snoc {A : Type} (R : A -> A -> Prop) (l : list A) (x : A) :
  StronglySorted R l -> Forall (fun a => R a x) l ->
  StronglySorted R (l ++ [x]).
Proof.
  intros Hs. induction Hs as [ | y l Hs IH Hy]; simpl; intros Hx.
  - constructor; constructor.
  - inversion Hx as [ | ? ? Hyx Hlx]; subst. constructor.
    + apply IH. assumption.
    + apply Forall_app. split; [assumption | ].
      constructor; [assumption | constructor].
Qed.

(** ** Counting with an object *)

Lemma tally_snoc (names : list string) (x : string) :
  tally (names ++ [x]) =
  own_set (tally names) x (or_zero (own_get (tally names) x) + 1).
Proof. unfold tally. rewrite fold_left_app. reflexivity. Qed.

Lemma own_get_own_set (o : JsObject) (k y : string) (v : Z) :
  own_get (own_set o k v) y =
  if String.eqb k y then Some v else own_get o y.
Proof.
  induction o as [ | [k' v'] o IH]; simpl.
  - reflexivity.
  - destruct (String.eqb_spec k' k) as [E | E]; simpl.
    + subst. destruct (String.eqb k y); reflexivity.
    + rewrite IH. destruct (String.eqb_spec k' y) as [E' | E'].
      * subst. destruct (String.eqb_spec k y); [congruence | reflexivity].
      * reflexivity.
Qed.

Lemma keys_own_set (o : JsObject) (k : string) (v : Z) :
  map fst (own_set o k v) = Set_add (map fst o) k.
Proof.
  unfold Set_add, Set_has.
  induction o as [ | [k' v'] o IH]; simpl.
  - reflexivity.
  - rewrite (String.eqb_sym k k').
    destruct (String.eqb k' k); simpl; [reflexivity | ].
    rewrite IH. destruct (existsb (String.eqb k) (map fst o)); reflexivity.
Qed.

Lemma tally_keys (names : list string) :
  map fst (tally names) = Set_from names.
Proof.
  induction names as [ | x names IH] using rev_ind.
  - reflexivity.
  - rewrite tally_snoc, keys_own_set, IH, Set_from_snoc. reflexivity.
Qed.

Lemma occurrencesOf_snoc (names : list string) (x y : string) :
  occurrencesOf (names ++ [x]) y =
  (occurrencesOf names y + (if String.eqb x y then 1 else 0))%nat.
Proof.
  unfold occurrencesOf. rewrite count_occ_app. simpl.
  destruct (string_dec x y) as [E | E].
  - subst. rewrite String.eqb_refl. reflexivity.
  - apply String.eqb_neq in E. rewrite E. reflexivity.
Qed.

Lemma tally_get (names : list string) (y : string) :
  or_zero (own_get (tally names) y) = Z.of_nat (occurrencesOf names y).
Proof.
  induction names as [ | x names IH] using rev_ind.
  - reflexivity.
  - rewrite tally_snoc, own_get_own_set, occurrencesOf_snoc.
    destruct (String.eqb_spec x y) as [E | E].
    + subst. simpl. rewrite IH. lia.
    + rewrite IH. lia.
Qed.

Lemma own_get_In (o : JsObject) (y : string) (c : Z) :
  NoDup (map fst o) -> In (y, c) o -> own_get o y = Some c.
Proof.
  induction o as [ | [k v] o IH]; simpl; intros Hnd Hin; [contradiction | ].
  inversion Hnd as [ | ? ? Hk Hnd']; subst.
  destruct Hin as [E | Hin].
  - injection E as -> ->. rewrite String.eqb_refl. reflexivity.
  - destruct (String.eqb_spec k y) as [E | E].
    + subst. exfalso. apply Hk. apply in_map_iff.
      exists (y, c). split; [reflexivity | assumption].
    + apply IH; assumption.
Qed.

(** Every entry of the counter holds how often its name occurs. *)
Lemma tally_entries (names : list string) (e : string * Z) :
  In e (tally names) -> snd e = Z.of_nat (occurrencesOf names (fst e)).
Proof.
  intros H. destruct e as [y c]. simpl.
  rewrite <- tally_get.
  rewrite (own_get_In (tally names) y c); [reflexivity | | assumption].
  rewrite tally_keys. apply Set_from_NoDup.
Qed.

(** The loop fills the two counters independently of each other. *)
Lemma countLoop_split (records : list OccurrenceRecord) :
  countLoop records =
  (fold_left count_step (map family records) (Some []),
   fold_left count_step (map genus records) (Some [])).
Proof.
  unfold countLoop. generalize (Some (@nil (string * Z))) at 1 3.
  generalize (Some (@nil (string * Z))).
  induction records as [ | r records IH]; intros g f; simpl.
  - reflexivity.
  - rewrite IH. reflexivity.
Qed.

Lemma count_steps_ordinary (keys : list (option string)) (o : JsObject) :
  Forall ordinary (filter_Boolean keys) ->
  fold_left count_step keys (Some o) =
  Some (fold_left (fun o k => own_set o k (or_zero (own_get o k) + 1))
                  (filter_Boolean keys) o).
Proof.
  revert o. induction keys as [ | [k | ] keys IH]; intros o H; simpl in *.
  - reflexivity.
  - destruct (negb (String.eqb k "")); simpl; [ | apply IH; assumption].
    inversion H as [ | ? ? [_ Hk] H']; subst.
    unfold bump. rewrite Hk. apply IH. assumption.
  - apply IH. assumption.
Qed.

Lemma countLoop_ordinary (records : list OccurrenceRecord) :
  Forall ordinary (familyNames records) ->
  Forall ordinary (genusNames records) ->
  countLoop records =
  (Some (tally (familyNames records)), Some (tally (genusNames records))).
Proof.
  intros Hf Hg. rewrite countLoop_split.
  rewrite (count_steps_ordinary _ _ Hf), (count_steps_ordinary _ _ Hg).
  reflexivity.
Qed.

(** Without array indices among the keys, [Object.entries] follows the
    order of creation. *)
Lemma Object_entries_ordinary (o : JsObject) :
  Forall (fun k => is_array_index k = false) (map fst o) ->
  Object_entries o = o.
Proof.
  intros H.
  assert (Hi : index_entries o = []).
  { unfold index_entries, is_array_index in *.
    induction o as [ | [k v] o IH]; simpl in *; [reflexivity | ].
    inversion H as [ | ? ? Hk H']; subst.
    destruct (array_index k); [discriminate | ]. simpl.
    apply IH. assumption. }
  assert (Hf : filter (fun e => negb (is_array_index (fst e))) o = o).
  { induction o as [ | [k v] o IH]; simpl in *; [reflexivity | ].
    inversion H as [ | ? ? Hk H']; subst.
    rewrite Hk. simpl. f_equal. apply IH; [assumption | ].
    unfold index_entries in Hi. simpl in Hi.
    unfold is_array_index in Hk.
    destruct (array_index k); [discriminate | ]. exact Hi. }
  unfold Object_entries. rewrite Hi, Hf. reflexivity.
Qed.

(** ** First positions *)

Lemma first_index_app_in (x : string) (p q : list string) :
  In x p -> first_index x (p ++ q) = first_index x p.
Proof.
  induction p as [ | y p IH]; simpl; intros H; [contradiction | ].
  destruct (String.eqb_spec y x) as [E | E]; [reflexivity | ].
  f_equal. apply IH. destruct H; [contradiction | assumption].
Qed.

Lemma first_index_lt_length (x : string) (p : list string) :
  In x p -> (first_index x p < List.length p)%nat.
Proof.
  induction p as [ | y p IH]; simpl; intros H; [contradiction | ].
  destruct (String.eqb_spec y x) as [E | E]; [lia | ].
  destruct H as [H | H]; [contradiction | ].
  specialize (IH H). lia.
Qed.

Lemma first_index_snoc_new (x : string) (p : list string) :
  ~ In x p -> first_index x (p ++ [x]) = List.length p.
Proof.
  induction p as [ | y p IH]; simpl; intros H.
  - rewrite String.eqb_refl. reflexivity.
  - destruct (String.eqb_spec y x) as [E | E]; [tauto | ].
    f_equal. apply IH. tauto.
Qed.

(** The set lists its members in the order of their first occurrence. *)
Lemma Set_from_first_met (l : list string) :
  StronglySorted (fun a b => (first_index a l < first_index b l)%nat)
                 (Set_from l).
Proof.
  induction l as [ | x l IH] using rev_ind.
  - constructor.
  - assert (IH' : StronglySorted
                    (fun a b => (first_index a (l ++ [x])
                                 < first_index b (l ++ [x]))%nat)
                    (Set_from l)).
    { revert IH. apply StronglySorted_weaken. intros a b Ha Hb Hab.
      apply (proj1 (Set_from_In _ _)) in Ha.
      apply (proj1 (Set_from_In _ _)) in Hb.
      rewrite !first_index_app_in by assumption. assumption. }
    rewrite Set_from_snoc. unfold Set_add.
    destruct (Set_has (Set_from l) x) eqn:E; [assumption | ].
    apply Set_has_not_In in E.
    apply StronglySorted_snoc; [assumption | ].
    apply Forall_forall. intros a Ha.
    apply (proj1 (Set_from_In _ _)) in Ha.
    rewrite first_index_app_in by assumption.
    rewrite first_index_snoc_new.
    + apply first_index_lt_length. assumption.
    + intros H. apply E. apply Set_from_In. assumption.
Qed.

Lemma Set_from_length (l : list string) :
  List.length (Set_from l) = List.length (nodup string_dec l).
Proof.
  apply Permutation_length. apply NoDup_Permutation.
  - apply Set_from_NoDup.
  - apply NoDup_nodup.
  - intros x. rewrite Set_from_In, nodup_In. reflexivity.
Qed.

(** ** The three best names *)

Lemma goes_before_ranks (names : list string) (a b : string * Z) :
  snd a = Z.of_nat (occurrencesOf names (fst a)) ->
  snd b = Z.of_nat (occurrencesOf names (fst b)) ->
  goes_before snd (fun e => first_index (fst e) names) a b ->
  ranks_before names (fst a) (fst b) = true.
Proof.
  intros Ha Hb [H | [H1 H2]]; unfold ranks_before.
  - rewrite Ha, Hb in H.
    replace (Nat.ltb (occurrencesOf names (fst b))
                     (occurrencesOf names (fst a))) with true; [reflexivity | ].
    symmetry. apply Nat.ltb_lt. lia.
  - rewrite Ha, Hb in H1.
    replace (Nat.eqb (occurrencesOf names (fst a))
                     (occurrencesOf names (fst b))) with true.
    + replace (Nat.ltb (first_index (fst a) names)
                       (first_index (fst b) names)) with true.
      * apply orb_true_r.
      * symmetry. apply Nat.ltb_lt. assumption.
    + symmetry. apply Nat.eqb_eq. lia.
Qed.

(** When every name is ordinary, the counter of [names] yields the three
    best names in rank order, each with its number of occurrences. *)
Lemma tally_claimed_top (names : list string) :
  Forall ordinary names ->
  claimed_top names (Some (tally names)) (Some (topK (tally names) 3)).
Proof.
  intros Hord.
  exists (tally names). split; [reflexivity | ]. split; [reflexivity | ].
  set (obj := tally names).
  set (cmp := fun a b : string * Z => snd b - snd a).
  set (S := Array_sort cmp obj).
  assert (Hkeys : map fst obj = Set_from names) by apply tally_keys.
  assert (Hent : Object_entries obj = obj).
  { apply Object_entries_ordinary. rewrite Hkeys.
    apply Forall_forall. intros k Hk.
    apply (proj1 (Set_from_In _ _)) in Hk.
    rewrite Forall_forall in Hord. apply Hord. assumption. }
  assert (Htop : topEntries obj 3 = firstn 3 S).
  { unfold topEntries. rewrite Hent. reflexivity. }
  assert (HinS : forall e, In e S <-> In e obj).
  { intros e. exact (Array_sort_In (string * Z) snd e obj). }
  assert (Hcount : forall e, In e S ->
                   snd e = Z.of_nat (occurrencesOf names (fst e))).
  { intros e He. apply tally_entries. apply HinS. assumption. }
  assert (Hsorted : StronglySorted
                      (fun a b => ranks_before names (fst a) (fst b) = true) S).
  { apply StronglySorted_weaken
      with (R := goes_before snd
                   (fun e => first_index (fst e) names)).
    - intros a b Ha Hb. apply goes_before_ranks; apply Hcount; assumption.
    - apply Array_sort_sorted.
      apply (StronglySorted_unmap fst
               (fun a b => (first_index a names < first_index b names)%nat)).
      rewrite Hkeys. apply Set_from_first_met. }
  assert (Hsplit : S = firstn 3 S ++ skipn 3 S)
    by (symmetry; apply firstn_skipn).
  assert (Hperm : Permutation (map fst S) (Set_from names)).
  { rewrite <- Hkeys. apply Permutation_map.
    apply (Array_sort_perm (string * Z) snd). }
  rewrite Hsplit in Hsorted.
  apply StronglySorted_app_inv in Hsorted. destruct Hsorted as [Hs1 Hs2].
  rewrite Htop. split.
  - unfold top_ranked. split; [ | split; [ | split; [ | split]]].
    + (* no duplicate *)
      assert (Hnd : NoDup (map fst S)).
      { apply (Permutation_NoDup (Permutation_sym Hperm)).
        apply Set_from_NoDup. }
      rewrite Hsplit, map_app in Hnd.
      apply NoDup_app_remove_r in Hnd. assumption.
    + (* only names that occur *)
      intros x Hx. apply in_map_iff in Hx. destruct Hx as [e [E He]].
      subst x. apply Set_from_In.
      apply (Permutation_in _ Hperm). apply in_map.
      rewrite Hsplit. apply in_app_iff. left. assumption.
    + (* as many as there are, up to three *)
      rewrite length_map, length_firstn, <- Set_from_length.
      rewrite <- (Permutation_length Hperm), length_map. reflexivity.
    + (* in rank order *)
      apply StronglySorted_map. assumption.
    + (* ahead of every name left out *)
      intros a b Ha Hb Hnot.
      apply in_map_iff in Ha. destruct Ha as [ea [E Hea]]. subst a.
      apply Set_from_In in Hb.
      apply (Permutation_in _ (Permutation_sym Hperm)) in Hb.
      apply in_map_iff in Hb. destruct Hb as [eb [E Heb]]. subst b.
      rewrite Hsplit in Heb. apply in_app_iff in Heb.
      destruct Heb as [Heb | Heb].
      * exfalso. apply Hnot. apply in_map. assumption.
      * apply Hs2; assumption.
  - unfold topK. rewrite Htop, map_map. apply map_ext_in.
    intros e He. unfold formatEntry. rewrite (Hcount e); [reflexivity | ].
    rewrite Hsplit. apply in_app_iff. left. assumption.
Qed.

(** C5 (as amended).  When no family or genus name is an array index or
    the name of a property inherited from [Object.prototype], the top
    families and the top genera are the three names that occur most often
    (all of them when there are fewer), listed by descending number of
    occurrences, names with the same number in the order in which they were
    first met in the records, each followed by its number of occurrences in
    brackets. *)
Theorem topK_by_count_then_first_met (records : list OccurrenceRecord) :
  Forall ordinary (familyNames records) ->
  Forall ordinary (genusNames records) ->
  claimed_top (familyNames records) (fst (countLoop records))
              (topFamilies (biodiversityOf records)) /\
  claimed_top (genusNames records) (snd (countLoop records))
              (topGenera (biodiversityOf records)).
Proof.
  intros Hf Hg. unfold biodiversityOf. cbn [topFamilies topGenera].
  rewrite (countLoop_ordinary records Hf Hg). cbn [fst snd option_map].
  split; apply tally_claimed_top; assumption.
Qed.

(** Of four families, two occurring twice, the one met first leads. *)
Lemma topK_by_count_then_first_met_witness :
  claimed_top (familyNames sixOccurrences) (fst (countLoop sixOccurrences))
              (topFamilies (biodiversityOf sixOccurrences)) /\
  topFamilies (biodiversityOf sixOccurrences)
  = Some ["Clupeidae (2)"; "Scombridae (2)"; "Carangidae (1)"].
Proof.
  split; [ | reflexivity].
  apply (topK_by_count_then_first_met sixOccurrences).
  - repeat (constructor; [split; reflexivity | ]). constructor.
  - constructor.
Defined.

(** C5 (as stated) fails when names are array indices: "2" is met before
    "1" and both occur once, yet [Object.entries] lists "1" first and the
    stable sort keeps it there. *)
Lemma topK_numeral_families_out_of_order :
  topFamilies (biodiversityOf numeralFamilies) = Some ["1 (1)"; "2 (1)"] /\
  ~ claimed_top (familyNames numeralFamilies)
                (fst (countLoop numeralFamilies))
                (topFamilies (biodiversityOf numeralFamilies)).
Proof.
  split; [reflexivity | ].
  intros [obj [Hobj [_ [Htop _]]]].
  vm_compute in Hobj. injection Hobj as Hobj. subst obj.
  destruct Htop as (_ & _ & _ & Hsorted & _).
  vm_compute in Hsorted.
  inversion Hsorted as [ | ? ? _ Hfirst]; subst.
  inversion Hfirst as [ | ? ? Hrank _]; subst.
  discriminate Hrank.
Qed.

(** * Further properties of the code *)

(** ** [clamp] *)

Ltac number_cases :=
  repeat match goal with
         | H : negb (Qle_bool ?a ?b) = _ |- _ =>
             let E := fresh "E" in
             destruct (Qle_bool a b) eqn:E; simpl in H; try discriminate H
         | |- context [Qle_bool ?a ?b] =>
             let E := fresh "E" in destruct (Qle_bool a b) eqn:E; simpl
         end;
  repeat match goal with
         | H : Qle_bool _ _ = true |- _ => apply Qle_bool_iff in H
         | H : Qle_bool _ _ = false |- _ => apply Qle_bool_false in H
         end.

Lemma clamp_idempotent (x : number) (lo hi : Z) :
  lo <= hi ->
  clamp (clamp x (deg lo) (deg hi)) (deg lo) (deg hi)
  = clamp x (deg lo) (deg hi).
Proof.
  intros Hlohi.
  assert (Hq : (inject_Z lo <= inject_Z hi)%Q)
    by (rewrite <- Zle_Qle; exact Hlohi).
  unfold clamp, deg.
  destruct x as [ | | q | ]; simpl; number_cases;
    try reflexivity; try (exfalso; lra).
Qed.

Lemma clamp_monotone (x y : number) (lo hi : Z) :
  lo <= hi ->
  number_le x y ->
  number_le (clamp x (deg lo) (deg hi)) (clamp y (deg lo) (deg hi)).
Proof.
  intros Hlohi.
  assert (Hq : (inject_Z lo <= inject_Z hi)%Q)
    by (rewrite <- Zle_Qle; exact Hlohi).
  unfold number_le, clamp, deg.
  destruct x as [ | | p | ], y as [ | | q | ]; simpl; intros Hxy;
    try discriminate; number_cases;
    try reflexivity; try (exfalso; lra);
    try (apply Qle_bool_iff in Hxy; exfalso; lra).
Qed.

(** X1.  [clamp] with bounds [lo <= hi]: NaN stays NaN; any other value
    lands between the bounds, a value below [lo] on [lo] and one above [hi]
    on [hi], a value between them keeps its value; clamping twice is
    clamping once, and clamping preserves the order of two values. *)
Theorem clamp_bounds_and_order (lo hi : Z) :
  lo <= hi ->
  clamp NaN (deg lo) (deg hi) = NaN /\
  (forall x, Number_isNaN x = false ->
     within lo hi (clamp x (deg lo) (deg hi)) /\
     (within lo hi x -> same_number (clamp x (deg lo) (deg hi)) x) /\
     (num_lt x (deg lo) = true -> clamp x (deg lo) (deg hi) = deg lo) /\
     (num_gt x (deg hi) = true -> clamp x (deg lo) (deg hi) = deg hi)) /\
  (forall x, clamp (clamp x (deg lo) (deg hi)) (deg lo) (deg hi)
             = clamp x (deg lo) (deg hi)) /\
  (forall x y, number_le x y ->
     number_le (clamp x (deg lo) (deg hi)) (clamp y (deg lo) (deg hi))).
Proof.
  intros Hlohi.
  assert (Hq : (inject_Z lo <= inject_Z hi)%Q)
    by (rewrite <- Zle_Qle; exact Hlohi).
  split; [reflexivity | ]. split; [ | split].
  - intros x Hx.
    destruct (clamp_within x lo hi Hx Hlohi) as [H1 H2].
    split; [exact H1 | ]. split; [exact H2 | ].
    unfold clamp, deg, num_gt.
    destruct x as [ | | q | ]; try discriminate; simpl; split; intros H;
      try discriminate; number_cases; try reflexivity; try discriminate;
      try (exfalso; lra);
      try (assert (lo = hi)
             by (apply Z.le_antisymm; [assumption | rewrite Zle_Qle; lra]);
           subst; reflexivity).
  - intros x. apply clamp_idempotent. exact Hlohi.
  - intros x y. apply clamp_monotone. exact Hlohi.
Qed.

Lemma clamp_bounds_and_order_witness :
  within (-90) 90 (clamp (deg 200) (deg (-90)) (deg 90)) /\
  clamp (deg 200) (deg (-90)) (deg 90) = deg 90.
Proof.
  destruct (clamp_bounds_and_order (-90) 90 ltac:(lia)) as (_ & H & _ & _).
  destruct (H (deg 200) eq_refl) as (H1 & _ & _ & H4).
  split; [exact H1 | apply H4; reflexivity].
Defined.

(** ** The normaliser and its callers *)

Lemma looksFlipped_iff (lat lon : number) :
  Number_isNaN lat = false ->
  ((num_lt lat (deg (-90)) || num_gt lat (deg 90))
   && num_ge lon (deg (-180)) && num_le lon (deg 180))%bool = true
  <-> (~ within (-90) 90 lat /\ within (-180) 180 lon).
Proof.
  intros Hlat. unfold within, num_ge, deg.
  rewrite (num_lt_not_le _ _ Hlat), (num_gt_not_le _ _ Hlat).
  destruct (num_le (Finite (inject_Z (-90))) lat),
           (num_le lat (Finite (inject_Z 90))),
           (num_le (Finite (inject_Z (-180))) lon),
           (num_le lon (Finite (inject_Z 180))); simpl;
    intuition congruence.
Qed.

Lemma within_not_NaN (lo hi : Z) (x : number) :
  within lo hi x -> Number_isNaN x = false.
Proof. destruct x; simpl; intros [H _]; [discriminate | | | ]; reflexivity. Qed.

Lemma within_widen (x : number) :
  within (-90) 90 x -> within (-180) 180 x.
Proof.
  unfold within, deg. destruct x as [ | | q | ]; simpl; intros [H1 H2];
    try discriminate.
  apply Qle_bool_iff in H1, H2.
  assert (A : (inject_Z (-180) <= inject_Z (-90))%Q)
    by (rewrite <- Zle_Qle; lia).
  assert (B : (inject_Z 90 <= inject_Z 180)%Q) by (rewrite <- Zle_Qle; lia).
  split; apply Qle_bool_iff; lra.
Qed.

Lemma clamp_NaN_or_within (x : number) (lo hi : Z) :
  lo <= hi ->
  clamp x (deg lo) (deg hi) = NaN \/ within lo hi (clamp x (deg lo) (deg hi)).
Proof.
  intros H. destruct (Number_isNaN x) eqn:E.
  - left. destruct x; try discriminate. reflexivity.
  - right. apply clamp_within; assumption.
Qed.

(** A latitude that is NaN or in range is never taken as swapped. *)
Lemma not_flipped (lat lon : number) :
  lat = NaN \/ within (-90) 90 lat ->
  ((num_lt lat (deg (-90)) || num_gt lat (deg 90))
   && num_ge lon (deg (-180)) && num_le lon (deg 180))%bool = false.
Proof.
  intros [H | H].
  - subst. reflexivity.
  - destruct ((num_lt lat (deg (-90)) || num_gt lat (deg 90))
              && num_ge lon (deg (-180)) && num_le lon (deg 180))%bool eqn:E;
      [ | reflexivity].
    apply looksFlipped_iff in E; [tauto | ].
    apply (within_not_NaN _ _ _ H).
Qed.

(** X2.  Normalising is idempotent: the coordinate that
    [normalizeCoordsMaybeSwap] returns is returned unchanged when it is
    normalised again, for every pair of numbers (NaN included). *)
Theorem normalizeCoordsMaybeSwap_idempotent (lat lon : number) :
  let c := normalizeCoordsMaybeSwap lat lon in
  normalizeCoordsMaybeSwap (latitude c) (longitude c) = c.
Proof.
  intros c. subst c. unfold normalizeCoordsMaybeSwap at 2 3 4.
  destruct ((num_lt lat (deg (-90)) || num_gt lat (deg 90))
            && num_ge lon (deg (-180)) && num_le lon (deg 180))%bool;
    cbn [latitude longitude]; unfold normalizeCoordsMaybeSwap;
    rewrite not_flipped by (apply clamp_NaN_or_within; lia);
    rewrite !clamp_idempotent by lia; reflexivity.
Qed.

(** X3.  A pair entered the wrong way round is repaired when the longitude
    gives it away: with [lat] in [-90,90] and [lon] in [-180,180], the call
    [normalize(lon, lat)] returns latitude [lat] and longitude [lon] as soon
    as [lon] lies outside [-90,90].  When [lon] lies inside [-90,90] too the
    pair is kept as it was entered. *)
Theorem normalizeCoordsMaybeSwap_repairs_swap (lat lon : number) :
  within (-90) 90 lat ->
  within (-180) 180 lon ->
  let c := normalizeCoordsMaybeSwap lon lat in
  (~ within (-90) 90 lon ->
   same_number (latitude c) lat /\ same_number (longitude c) lon) /\
  (within (-90) 90 lon ->
   same_number (latitude c) lon /\ same_number (longitude c) lat).
Proof.
  intros Hlat Hlon c. subst c.
  pose proof (within_not_NaN _ _ _ Hlat) as Nlat.
  pose proof (within_not_NaN _ _ _ Hlon) as Nlon.
  pose proof (within_widen _ Hlat) as Hlat'.
  unfold normalizeCoordsMaybeSwap. split; intros H.
  - rewrite (proj2 (looksFlipped_iff lon lat Nlon) (conj H Hlat')).
    cbn [latitude longitude]. split.
    + apply (clamp_within lat (-90) 90 Nlat); [lia | assumption].
    + apply (clamp_within lon (-180) 180 Nlon); [lia | assumption].
  - rewrite not_flipped by (right; assumption).
    cbn [latitude longitude]. split.
    + apply (clamp_within lon (-90) 90 Nlon); [lia | assumption].
    + apply (clamp_within lat (-180) 180 Nlat); [lia | assumption].
Qed.

(** Latitude 12 and longitude 120 entered as (120, 12). *)
Lemma normalizeCoordsMaybeSwap_repairs_swap_witness :
  same_number (latitude (normalizeCoordsMaybeSwap (deg 120) (deg 12)))
              (deg 12) /\
  same_number (longitude (normalizeCoordsMaybeSwap (deg 120) (deg 12)))
              (deg 120).
Proof.
  apply (normalizeCoordsMaybeSwap_repairs_swap (deg 12) (deg 120)).
  - split; reflexivity.
  - split; reflexivity.
  - intros [_ H]. discriminate H.
Defined.

(** X4.  The two readers of coordinates, [getCoordsFromQuery] and
    [parseCoordsFromInputs], return [null] exactly when a value is NaN (or
    an input element is missing); every coordinate they return has its
    latitude in [-90,90] and its longitude in [-180,180], and both readers
    return the same coordinate for the same two values. *)
Theorem coordinate_readers_in_range (lat lon : number) :
  parseCoordsFromInputs (Some lon) (Some lat) = getCoordsFromQuery lat lon /\
  (forall other, parseCoordsFromInputs None other = None
                 /\ parseCoordsFromInputs other None = None) /\
  (getCoordsFromQuery lat lon = None <->
   Number_isNaN lat = true \/ Number_isNaN lon = true) /\
  (forall c, getCoordsFromQuery lat lon = Some c ->
     c = normalizeCoordsMaybeSwap lat lon /\
     within (-90) 90 (latitude c) /\ within (-180) 180 (longitude c)).
Proof.
  split; [ | split; [ | split]].
  - unfold parseCoordsFromInputs, getCoordsFromQuery.
    rewrite orb_comm. reflexivity.
  - intros other. split; [reflexivity | ]. destruct other; reflexivity.
  - apply getCoordsFromQuery_guards_NaN.
  - intros c H. unfold getCoordsFromQuery in H.
    destruct (Number_isNaN lat) eqn:E1; [discriminate | ].
    destruct (Number_isNaN lon) eqn:E2; [discriminate | ].
    simpl in H. injection H as H. subst c.
    unfold normalizeCoordsMaybeSwap.
    destruct ((num_lt lat (deg (-90)) || num_gt lat (deg 90))
              && num_ge lon (deg (-180)) && num_le lon (deg 180))%bool;
      cbn [latitude longitude]; (split; [reflexivity | ]);
      split; apply clamp_within; (assumption || lia).
Qed.

(** ** The GBIF normaliser, field by field *)

Lemma or_else_firstTruthy (a : option string) (rest : list (option string)) :
  or_else a (firstTruthy rest) = firstTruthy (a :: rest).
Proof. reflexivity. Qed.

Lemma firstTruthy_not_blank (xs : list (option string)) :
  firstTruthy xs <> Some "".
Proof.
  induction xs as [ | x xs IH]; simpl; [discriminate | ].
  destruct (truthy x) eqn:E; [ | exact IH].
  intros H. subst. discriminate E.
Qed.

Lemma firstTruthy_None (xs : list (option string)) :
  firstTruthy xs = None <-> Forall (fun x => truthy x = false) xs.
Proof.
  induction xs as [ | x xs IH]; simpl.
  - split; [constructor | reflexivity].
  - destruct (truthy x) eqn:E.
    + split.
      * intros H. subst. discriminate E.
      * intros H. inversion H; subst. congruence.
    + rewrite IH. split.
      * intros H. constructor; assumption.
      * intros H. inversion H; subst. assumption.
Qed.

Lemma or_else_assoc (a b c : option string) :
  or_else (or_else a b) c = or_else a (or_else b c).
Proof.
  unfold or_else. destruct (truthy a) eqn:Ea.
  - rewrite Ea. reflexivity.
  - reflexivity.
Qed.

Lemma or_elseQ_assoc (a b c : option Q) :
  or_elseQ (or_elseQ a b) c = or_elseQ a (or_elseQ b c).
Proof.
  unfold or_elseQ. destruct (truthyQ a) eqn:Ea.
  - rewrite Ea. reflexivity.
  - reflexivity.
Qed.

(** X5.  The scientific name of a normalised GBIF record is the first
    non-empty one among [scientificName], [species], [genericName] and
    [taxon.scientificName]; it is never the empty string, and it is absent
    exactly when all four are absent or empty.  The normalised record has
    no family, genus or class, so it never passes the fish filter applied to
    source A. *)
Theorem normalizeGbif_name (r : GbifRaw.t) :
  let candidates := [ GbifRaw.scientificName r; GbifRaw.species r;
                      GbifRaw.genericName r; GbifRaw.taxon_scientificName r ] in
  scientificName (normalizeGbif r) = firstTruthy candidates /\
  scientificName (normalizeGbif r) <> Some "" /\
  (scientificName (normalizeGbif r) = None <->
   Forall (fun x => truthy x = false) candidates) /\
  family (normalizeGbif r) = None /\
  genus (normalizeGbif r) = None /\
  class (normalizeGbif r) = None /\
  isFish (normalizeGbif r) = false.
Proof.
  intros candidates.
  assert (E : scientificName (normalizeGbif r) = firstTruthy candidates).
  { unfold normalizeGbif. cbn [scientificName].
    rewrite !or_else_assoc. subst candidates. simpl firstTruthy.
    unfold or_else. 
    destruct (truthy (GbifRaw.scientificName r)); [reflexivity | ].
    destruct (truthy (GbifRaw.species r)); [reflexivity | ].
    destruct (truthy (GbifRaw.genericName r)); [reflexivity | ].
    reflexivity. }
  split; [exact E | ]. rewrite E.
  split; [apply firstTruthy_not_blank | ].
  split; [apply firstTruthy_None | ].
  repeat split.
Qed.

Lemma firstTruthyQ_not_zero (xs : list (option Q)) (q : Q) :
  firstTruthyQ xs = Some q -> ~ Qeq q 0.
Proof.
  induction xs as [ | x xs IH]; simpl; [discriminate | ].
  destruct (truthyQ x) eqn:E; [ | exact IH].
  intros H. subst. simpl in E. intros Hq.
  apply Qeq_bool_iff in Hq. rewrite Hq in E. discriminate.
Qed.

Lemma truthyQ_false (x : option Q) :
  truthyQ x = false <->
  match x with Some q => Qeq q 0 | None => True end.
Proof.
  destruct x as [q | ]; simpl; [ | tauto].
  rewrite <- Qeq_bool_iff. destruct (Qeq_bool q 0); simpl; split; congruence.
Qed.

Lemma firstTruthyQ_None (xs : list (option Q)) :
  firstTruthyQ xs = None <->
  Forall (fun x => match x with Some q => Qeq q 0 | None => True end) xs.
Proof.
  induction xs as [ | x xs IH]; simpl.
  - split; [constructor | reflexivity].
  - destruct (truthyQ x) eqn:E.
    + split.
      * intros H. subst. discriminate E.
      * intros H. inversion H as [ | ? ? Hx _]; subst.
        apply truthyQ_false in Hx. congruence.
    + rewrite IH. apply truthyQ_false in E. split.
      * intros H. constructor; assumption.
      * intros H. inversion H; subst. assumption.
Qed.

(** X6.  The depth of a normalised GBIF record is the first non-zero one
    among [depth], [minimumDepthInMeters] and [decimalDepth].  It is never
    zero, and it is absent exactly when each of the three is absent or
    zero: a record taken at the surface comes out without a depth. *)
Theorem normalizeGbif_depth (r : GbifRaw.t) :
  let candidates := [ GbifRaw.depth r; GbifRaw.minimumDepthInMeters r;
                      GbifRaw.decimalDepth r ] in
  minimumDepthInMeters (normalizeGbif r) = firstTruthyQ candidates /\
  (forall q, minimumDepthInMeters (normalizeGbif r) = Some q -> ~ Qeq q 0) /\
  (minimumDepthInMeters (normalizeGbif r) = None <->
   Forall (fun x => match x with Some q => Qeq q 0 | None => True end)
          candidates).
Proof.
  intros candidates.
  assert (E : minimumDepthInMeters (normalizeGbif r) = firstTruthyQ candidates).
  { unfold normalizeGbif. cbn [minimumDepthInMeters].
    rewrite !or_elseQ_assoc. subst candidates. simpl firstTruthyQ.
    unfold or_elseQ.
    destruct (truthyQ (GbifRaw.depth r)); [reflexivity | ].
    destruct (truthyQ (GbifRaw.minimumDepthInMeters r)); [reflexivity | ].
    reflexivity. }
  split; [exact E | ]. rewrite E. split.
  - intros q. apply firstTruthyQ_not_zero.
  - apply firstTruthyQ_None.
Qed.

(** ** What each fetcher makes of its request *)

(** X7.  [fetchObisOccurrences] is fulfilled exactly when the request
    delivers a body, and then with that body; in every other case (network
    failure, non-success status, body that does not parse) it rejects. *)
Theorem fetchObisOccurrences_delivered
  (fetch : Promise (Response (OccurrenceJson OccurrenceRecord))) :
  (forall body, fetchObisOccurrences fetch = Fulfilled body <->
                delivered fetch = Some body) /\
  ((exists e, fetchObisOccurrences fetch = Rejected e) <->
   delivered fetch = None) /\
  (forall res e, fetch = Fulfilled res -> ok res = true ->
                 json res = Rejected e ->
                 fetchObisOccurrences fetch = Rejected e).
Proof.
  unfold fetchObisOccurrences, delivered.
  destruct fetch as [res | e]; simpl.
  - destruct (ok res) eqn:Eok; simpl.
    + destruct (json res) as [body | e] eqn:Ej; simpl.
      * split; [ | split].
        -- intros b. split; intros H; congruence.
        -- split; [intros [e H]; discriminate | discriminate].
        -- intros res' e H1 _ H2. injection H1 as <-. congruence.
      * split; [ | split].
        -- intros b. split; intros H; discriminate.
        -- split; [reflexivity | eauto].
        -- intros res' e' H1 _ H2. injection H1 as <-. congruence.
    + split; [ | split].
      * intros b. split; intros H; discriminate.
      * split; [reflexivity | eauto].
      * intros res' e' H1 H2. injection H1 as <-. congruence.
  - split; [ | split].
    + intros b. split; intros H; discriminate.
    + split; [reflexivity | eauto].
    + intros res' e' H1. discriminate.
Qed.

(** X8.  [fetchGbifFishOccurrences] never rejects.  When the request
    delivers a body whose [results] is an array, it is fulfilled with one
    normalised record per raw record of that array, in the same order;
    when the body has no [results] array, or nothing was delivered, it is
    fulfilled with the empty list.  No record it returns has a class. *)
Theorem fetchGbifFishOccurrences_delivered
  (fetch : Promise (Response (OccurrenceJson GbifRaw.t))) :
  (forall body raws,
     delivered fetch = Some body -> results body = Some raws ->
     fetchGbifFishOccurrences fetch = Fulfilled (map normalizeGbif raws)) /\
  (forall body,
     delivered fetch = Some body -> results body = None ->
     fetchGbifFishOccurrences fetch = Fulfilled []) /\
  (delivered fetch = None -> fetchGbifFishOccurrences fetch = Fulfilled []) /\
  fetchGbifFishOccurrences fetch
  = Fulfilled (map normalizeGbif (deliveredRecords fetch)) /\
  (forall l, fetchGbifFishOccurrences fetch = Fulfilled l ->
     List.length l = List.length (deliveredRecords fetch) /\
     Forall (fun r => class r = None) l).
Proof.
  pose proof (fetchGbifFishOccurrences_eq fetch) as E.
  split; [ | split; [ | split; [ | split]]].
  - intros body raws Hb Hr. rewrite E. unfold deliveredRecords.
    rewrite Hb, Hr. reflexivity.
  - intros body Hb Hr. rewrite E. unfold deliveredRecords.
    rewrite Hb, Hr. reflexivity.
  - intros H. rewrite E. unfold deliveredRecords. rewrite H. reflexivity.
  - exact E.
  - intros l H. rewrite E in H. injection H as <-.
    split; [apply length_map | ].
    apply Forall_forall. intros r Hr.
    apply in_map_iff in Hr. destruct Hr as [raw [<- _]]. reflexivity.
Qed.

(** X9.  [fetchBiodiversityFromApi] never rejects; it yields [null]
    exactly when nothing was delivered.  When the delivered body has a
    [results] array, it yields the summary of the records of that array.  A
    delivered body without a [results] array gives the summary of no
    record: index "0.00", no taxon, risk "Low", empty lists. *)
Theorem fetchBiodiversityFromApi_delivered
  (fetch : Promise (Response (OccurrenceJson OccurrenceRecord))) :
  (exists r, fetchBiodiversityFromApi fetch = Fulfilled r) /\
  (fetchBiodiversityFromApi fetch = Fulfilled None <->
   delivered fetch = None) /\
  (forall body records,
     delivered fetch = Some body -> results body = Some records ->
     fetchBiodiversityFromApi fetch
     = Fulfilled (Some (biodiversityOf records))) /\
  (forall body,
     delivered fetch = Some body -> results body = None ->
     fetchBiodiversityFromApi fetch
     = Fulfilled (Some {| eDnaDiversityIndex := "0.00";
                          potentialTaxaDetected := 0;
                          invasiveRisk := "Low";
                          markerGenes := ["COI"; "16S"; "18S"];
                          topTaxa := [];
                          totalOccurrences := 0;
                          topFamilies := Some [];
                          topGenera := Some [];
                          occurrences := [] |})).
Proof.
  pose proof (fetchBiodiversityFromApi_eq fetch) as E.
  split; [eexists; exact E | ]. rewrite E.
  split; [ | split].
  - destruct (delivered fetch); simpl; split; intros H;
      try reflexivity; discriminate.
  - intros body records Hb Hr. unfold deliveredRecords.
    rewrite Hb, Hr. reflexivity.
  - intros body Hb Hr. unfold deliveredRecords.
    rewrite Hb, Hr. reflexivity.
Qed.

(** X10.  [fetchFisheriesFromApi] never rejects.  Source A decides whether
    there is a summary: it is [null] exactly when the OBIS request delivers
    nothing, whatever GBIF answers.  Otherwise it is the summary of the
    records of the OBIS [results] array and of the normalised records of
    the GBIF [results] array, a missing array counting as empty.  A GBIF
    request that delivers nothing is absorbed: the summary is then built
    from the OBIS records alone, with a GBIF count of zero and a combined
    count equal to the OBIS count. *)
Theorem fetchFisheriesFromApi_delivered
  (fetchObis : Promise (Response (OccurrenceJson OccurrenceRecord)))
  (fetchGbif : Promise (Response (OccurrenceJson GbifRaw.t))) :
  (exists r, fetchFisheriesFromApi fetchObis fetchGbif = Fulfilled r) /\
  (fetchFisheriesFromApi fetchObis fetchGbif = Fulfilled None <->
   delivered fetchObis = None) /\
  (forall body records gbifBody raws,
     delivered fetchObis = Some body -> results body = Some records ->
     delivered fetchGbif = Some gbifBody -> results gbifBody = Some raws ->
     fetchFisheriesFromApi fetchObis fetchGbif
     = Fulfilled (Some (fisheriesOf records (map normalizeGbif raws)))) /\
  (forall body records,
     delivered fetchObis = Some body -> results body = Some records ->
     delivered fetchGbif = None ->
     fetchFisheriesFromApi fetchObis fetchGbif
     = Fulfilled (Some (fisheriesOf records []))) /\
  (forall body,
     delivered fetchObis = Some body ->
     fetchFisheriesFromApi fetchObis fetchGbif
     = Fulfilled
         (Some (fisheriesOf
                  (deliveredRecords fetchObis)
                  (map normalizeGbif (deliveredRecords fetchGbif))))) /\
  (forall s, delivered fetchGbif = None ->
     fetchFisheriesFromApi fetchObis fetchGbif = Fulfilled (Some s) ->
     s = fisheriesOf (deliveredRecords fetchObis) [] /\
     totalFishOccurrencesGbif s = 0 /\
     fishOccurrencesGbif s = [] /\
     totalFishOccurrencesCombined s = totalFishOccurrences s).
Proof.
  pose proof (fetchFisheriesFromApi_eq fetchObis fetchGbif) as E.
  split; [eexists; exact E | ]. rewrite E.
  split; [ | split; [ | split; [ | split]]].
  - destruct (delivered fetchObis); simpl; split; intros H;
      try reflexivity; discriminate.
  - intros body records gbifBody raws Hb Hr Hg Hgr. unfold deliveredRecords.
    rewrite Hb, Hr, Hg, Hgr. reflexivity.
  - intros body records Hb Hr Hg. unfold deliveredRecords.
    rewrite Hb, Hr, Hg. reflexivity.
  - intros body Hb. rewrite Hb. reflexivity.
  - intros s Hg H.
    assert (Eg : deliveredRecords fetchGbif = [])
      by (unfold deliveredRecords; rewrite Hg; reflexivity).
    rewrite Eg in H.
    destruct (delivered fetchObis) as [body | ]; simpl in H;
      [ | discriminate].
    injection H as <-. simpl map. split; [reflexivity | ].
    unfold fisheriesOf.
    cbn [totalFishOccurrencesGbif fishOccurrencesGbif
         totalFishOccurrencesCombined totalFishOccurrences].
    split; [reflexivity | ]. split; [reflexivity | ].
    unfold array_length at 2. simpl. lia.
Qed.

Lemma endsWithZ_append (t : string) : endsWithZ (t +++ "Z") = true.
Proof.
  induction t as [ | c t IH]; simpl; [reflexivity | ].
  destruct (t +++ "Z") eqn:E; [ | exact IH].
  destruct t; discriminate E.
Qed.

(** X11.  [fetchOceanographicFromApi] never rejects.  It yields [null]
    exactly when nothing was delivered or the delivered body is [null].
    Otherwise the summary has one time stamp per delivered time, each with
    a Z appended; every one of the ten series is present, passed through as
    delivered and empty when the body lacks it; a body without [hourly]
    gives an empty time axis and ten empty series. *)
Theorem fetchOceanographicFromApi_delivered
  (fetch : Promise (Response (option Marine.Json))) :
  (fetchOceanographicFromApi fetch = Fulfilled None <->
   delivered fetch = None \/ delivered fetch = Some None) /\
  (forall body, delivered fetch = Some (Some body) ->
     exists s,
       fetchOceanographicFromApi fetch = Fulfilled (Some s) /\
       time (hourly s) = map (fun t => t +++ "Z") (hourlyTimes body) /\
       List.length (time (hourly s)) = List.length (hourlyTimes body) /\
       Forall (fun t => endsWithZ t = true) (time (hourly s)) /\
       (forall m, series (hourly s) m = hourlySeries body m) /\
       (Marine.hourly body = None ->
        time (hourly s) = [] /\ forall m, series (hourly s) m = []) /\
       (forall m, units s m =
                  match Marine.hourly_units body with
                  | Some u => u m
                  | None => None
                  end)).
Proof.
  unfold fetchOceanographicFromApi, delivered.
  destruct fetch as [res | e]; simpl.
  - destruct (ok res); simpl.
    + destruct (json res) as [[body | ] | e]; simpl.
      * split.
        { split; [discriminate | intros [H | H]; discriminate]. }
        intros b H. injection H as <-.
        eexists. split; [reflexivity | ].
        cbn [hourly time series units].
        split; [reflexivity | ]. split; [apply length_map | ].
        split.
        { apply Forall_forall. intros t Ht. apply in_map_iff in Ht.
          destruct Ht as [t0 [<- _]]. apply endsWithZ_append. }
        split; [reflexivity | ]. split.
        { intros Hh. unfold hourlyTimes. rewrite Hh. 
          split; [reflexivity | reflexivity]. }
        intros m. destruct (Marine.hourly_units body); reflexivity.
      * split; [split; auto | intros b H; discriminate].
      * split; [split; auto | intros b H; discriminate].
    + split; [split; auto | intros b H; discriminate].
  - split; [split; auto | intros b H; discriminate].
Qed.

(** ** The page data depends on the delivered bodies only *)

Lemma fetchOceanographicFromApi_same_delivery
  (f f' : Promise (Response (option Marine.Json))) :
  delivered f = delivered f' ->
  fetchOceanographicFromApi f = fetchOceanographicFromApi f'.
Proof.
  unfold fetchOceanographicFromApi, delivered.
  destruct f as [res | e], f' as [res' | e']; simpl;
    try destruct (ok res); try destruct (ok res'); simpl;
    try destruct (json res) as [b | ?]; try destruct (json res') as [b' | ?];
    simpl; intros H; try discriminate H; try reflexivity.
  injection H as <-. reflexivity.
Qed.

(** X12.  [getLiveOrMockData] depends on the four requests through the
    bodies they deliver only: two renders whose requests deliver the same
    bodies get the same page data.  The reason of a failure, and the body of
    a response with an error status, never reach the page. *)
Theorem getLiveOrMockData_delivered_only (net net' : Network) :
  delivered (marineRequest net) = delivered (marineRequest net') ->
  delivered (fisheriesObisRequest net)
  = delivered (fisheriesObisRequest net') ->
  delivered (fisheriesGbifRequest net)
  = delivered (fisheriesGbifRequest net') ->
  delivered (biodiversityObisRequest net)
  = delivered (biodiversityObisRequest net') ->
  getLiveOrMockData net = getLiveOrMockData net'.
Proof.
  intros Hm Hfo Hfg Hb. unfold getLiveOrMockData.
  rewrite (fetchOceanographicFromApi_same_delivery _ _ Hm).
  rewrite !fetchFisheriesFromApi_eq, !fetchBiodiversityFromApi_eq.
  unfold deliveredRecords. rewrite Hfo, Hfg, Hb. reflexivity.
Qed.

(** The network down, against four answers with an error status. *)
Lemma getLiveOrMockData_delivered_only_witness :
  getLiveOrMockData networkDown = getLiveOrMockData servicesFailing.
Proof.
  apply getLiveOrMockData_delivered_only; reflexivity.
Defined.

(** ** Bounds kept by the two aggregators *)

Lemma Set_from_length_le (l : list string) :
  (List.length (Set_from l) <= List.length l)%nat.
Proof.
  apply NoDup_incl_length; [apply Set_from_NoDup | ].
  intros x Hx. apply Set_from_In. assumption.
Qed.

Lemma filter_Boolean_length_le (xs : list (option string)) :
  (List.length (filter_Boolean xs) <= List.length xs)%nat.
Proof.
  induction xs as [ | [s | ] xs IH]; simpl; [lia | | lia].
  destruct (negb (String.eqb s "")); simpl; lia.
Qed.

Lemma NoDup_firstn {A : Type} (n : nat) (l : list A) :
  NoDup l -> NoDup (firstn n l).
Proof.
  intros H. rewrite <- (firstn_skipn n l) in H.
  apply NoDup_app_remove_r in H. assumption.
Qed.

Lemma In_firstn {A : Type} (n : nat) (l : list A) (x : A) :
  In x (firstn n l) -> In x l.
Proof.
  intros H. rewrite <- (firstn_skipn n l). apply in_app_iff. left. assumption.
Qed.

Lemma topK_length (obj : JsObject) (k : nat) :
  (List.length (topK obj k) <= k)%nat.
Proof.
  unfold topK, topEntries. rewrite length_map, length_firstn. lia.
Qed.

(** X13.  The molecular summary keeps its lists within their bounds: the
    total is the number of records and the taxa detected never exceed it;
    [topTaxa] is the first five distinct names (all of them when there are
    at most five), without duplicate; [occurrences] is the first twenty
    records in their order; the top families and genera list at most three
    entries. *)
Theorem biodiversityOf_bounds (records : list OccurrenceRecord) :
  let s := biodiversityOf records in
  totalOccurrences s = array_length records /\
  0 <= potentialTaxaDetected s <= totalOccurrences s /\
  topTaxa s = firstn 5 (uniqueTaxa records) /\
  (List.length (topTaxa s) <= 5)%nat /\
  NoDup (topTaxa s) /\
  (potentialTaxaDetected s <= 5 -> topTaxa s = uniqueTaxa records) /\
  (exists rest, records = occurrences s ++ rest) /\
  List.length (occurrences s) = Nat.min 20 (List.length records) /\
  (forall l, topFamilies s = Some l -> (List.length l <= 3)%nat) /\
  (forall l, topGenera s = Some l -> (List.length l <= 3)%nat).
Proof.
  intros s. subst s. unfold biodiversityOf.
  cbn [totalOccurrences potentialTaxaDetected topTaxa occurrences
       topFamilies topGenera].
  split; [reflexivity | ].
  split.
  { unfold array_length, uniqueTaxa.
    pose proof (Set_from_length_le
                  (filter_Boolean (map scientificName records))) as H1.
    pose proof (filter_Boolean_length_le (map scientificName records)) as H2.
    rewrite length_map in H2. lia. }
  split; [reflexivity | ].
  split; [rewrite length_firstn; lia | ].
  split; [apply NoDup_firstn, Set_from_NoDup | ].
  split.
  { unfold array_length. intros H. apply firstn_all2. lia. }
  split; [exists (skipn 20 records); symmetry; apply firstn_skipn | ].
  split; [apply length_firstn | ].
  split; intros l H.
  - destruct (fst (countLoop records)); simpl in H; [ | discriminate].
    injection H as <-. apply topK_length.
  - destruct (snd (countLoop records)); simpl in H; [ | discriminate].
    injection H as <-. apply topK_length.
Qed.

Lemma or_text_not_blank (a : option string) : or_text a "Unknown" <> "".
Proof.
  destruct a as [s | ]; simpl; [ | discriminate].
  destruct (String.eqb_spec s ""); [discriminate | assumption].
Qed.

(** X14.  The fisheries summary is consistent with itself.  The OBIS count
    is the number of records of source A whose class is the bony fishes
    (whatever the case of the letters), the GBIF count the number of
    records of source B, the combined count their sum.  [fishOccurrences]
    is the first twenty of those fish records in their order, all of them
    when there are at most twenty, and [fishOccurrencesGbif] the first
    twenty records of source B.  The sample species are the first five
    combined names: at most five, distinct and not empty.  The dominant
    species is never the empty string, and it is the first sample species
    whenever there is one. *)
Theorem fisheriesOf_consistent (obisRecords gbifFish : list OccurrenceRecord) :
  let s := fisheriesOf obisRecords gbifFish in
  let fish := filter ofFishClass obisRecords in
  totalFishOccurrencesCombined s
  = totalFishOccurrences s + totalFishOccurrencesGbif s /\
  totalFishOccurrences s = Z.of_nat (List.length fish) /\
  0 <= totalFishOccurrences s <= array_length obisRecords /\
  totalFishOccurrencesGbif s = Z.of_nat (List.length gbifFish) /\
  fishOccurrences s = firstn 20 fish /\
  (exists rest, fish = fishOccurrences s ++ rest) /\
  List.length (fishOccurrences s) = Nat.min 20 (List.length fish) /\
  Forall (fun r => isFish r = true) (fishOccurrences s) /\
  Forall (fun r => exists c, class r = Some c /\
                             toLowerCase c = "actinopterygii")
         (fishOccurrences s) /\
  fishOccurrencesGbif s = firstn 20 gbifFish /\
  (exists rest, gbifFish = fishOccurrencesGbif s ++ rest) /\
  List.length (fishOccurrencesGbif s) = Nat.min 20 (List.length gbifFish) /\
  sampleSpecies s
  = firstn 5 (unionInOrder (suppliedNames fish) (suppliedNames gbifFish)) /\
  NoDup (sampleSpecies s) /\
  (List.length (sampleSpecies s) <= 5)%nat /\
  Forall (fun x => x <> "") (sampleSpecies s) /\
  dominantSpecies s <> "" /\
  (forall x rest, sampleSpecies s = x :: rest -> dominantSpecies s = x).
Proof.
  intros s fish. subst s. unfold fisheriesOf.
  cbn [totalFishOccurrencesCombined totalFishOccurrences
       totalFishOccurrencesGbif fishOccurrences fishOccurrencesGbif
       sampleSpecies dominantSpecies].
  pose proof (combinedSpeciesOf_not_empty obisRecords gbifFish) as Hne.
  assert (Efish : filter isFish obisRecords = fish)
    by (apply filter_ext; exact isFish_ofFishClass).
  rewrite Efish.
  split; [reflexivity | ].
  split; [reflexivity | ].
  split.
  { unfold array_length. subst fish.
    pose proof (filter_length_le ofFishClass obisRecords). lia. }
  split; [reflexivity | ].
  split; [reflexivity | ].
  split; [exists (skipn 20 fish); symmetry; apply firstn_skipn | ].
  split; [apply length_firstn | ].
  split.
  { apply Forall_forall. intros r Hr. apply In_firstn in Hr.
    rewrite <- Efish in Hr. apply filter_In in Hr. tauto. }
  split.
  { apply Forall_forall. intros r Hr. apply In_firstn in Hr.
    apply filter_In in Hr. destruct Hr as [_ Hr].
    unfold ofFishClass in Hr.
    destruct (class r) as [c | ]; [ | discriminate].
    exists c. split; [reflexivity | ]. apply String.eqb_eq. exact Hr. }
  split; [reflexivity | ].
  split; [exists (skipn 20 gbifFish); symmetry; apply firstn_skipn | ].
  split; [apply length_firstn | ].
  split; [rewrite combinedSpeciesOf_union; reflexivity | ].
  split; [apply NoDup_firstn, Set_from_NoDup | ].
  split; [rewrite length_firstn; lia | ].
  split.
  { apply Forall_forall. intros x Hx. apply In_firstn in Hx.
    rewrite Forall_forall in Hne. apply Hne. assumption. }
  split; [apply or_text_not_blank | ].
  intros x rest H.
  destruct (combinedSpeciesOf obisRecords gbifFish) as [ | y more] eqn:E;
    [discriminate | ].
  simpl in H. injection H as -> _.
  inversion Hne as [ | ? ? Hx _]; subst.
  apply String.eqb_neq in Hx.
  cbn [hd_error]. unfold or_else at 2. cbn [truthy]. rewrite Hx. cbn [negb].
  unfold or_else. cbn [truthy]. rewrite Hx. cbn [negb or_text].
  rewrite Hx. reflexivity.
Qed.

Lemma Math_round_monotone (x y : Q) :
  (x <= y)%Q -> Math_round x <= Math_round y.
Proof.
  intros H. unfold Math_round. apply Qfloor_resp_le. lra.
Qed.

(** X15.  The two fisheries indices grow with the combined count: a
    summary built from at least as many fish occurrences has a predicted
    catch index and a habitat suitability at least as large.  The habitat
    suitability always lies between 40 and 98. *)
Theorem fisheriesOf_monotone
  (obisRecords gbifFish obisRecords' gbifFish' : list OccurrenceRecord) :
  let s := fisheriesOf obisRecords gbifFish in
  let s' := fisheriesOf obisRecords' gbifFish' in
  totalFishOccurrencesCombined s <= totalFishOccurrencesCombined s' ->
  predictedCatchIndex s <= predictedCatchIndex s' /\
  habitatSuitability s <= habitatSuitability s' /\
  40 <= habitatSuitability s <= 98.
Proof.
  intros s s'. subst s s'. unfold fisheriesOf.
  cbn [totalFishOccurrencesCombined predictedCatchIndex habitatSuitability].
  set (n := array_length (filter isFish obisRecords) + array_length gbifFish).
  set (n' := array_length (filter isFish obisRecords')
             + array_length gbifFish').
  intros H.
  assert (Hn : 0 <= n).
  { pose proof (array_length_nonneg (filter isFish obisRecords)).
    pose proof (array_length_nonneg gbifFish). lia. }
  assert (Hr : Math_round (inject_Z n * (8 # 10))
               <= Math_round (inject_Z n' * (8 # 10))).
  { apply Math_round_monotone.
    assert (Hq : (inject_Z n <= inject_Z n')%Q)
      by (rewrite <- Zle_Qle; exact H).
    lra. }
  destruct (Math_round_four_fifths n) as [_ Hb].
  split; [lia | ]. split; lia.
Qed.

(** No fish occurrence against three. *)
Lemma fisheriesOf_monotone_witness :
  predictedCatchIndex (fisheriesOf [] [])
  <= predictedCatchIndex
       (fisheriesOf [] (map ofFamily ["Clupeidae"; "Scombridae"; "Clupeidae"])).
Proof.
  apply (fisheriesOf_monotone [] [] []
           (map ofFamily ["Clupeidae"; "Scombridae"; "Clupeidae"])).
  vm_compute. discriminate.
Defined.

(** ** The counters, array indices included *)

Lemma count_steps_None (keys : list (option string)) :
  fold_left count_step keys None = None.
Proof.
  induction keys as [ | [k | ] keys IH]; simpl; [reflexivity | | exact IH].
  destruct (negb (String.eqb k "")); exact IH.
Qed.

Lemma count_steps_Some (keys : list (option string)) (o obj : JsObject) :
  fold_left count_step keys (Some o) = Some obj ->
  obj = fold_left (fun o k => own_set o k (or_zero (own_get o k) + 1))
                  (filter_Boolean keys) o.
Proof.
  revert o. induction keys as [ | [k | ] keys IH]; intros o H; simpl in *.
  - congruence.
  - destruct (negb (String.eqb k "")); simpl; [ | apply IH; assumption].
    unfold bump in H. destruct (inherited k).
    + rewrite count_steps_None in H. discriminate.
    + apply IH. assumption.
  - apply IH. assumption.
Qed.

Lemma countLoop_tally (records : list OccurrenceRecord) :
  (forall obj, fst (countLoop records) = Some obj ->
               obj = tally (familyNames records)) /\
  (forall obj, snd (countLoop records) = Some obj ->
               obj = tally (genusNames records)).
Proof.
  rewrite countLoop_split. cbn [fst snd].
  split; intros obj H; apply count_steps_Some in H; exact H.
Qed.

Lemma count_steps_own (keys : list (option string)) (o : JsObject) :
  Forall (fun k => inherited k = false) (filter_Boolean keys) ->
  fold_left count_step keys (Some o) =
  Some (fold_left (fun o k => own_set o k (or_zero (own_get o k) + 1))
                  (filter_Boolean keys) o).
Proof.
  revert o. induction keys as [ | [k | ] keys IH]; intros o H; simpl in *.
  - reflexivity.
  - destruct (negb (String.eqb k "")); simpl; [ | apply IH; assumption].
    inversion H as [ | ? ? Hk H']; subst.
    unfold bump. rewrite Hk. apply IH. assumption.
  - apply IH. assumption.
Qed.

(** Without inherited names, each counter is the tally of its names. *)
Lemma countLoop_own (records : list OccurrenceRecord) :
  (Forall (fun k => inherited k = false) (familyNames records) ->
   fst (countLoop records) = Some (tally (familyNames records))) /\
  (Forall (fun k => inherited k = false) (genusNames records) ->
   snd (countLoop records) = Some (tally (genusNames records))).
Proof.
  rewrite countLoop_split. cbn [fst snd].
  split; intros H; apply count_steps_own; exact H.
Qed.

Lemma own_get_None (o : JsObject) (k : string) :
  ~ In k (map fst o) -> own_get o k = None.
Proof.
  induction o as [ | [k' v] o IH]; simpl; intros H; [reflexivity | ].
  destruct (String.eqb_spec k' k) as [E | E]; [tauto | ].
  apply IH. tauto.
Qed.

Lemma own_get_Some (o : JsObject) (k : string) :
  In k (map fst o) -> exists v, own_get o k = Some v.
Proof.
  induction o as [ | [k' v] o IH]; simpl; intros H; [contradiction | ].
  destruct (String.eqb_spec k' k) as [E | E]; [eauto | ].
  apply IH. destruct H; [contradiction | assumption].
Qed.

Lemma sumCounts_own_set (o : JsObject) (k : string) (v : Z) :
  sumCounts (own_set o k v) = sumCounts o - or_zero (own_get o k) + v.
Proof.
  induction o as [ | [k' v'] o IH]; simpl.
  - lia.
  - destruct (String.eqb k' k); simpl; [lia | ].
    rewrite IH. lia.
Qed.

Lemma tally_sum (names : list string) :
  sumCounts (tally names) = Z.of_nat (List.length names).
Proof.
  induction names as [ | x names IH] using rev_ind.
  - reflexivity.
  - rewrite tally_snoc, sumCounts_own_set, IH, length_app. simpl. lia.
Qed.

Lemma occurrencesOf_zero (names : list string) (k : string) :
  occurrencesOf names k = 0%nat <-> ~ In k names.
Proof.
  unfold occurrencesOf. symmetry. apply count_occ_not_In.
Qed.

Lemma tally_counts_exactly (names : list string) :
  counts_exactly names (tally names).
Proof.
  unfold counts_exactly.
  split; [rewrite tally_keys; apply Set_from_NoDup | ].
  split; [intros k; rewrite tally_keys; apply Set_from_In | ].
  split; [ | apply tally_sum].
  intros k. destruct (Nat.eqb_spec (occurrencesOf names k) 0) as [E | E].
  - apply own_get_None. rewrite tally_keys, Set_from_In.
    apply occurrencesOf_zero. assumption.
  - assert (Hin : In k (map fst (tally names))).
    { rewrite tally_keys, Set_from_In.
      destruct (in_dec string_dec k names) as [H | H]; [assumption | ].
      apply occurrencesOf_zero in H. contradiction. }
    destruct (own_get_Some _ _ Hin) as [v Hv].
    pose proof (tally_get names k) as Hg. rewrite Hv in Hg. simpl in Hg.
    rewrite Hv, Hg. reflexivity.
Qed.

(** X16.  After the counting loop each counter holds exactly what the
    records show: one key per distinct non-empty family (genus), whose
    value is the number of records of that family; no entry for a family
    that does not occur; and the values add up to the number of records
    that have a family.  This holds for every list of records the loop can
    count, array-index names included; and the loop can count the families
    (the genera) whenever no family (genus) name is the name of a property
    inherited from [Object.prototype]. *)
Theorem countLoop_counts_exactly (records : list OccurrenceRecord) :
  (forall familyCounts, fst (countLoop records) = Some familyCounts ->
     counts_exactly (familyNames records) familyCounts) /\
  (forall genusCounts, snd (countLoop records) = Some genusCounts ->
     counts_exactly (genusNames records) genusCounts) /\
  (Forall (fun k => inherited k = false) (familyNames records) ->
   exists familyCounts, fst (countLoop records) = Some familyCounts) /\
  (Forall (fun k => inherited k = false) (genusNames records) ->
   exists genusCounts, snd (countLoop records) = Some genusCounts).
Proof.
  destruct (countLoop_tally records) as [Hf Hg].
  destruct (countLoop_own records) as [Hf' Hg'].
  split; [ | split; [ | split]].
  - intros obj H. rewrite (Hf obj H). apply tally_counts_exactly.
  - intros obj H. rewrite (Hg obj H). apply tally_counts_exactly.
  - intros H. eexists. exact (Hf' H).
  - intros H. eexists. exact (Hg' H).
Qed.

(** ** The most frequent names, array indices included *)

Section SortByKey.

Variable A : Type.
Variable key : A -> Z.

Lemma sort_insert_descending (x : A) (l : list A) :
  StronglySorted (fun a b => key b <= key a) l ->
  StronglySorted (fun a b => key b <= key a)
                 (sort_insert (fun a b => key b - key a) x l).
Proof.
  intros Hs. induction Hs as [ | z l Hs IH Hz]; simpl.
  - constructor; constructor.
  - destruct (Z.ltb_spec 0 (key z - key x)) as [Hlt | Hge].
    + constructor; [exact IH | ].
      apply Forall_forall. intros y Hy.
      apply sort_insert_In in Hy. destruct Hy as [Hy | Hy].
      * subst. lia.
      * rewrite Forall_forall in Hz. apply Hz. assumption.
    + constructor; [constructor; assumption | ].
      constructor; [lia | ].
      apply Forall_forall. intros y Hy.
      rewrite Forall_forall in Hz. specialize (Hz y Hy). lia.
Qed.

Lemma Array_sort_descending (l : list A) :
  StronglySorted (fun a b => key b <= key a)
                 (Array_sort (fun a b => key b - key a) l).
Proof.
  induction l as [ | x l IH]; simpl; [constructor | ].
  apply sort_insert_descending. exact IH.
Qed.

End SortByKey.

Lemma insert_index_perm (x : N * (string * Z)) (l : list (N * (string * Z))) :
  Permutation (insert_index x l) (x :: l).
Proof.
  induction l as [ | y l IH]; simpl; [reflexivity | ].
  destruct (fst x <=? fst y)%N; [reflexivity | ].
  rewrite IH. apply perm_swap.
Qed.

Lemma index_entries_filter (o : JsObject) :
  map snd (index_entries o) = filter (fun e => is_array_index (fst e)) o.
Proof.
  unfold index_entries, is_array_index.
  induction o as [ | e o IH]; simpl; [reflexivity | ].
  destruct (array_index (fst e)); simpl; rewrite IH; reflexivity.
Qed.

Lemma filter_split_perm {A : Type} (p : A -> bool) (l : list A) :
  Permutation (filter p l ++ filter (fun x => negb (p x)) l) l.
Proof.
  induction l as [ | x l IH]; simpl; [reflexivity | ].
  destruct (p x); simpl.
  - constructor. exact IH.
  - rewrite <- Permutation_middle. constructor. exact IH.
Qed.

(** [Object.entries] lists every own property once. *)
Lemma Object_entries_perm (o : JsObject) :
  Permutation (Object_entries o) o.
Proof.
  unfold Object_entries.
  assert (H : Permutation (fold_right insert_index [] (index_entries o))
                          (index_entries o)).
  { induction (index_entries o) as [ | x l IH]; simpl; [reflexivity | ].
    rewrite insert_index_perm. constructor. exact IH. }
  rewrite (Permutation_map snd H), index_entries_filter.
  apply filter_split_perm.
Qed.

Lemma tally_top_by_count (names : list string) :
  top_by_count names (map fst (topEntries (tally names) 3)) 3 /\
  topK (tally names) 3 =
    map (fun x => x +++ " ("
                  +++ Number_toString (Z.of_nat (occurrencesOf names x))
                  +++ ")")
        (map fst (topEntries (tally names) 3)).
Proof.
  set (obj := tally names).
  set (S := Array_sort (fun a b : string * Z => snd b - snd a)
                       (Object_entries obj)).
  assert (Htop : topEntries obj 3 = firstn 3 S) by reflexivity.
  assert (HpermS : Permutation S obj).
  { unfold S. rewrite (Array_sort_perm (string * Z) snd).
    apply Object_entries_perm. }
  assert (Hcount : forall e, In e S ->
                   snd e = Z.of_nat (occurrencesOf names (fst e))).
  { intros e He. apply tally_entries.
    apply (Permutation_in _ HpermS). assumption. }
  assert (Hperm : Permutation (map fst S) (Set_from names)).
  { rewrite <- (tally_keys names). apply Permutation_map. exact HpermS. }
  assert (Hsorted : StronglySorted
                      (fun a b => (occurrencesOf names (fst b)
                                   <= occurrencesOf names (fst a))%nat) S).
  { apply StronglySorted_weaken
      with (R := fun a b : string * Z => snd b <= snd a).
    - intros a b Ha Hb Hab.
      rewrite (Hcount a Ha), (Hcount b Hb) in Hab. lia.
    - apply (Array_sort_descending (string * Z) snd). }
  assert (Hsplit : S = firstn 3 S ++ skipn 3 S)
    by (symmetry; apply firstn_skipn).
  rewrite Hsplit in Hsorted.
  apply StronglySorted_app_inv in Hsorted. destruct Hsorted as [Hs1 Hs2].
  rewrite Htop. split.
  - unfold top_by_count. split; [ | split; [ | split; [ | split]]].
    + assert (Hnd : NoDup (map fst S)).
      { apply (Permutation_NoDup (Permutation_sym Hperm)).
        apply Set_from_NoDup. }
      rewrite Hsplit, map_app in Hnd.
      apply NoDup_app_remove_r in Hnd. assumption.
    + intros x Hx. apply in_map_iff in Hx. destruct Hx as [e [E He]].
      subst x. apply Set_from_In.
      apply (Permutation_in _ Hperm). apply in_map.
      rewrite Hsplit. apply in_app_iff. left. assumption.
    + rewrite length_map, length_firstn, <- Set_from_length.
      rewrite <- (Permutation_length Hperm), length_map. reflexivity.
    + apply StronglySorted_map. assumption.
    + intros a b Ha Hb Hnot.
      apply in_map_iff in Ha. destruct Ha as [ea [E Hea]]. subst a.
      apply Set_from_In in Hb.
      apply (Permutation_in _ (Permutation_sym Hperm)) in Hb.
      apply in_map_iff in Hb. destruct Hb as [eb [E Heb]]. subst b.
      rewrite Hsplit in Heb. apply in_app_iff in Heb.
      destruct Heb as [Heb | Heb].
      * exfalso. apply Hnot. apply in_map. assumption.
      * apply Hs2; assumption.
  - unfold topK. rewrite Htop, map_map. apply map_ext_in.
    intros e He. unfold formatEntry. rewrite (Hcount e); [reflexivity | ].
    rewrite Hsplit. apply in_app_iff. left. assumption.
Qed.

(** X17.  When no family name and no genus name is the name of a property
    inherited from [Object.prototype], whatever else the names are, array
    indices included, the top families and the top genera exist and are
    the three most frequent names (all of them when there are fewer),
    without duplicate, in an order in which the number of occurrences never
    increases, each followed by its number of occurrences in brackets; no
    name left out occurs more often than a name listed.  Only the order
    among names that occur equally often depends on the names. *)
Theorem topK_most_frequent (records : list OccurrenceRecord) :
  Forall (fun k => inherited k = false) (familyNames records) ->
  Forall (fun k => inherited k = false) (genusNames records) ->
  (exists out picks,
     topFamilies (biodiversityOf records) = Some out /\
     top_by_count (familyNames records) picks 3 /\
     out = map (fun x =>
                  x +++ " ("
                  +++ Number_toString
                        (Z.of_nat (occurrencesOf (familyNames records) x))
                  +++ ")") picks) /\
  (exists out picks,
     topGenera (biodiversityOf records) = Some out /\
     top_by_count (genusNames records) picks 3 /\
     out = map (fun x =>
                  x +++ " ("
                  +++ Number_toString
                        (Z.of_nat (occurrencesOf (genusNames records) x))
                  +++ ")") picks).
Proof.
  intros Hfam Hgen.
  destruct (countLoop_own records) as [Hf Hg].
  unfold biodiversityOf. cbn [topFamilies topGenera].
  rewrite (Hf Hfam), (Hg Hgen). cbn [option_map].
  split.
  - destruct (tally_top_by_count (familyNames records)) as [H1 H2].
    eexists _, _. split; [reflexivity | ]. split; [exact H1 | exact H2].
  - destruct (tally_top_by_count (genusNames records)) as [H1 H2].
    eexists _, _. split; [reflexivity | ]. split; [exact H1 | exact H2].
Qed.

(** Two families named by the numerals "2" and "1": the entries come out
    in the order of the indices, both with one occurrence. *)
Lemma topK_most_frequent_witness :
  exists picks,
    topFamilies (biodiversityOf numeralFamilies) = Some ["1 (1)"; "2 (1)"] /\
    top_by_count (familyNames numeralFamilies) picks 3.
Proof.
  destruct (topK_most_frequent numeralFamilies) as [[out [picks H]] _].
  - repeat constructor.
  - constructor.
  - exists picks. split; [reflexivity | ]. exact (proj1 (proj2 H)).
Defined.

(** ** Decimal text *)

Lemma str_length_append (a b : string) :
  String.length (a +++ b) = (String.length a + String.length b)%nat.
Proof. induction a as [ | c a IH]; simpl; [reflexivity | rewrite IH; reflexivity]. Qed.

Lemma str_take_drop (n : nat) (s : string) :
  str_take n s +++ str_drop n s = s.
Proof.
  revert s. induction n as [ | n IH]; intros s; simpl.
  - destruct s; reflexivity.
  - destruct s as [ | c s]; simpl; [reflexivity | rewrite IH; reflexivity].
Qed.

Lemma str_drop_length (n : nat) (s : string) :
  String.length (str_drop n s) = (String.length s - n)%nat.
Proof.
  revert s. induction n as [ | n IH]; intros s; simpl.
  - destruct s; simpl; lia.
  - destruct s as [ | c s]; simpl; [reflexivity | apply IH].
Qed.

Lemma zeros_length (k : nat) : String.length (zeros k) = k.
Proof. induction k as [ | k IH]; simpl; [reflexivity | rewrite IH; reflexivity]. Qed.

Lemma allDigits_append (a b : string) :
  allDigits (a +++ b) = (allDigits a && allDigits b)%bool.
Proof.
  induction a as [ | c a IH]; simpl; [reflexivity | ].
  destruct (digit_of c); [exact IH | reflexivity].
Qed.

Lemma allDigits_zeros (k : nat) : allDigits (zeros k) = true.
Proof. induction k as [ | k IH]; simpl; [reflexivity | exact IH]. Qed.

Lemma digit_of_bound (c : ascii) (d : N) :
  digit_of c = Some d -> (d <= 9)%N.
Proof.
  unfold digit_of.
  destruct (N.leb_spec 48 (N_of_ascii c)); simpl; [ | discriminate].
  destruct (N.leb_spec (N_of_ascii c) 57); simpl; [ | discriminate].
  intros Heq. injection Heq as <-. lia.
Qed.

(** A string of digits read from an accumulator: the accumulator shifted
    by the length of the string, plus the value of the string. *)
Lemma parse_digits_value (s : string) :
  allDigits s = true ->
  exists v, (v < 10 ^ N.of_nat (String.length s))%N /\
            forall acc,
              parse_digits s acc
              = Some (acc * 10 ^ N.of_nat (String.length s) + v)%N.
Proof.
  induction s as [ | c s IH]; cbn [allDigits parse_digits String.length];
    intros H.
  - exists 0%N. split; [reflexivity | ]. intros acc. f_equal.
    change (N.of_nat 0) with 0%N. rewrite N.pow_0_r. lia.
  - destruct (digit_of c) as [d | ] eqn:Ed; [ | discriminate].
    destruct (IH H) as [v [Hv Hp]].
    pose proof (digit_of_bound c d Ed) as Hd.
    exists (d * 10 ^ N.of_nat (String.length s) + v)%N.
    assert (Hpow : (10 ^ N.of_nat (S (String.length s))
                    = 10 * 10 ^ N.of_nat (String.length s))%N).
    { replace (N.of_nat (S (String.length s)))
        with (N.succ (N.of_nat (String.length s))) by lia.
      apply N.pow_succ_r'. }
    split.
    + rewrite Hpow. nia.
    + intros acc. rewrite Hp, Hpow. f_equal. lia.
Qed.

Lemma parse_digits_append (a b : string) (acc : N) :
  parse_digits (a +++ b) acc =
  match parse_digits a acc with
  | Some v => parse_digits b v
  | None => None
  end.
Proof.
  revert acc. induction a as [ | c a IH]; intros acc; simpl; [reflexivity | ].
  destruct (digit_of c); [apply IH | reflexivity].
Qed.

Lemma parse_digits_zeros (k : nat) : parse_digits (zeros k) 0 = Some 0%N.
Proof. induction k as [ | k IH]; [reflexivity | exact IH]. Qed.

Lemma str_take_length (n : nat) (s : string) :
  String.length (str_take n s) = Nat.min n (String.length s).
Proof.
  revert s. induction n as [ | n IH]; intros s; simpl; [reflexivity | ].
  destruct s as [ | c s]; simpl; [reflexivity | rewrite IH; reflexivity].
Qed.

(** The digits of [n], padded to more than [f] characters and cut before
    the last [f]: the two parts read back as quotient and remainder of [n]
    by [10^f]. *)
Lemma fixed_point_parts (n : Z) (f : nat) :
  0 <= n -> f <> 0%nat ->
  let m0 := Number_toString n in
  let m := if Nat.leb (String.length m0) f
           then zeros (f + 1 - String.length m0) +++ m0 else m0 in
  let a := str_take (String.length m - f) m in
  let b := str_drop (String.length m - f) m in
  String.length b = f /\ a <> "" /\
  allDigits a = true /\ allDigits b = true /\
  exists A B,
    parse_digits a 0 = Some A /\ parse_digits b 0 = Some B /\
    (B < 10 ^ N.of_nat f)%N /\ (A * 10 ^ N.of_nat f + B = Z.to_N n)%N.
Proof.
  intros Hn Hf m0 m a b.
  assert (Hd0 : allDigits m0 = true) by (apply allDigits_Number_toString; lia).
  assert (Hp0 : parse_digits m0 0 = Some (Z.to_N n))
    by (apply parse_digits_Number_toString; lia).
  assert (Hm : allDigits m = true /\ parse_digits m 0 = Some (Z.to_N n)
               /\ (f + 1 <= String.length m)%nat).
  { subst m. destruct (Nat.leb_spec (String.length m0) f) as [Hle | Hgt].
    - rewrite allDigits_append, allDigits_zeros, Hd0.
      rewrite parse_digits_append, parse_digits_zeros, Hp0.
      rewrite str_length_append, zeros_length.
      repeat split. lia.
    - repeat split; [assumption | assumption | lia]. }
  destruct Hm as (Hd & Hp & Hk).
  assert (Hab : a +++ b = m) by apply str_take_drop.
  assert (Hlb : String.length b = f).
  { subst b. rewrite str_drop_length. lia. }
  assert (Hla : (1 <= String.length a)%nat).
  { subst a. rewrite str_take_length. lia. }
  rewrite <- Hab, allDigits_append in Hd.
  apply andb_true_iff in Hd. destruct Hd as [Hda Hdb].
  split; [exact Hlb | ].
  split; [intros E; rewrite E in Hla; simpl in Hla; lia | ].
  split; [exact Hda | ]. split; [exact Hdb | ].
  destruct (parse_digits_value a Hda) as [A [_ HA]].
  destruct (parse_digits_value b Hdb) as [B [HB HB']].
  exists A, B. rewrite Hlb in HB, HB'.
  split; [rewrite HA; f_equal; lia | ].
  split; [rewrite HB'; f_equal; lia | ].
  split; [exact HB | ].
  rewrite <- Hab, parse_digits_append, HA, HB' in Hp.
  injection Hp as Hp. lia.
Qed.

Lemma Math_round_bounds (y : Q) :
  (inject_Z (Math_round y) - (1 # 2) <= y)%Q /\
  (y < inject_Z (Math_round y) + (1 # 2))%Q.
Proof.
  unfold Math_round.
  pose proof (Qfloor_le (y + (1 # 2))) as H1.
  pose proof (Qlt_floor (y + (1 # 2))) as H2.
  rewrite inject_Z_plus in H2.
  change (inject_Z 1) with 1%Q in H2. split; lra.
Qed.

Lemma encodeURIComponent_digits (s : string) :
  allDigits s = true -> encodeURIComponent s = s.
Proof.
  induction s as [ | c s IH]; simpl; intros H; [reflexivity | ].
  destruct (digit_of c) as [d | ] eqn:Ed; [ | discriminate].
  assert (Hc : isUnreserved c = true).
  { unfold digit_of in Ed. unfold isUnreserved.
    destruct (N.leb_spec 48 (N_of_ascii c)) as [H1 | H1];
      simpl in Ed; [ | discriminate].
    destruct (N.leb_spec (N_of_ascii c) 57) as [H2 | H2];
      simpl in Ed; [ | discriminate].
    assert (E1 : Nat.leb 48 (nat_of_ascii c) = true)
      by (apply Nat.leb_le; unfold nat_of_ascii; lia).
    assert (E2 : Nat.leb (nat_of_ascii c) 57 = true)
      by (apply Nat.leb_le; unfold nat_of_ascii; lia).
    rewrite E1, E2. simpl. rewrite !orb_true_r. reflexivity. }
  rewrite Hc, (IH H). reflexivity.
Qed.

Lemma encodeURIComponent_append (a b : string) :
  encodeURIComponent (a +++ b)
  = encodeURIComponent a +++ encodeURIComponent b.
Proof.
  induction a as [ | c a IH]; simpl; [reflexivity | ].
  destruct (isUnreserved c); simpl; rewrite IH; reflexivity.
Qed.

(** ** Coordinates in links *)

Lemma Number_toFixed_finite (f : nat) (q : Q) :
  f <> 0%nat ->
  let x := if negb (Qle_bool 0 q) then Qopp q else q in
  (x < inject_Z (10 ^ 21))%Q ->
  let m0 := Number_toString (Math_round (x * inject_Z (10 ^ Z.of_nat f))) in
  let m := if Nat.leb (String.length m0) f
           then zeros (f + 1 - String.length m0) +++ m0 else m0 in
  Number_toFixed f (Finite q)
  = Some ((if negb (Qle_bool 0 q) then "-" else "")
          +++ str_take (String.length m - f) m +++ "."
          +++ str_drop (String.length m - f) m).
Proof.
  intros Hf x Hx m0 m. unfold Number_toFixed. fold x.
  assert (E : Qle_bool (inject_Z (10 ^ 21)) x = false).
  { destruct (Qle_bool (inject_Z (10 ^ 21)) x) eqn:E; [ | reflexivity].
    apply Qle_bool_iff in E. lra. }
  rewrite E.
  destruct (Nat.eqb_spec f 0) as [E0 | _]; [contradiction | ].
  reflexivity.
Qed.

Lemma formatCoord_parts (q : Q) :
  (inject_Z (-180) <= q)%Q -> (q <= inject_Z 180)%Q ->
  exists intPart fracPart A B,
    formatCoord (Finite q)
    = Some ((if Qle_bool 0 q then "" else "-")
            +++ intPart +++ "." +++ fracPart) /\
    intPart <> "" /\
    allDigits intPart = true /\ allDigits fracPart = true /\
    String.length fracPart = 6%nat /\
    parse_digits intPart 0 = Some A /\ parse_digits fracPart 0 = Some B /\
    (A <= 180)%N /\ (B < 1000000)%N /\
    let magnitude := if Qle_bool 0 q then q else Qopp q in
    let millionths := inject_Z (Z.of_N (A * 1000000 + B)) in
    (millionths - (1 # 2) <= magnitude * inject_Z 1000000)%Q /\
    (magnitude * inject_Z 1000000 < millionths + (1 # 2))%Q.
Proof.
  intros Hlo Hhi.
  set (x := if negb (Qle_bool 0 q) then Qopp q else q).
  assert (Hx : (0 <= x)%Q /\ (x <= inject_Z 180)%Q).
  { subst x. unfold inject_Z in *.
    destruct (Qle_bool 0 q) eqn:E; simpl.
    - apply Qle_bool_iff in E. split; lra.
    - apply Qle_bool_false in E. split; lra. }
  destruct Hx as [Hx0 Hx1].
  assert (Hbig : (x < inject_Z (10 ^ 21))%Q).
  { apply Qle_lt_trans with (y := inject_Z 180); [exact Hx1 | ].
    rewrite <- Zlt_Qlt. reflexivity. }
  set (n := Math_round (x * inject_Z (10 ^ Z.of_nat 6))).
  destruct (Math_round_bounds (x * inject_Z (10 ^ Z.of_nat 6))) as [Hr1 Hr2].
  fold n in Hr1, Hr2.
  change (10 ^ Z.of_nat 6) with 1000000 in *.
  assert (Hn : 0 <= n <= 180000000).
  { split.
    - assert (H : (inject_Z (-1) < inject_Z n)%Q).
      { unfold inject_Z at 1. unfold inject_Z in Hx1, Hr2 at 1. lra. }
      rewrite <- Zlt_Qlt in H. lia.
    - assert (H : (inject_Z n < inject_Z 180000001)%Q).
      { unfold inject_Z at 2. unfold inject_Z in Hx1 at 1.
        unfold inject_Z in Hr1 at 2. lra. }
      rewrite <- Zlt_Qlt in H. lia. }
  destruct (fixed_point_parts n 6 (proj1 Hn) ltac:(discriminate))
    as (Hlb & Hane & Hda & Hdb & A & B & HA & HB & HBlt & HAB).
  pose proof (Number_toFixed_finite 6 q ltac:(discriminate) Hbig) as Hfix.
  cbv zeta in Hfix. change (10 ^ Z.of_nat 6) with 1000000 in Hfix.
  fold x in Hfix. fold n in Hfix.
  change (N.of_nat 6) with 6%N in *.
  change (10 ^ 6)%N with 1000000%N in *.
  eexists _, _, A, B.
  split.
  { unfold formatCoord. rewrite Hfix.
    destruct (Qle_bool 0 q); reflexivity. }
  split; [exact Hane | ]. split; [exact Hda | ]. split; [exact Hdb | ].
  split; [exact Hlb | ]. split; [exact HA | ]. split; [exact HB | ].
  split; [lia | ]. split; [exact HBlt | ].
  cbv zeta. rewrite HAB, Z2N.id by lia.
  replace (if Qle_bool 0 q then q else Qopp q) with x
    by (subst x; destruct (Qle_bool 0 q); reflexivity).
  split; assumption.
Qed.

(** X18.  For a value between -180 and 180, [formatCoord] writes a sign
    (a minus for a negative value), an integer part of at least one digit
    and at most 180, a point and exactly six decimals.  The number written
    is the value rounded to the nearest millionth: written out in
    millionths it differs from the magnitude of the value by at most one
    half. *)
Theorem formatCoord_six_decimals (q : Q) :
  (inject_Z (-180) <= q)%Q -> (q <= inject_Z 180)%Q ->
  exists intPart fracPart A B,
    formatCoord (Finite q)
    = Some ((if Qle_bool 0 q then "" else "-")
            +++ intPart +++ "." +++ fracPart) /\
    intPart <> "" /\
    allDigits intPart = true /\ allDigits fracPart = true /\
    String.length fracPart = 6%nat /\
    parse_digits intPart 0 = Some A /\ parse_digits fracPart 0 = Some B /\
    (A <= 180)%N /\ (B < 1000000)%N /\
    let magnitude := if Qle_bool 0 q then q else Qopp q in
    let millionths := inject_Z (Z.of_N (A * 1000000 + B)) in
    (millionths - (1 # 2) <= magnitude * inject_Z 1000000)%Q /\
    (magnitude * inject_Z 1000000 < millionths + (1 # 2))%Q.
Proof. exact (formatCoord_parts q). Qed.

(** Longitude -77.25. *)
Lemma formatCoord_six_decimals_witness :
  exists intPart fracPart,
    formatCoord (Finite (-7725 # 100))
    = Some ("-" +++ intPart +++ "." +++ fracPart) /\
    String.length fracPart = 6%nat.
Proof.
  destruct (formatCoord_six_decimals (-7725 # 100))
    as (i & f & A & B & H & _ & _ & _ & Hl & _).
  - vm_compute. discriminate.
  - vm_compute. discriminate.
  - exists i, f. split; [exact H | exact Hl].
Defined.

Lemma within_finite (lo hi : Z) (x : number) :
  within lo hi x ->
  exists q, x = Finite q /\ (inject_Z lo <= q)%Q /\ (q <= inject_Z hi)%Q.
Proof.
  unfold within, deg. destruct x as [ | | q | ]; simpl; intros [H1 H2];
    try discriminate.
  exists q. apply Qle_bool_iff in H1, H2. repeat split; assumption.
Qed.

(** The text of a coordinate in range needs no escaping. *)
Lemma formatCoord_unescaped (x : number) :
  within (-180) 180 x ->
  exists text, formatCoord x = Some text /\ encodeURIComponent text = text.
Proof.
  intros H. destruct (within_finite _ _ _ H) as [q [-> [Hlo Hhi]]].
  destruct (formatCoord_parts q Hlo Hhi)
    as (i & f & A & B & E & _ & Hi & Hf & _).
  eexists. split; [exact E | ].
  rewrite !encodeURIComponent_append.
  rewrite (encodeURIComponent_digits i Hi), (encodeURIComponent_digits f Hf).
  destruct (Qle_bool 0 q); reflexivity.
Qed.

(** X19.  For a coordinate in range the query is [?lat=] and [&lon=]
    followed by the two six-decimal texts as [formatCoord] wrote them:
    escaping changes nothing.  [setNavLinksWithCoords] gives each link the
    page has its own page name followed by that one query, and leaves a
    link the page does not have missing. *)
Theorem coordsQuery_of_coordinate (c : Coordinate) (links : NavLinks) :
  within (-90) 90 (latitude c) ->
  within (-180) 180 (longitude c) ->
  exists lat lon,
    formatCoord (latitude c) = Some lat /\
    formatCoord (longitude c) = Some lon /\
    coordsQuery (latitude c) (longitude c)
    = Some ("?lat=" +++ lat +++ "&lon=" +++ lon) /\
    setNavLinksWithCoords links (latitude c) (longitude c)
    = Some {| oceanographicLink :=
                option_map (fun _ => "oceanographic.html"
                                     +++ "?lat=" +++ lat +++ "&lon=" +++ lon)
                           (oceanographicLink links);
              fisheriesLink :=
                option_map (fun _ => "fisheries.html"
                                     +++ "?lat=" +++ lat +++ "&lon=" +++ lon)
                           (fisheriesLink links);
              molecularLink :=
                option_map (fun _ => "molecular-biodiversity.html"
                                     +++ "?lat=" +++ lat +++ "&lon=" +++ lon)
                           (molecularLink links) |}.
Proof.
  intros Hlat Hlon.
  destruct (formatCoord_unescaped _ (within_widen _ Hlat))
    as [lat [Elat Ulat]].
  destruct (formatCoord_unescaped _ Hlon) as [lon [Elon Ulon]].
  exists lat, lon.
  assert (Eq : coordsQuery (latitude c) (longitude c)
               = Some ("?lat=" +++ lat +++ "&lon=" +++ lon)).
  { unfold coordsQuery. rewrite Elat, Elon, Ulat, Ulon. reflexivity. }
  split; [exact Elat | ]. split; [exact Elon | ]. split; [exact Eq | ].
  unfold setNavLinksWithCoords. rewrite Eq. reflexivity.
Qed.

(** The coordinate (12, -77.25) on a page that has two of the links. *)
Lemma coordsQuery_of_coordinate_witness :
  exists lat lon,
    coordsQuery (deg 12) (Finite (-7725 # 100))
    = Some ("?lat=" +++ lat +++ "&lon=" +++ lon).
Proof.
  destruct (coordsQuery_of_coordinate
              {| latitude := deg 12; longitude := Finite (-7725 # 100) |}
              {| oceanographicLink := Some "oceanographic.html";
                 fisheriesLink := None;
                 molecularLink := Some "molecular-biodiversity.html" |})
    as (lat & lon & _ & _ & H & _).
  - split; reflexivity.
  - split; reflexivity.
  - exists lat, lon. exact H.
Defined.

(** ** What the tables show *)

Lemma append_not_empty_r (a b : string) : b <> "" -> a +++ b <> "".
Proof. destruct a; simpl; [tauto | discriminate]. Qed.

Lemma spaced_not_dash (a b : string) : a +++ " " +++ b <> "-".
Proof.
  destruct a as [ | c a]; simpl; [discriminate | ].
  destruct a; simpl; discriminate.
Qed.

Lemma display_text (s : string) : s <> "" -> display (JsString s) "" = s.
Proof.
  intros H. destruct s as [ | c s]; [contradiction | ].
  unfold display. cbn [ToString]. apply append_empty_r.
Qed.

Lemma display_number (n : Z) : display (JsNumber n) "" = Number_toString n.
Proof. unfold display. cbn [ToString]. apply append_empty_r. Qed.

Lemma join_not_empty (sep : string) (l : list string) :
  l <> [] -> Forall (fun x => x <> "") l -> join sep l <> "".
Proof.
  destruct l as [ | x l]; [contradiction | ].
  intros _ H. inversion H as [ | ? ? Hx _]; subst.
  destruct l as [ | y l]; simpl; [assumption | ].
  destruct x; [contradiction | discriminate].
Qed.

Lemma display_joined (l : list string) :
  Forall (fun x => x <> "") l ->
  display (JsString (join ", " l)) ""
  = match l with [] => "-" | _ => join ", " l end.
Proof.
  intros H. destruct l as [ | x l]; [reflexivity | ].
  apply display_text. apply join_not_empty; [discriminate | assumption].
Qed.

Lemma nth_error_indexed {A B : Type} (f : nat * A -> B) (l : list A)
  (start i : nat) (x : A) :
  nth_error l i = Some x ->
  nth_error (map f (combine (seq start (List.length l)) l)) i
  = Some (f ((start + i)%nat, x)).
Proof.
  revert start i. induction l as [ | y l IH]; intros start i H.
  - destruct i; discriminate.
  - destruct i as [ | i]; simpl in *.
    + injection H as ->. rewrite Nat.add_0_r. reflexivity.
    + rewrite (IH (S start) i H). do 3 f_equal. lia.
Qed.

(** X20.  The hourly table has one row per time stamp, whatever the
    lengths of the ten series, and every row has eleven cells.  Row [i]
    reads every series at index [i]: the cell of a series is the
    placeholder exactly when the series has no value there (it is shorter,
    or holds [null]), and otherwise the number followed by a space and the
    unit.  A summary without time stamp gives the single placeholder
    row. *)
Theorem hourlyRows_follow_time_axis (Number_text : Q -> string)
  (s : OceanSummary) :
  List.length (hourlyRows Number_text s) = List.length (time (hourly s)) /\
  Forall (fun row => List.length row = 11%nat) (hourlyRows Number_text s) /\
  (forall i t, nth_error (time (hourly s)) i = Some t ->
     nth_error (hourlyRows Number_text s) i
     = Some (hourlyRow Number_text s i t)) /\
  (forall i t j m, nth_error metricColumns j = Some m ->
     let v := nth_error (series (hourly s) m) i in
     exists cell,
       nth_error (hourlyRow Number_text s i t) (S j) = Some cell /\
       (cell = "-" <-> v = None \/ v = Some None) /\
       (forall q, v = Some (Some q) ->
          cell = Number_text q +++ " " +++ unitText (units s) m)) /\
  (renderOceanographic Number_text (Summary s) = [["-"]] <->
   time (hourly s) = []).
Proof.
  split; [ | split; [ | split; [ | split]]].
  - unfold hourlyRows. rewrite length_map, length_combine, length_seq. lia.
  - unfold hourlyRows. apply Forall_forall. intros row Hrow.
    apply in_map_iff in Hrow. destruct Hrow as [[i t] [<- _]]. reflexivity.
  - intros i t H. unfold hourlyRows.
    rewrite (nth_error_indexed _ _ 0 i t H). reflexivity.
  - intros i t j m Hm v.
    unfold hourlyRow. cbn [nth_error].
    rewrite nth_error_map, Hm. cbn [option_map]. fold v.
    eexists. split; [reflexivity | ].
    destruct v as [[q | ] | ]; cbn [displayNumber isPresent].
    + split.
      * split; [ | intros [H | H]; discriminate].
        intros H. exfalso. exact (spaced_not_dash _ _ H).
      * intros q' H. injection H as <-. reflexivity.
    + split; [split; auto | intros q H; discriminate].
    + split; [split; auto | intros q H; discriminate].
  - cbn [renderOceanographic]. unfold hourlyRows.
    destruct (time (hourly s)) as [ | t ts]; simpl.
    + split; reflexivity.
    + split; intros H; discriminate.
Qed.

(** X21.  The fisheries table of a computed summary shows every metric:
    the three counts and the two indices as numbers (a count of zero as
    "0"), the habitat suitability always followed by the percent sign, the
    dominant species and the advisory as they are; the sample species are
    joined with a comma and a space, and are the placeholder when no
    species was found.  The table of the empty object shows the placeholder
    in all eight rows. *)
Theorem fisheriesCells_of_summary
  (obisRecords gbifFish : list OccurrenceRecord) :
  let s := fisheriesOf obisRecords gbifFish in
  fisheriesCells (Summary s) =
    [ ("Predicted Catch Index", Number_toString (predictedCatchIndex s));
      ("Dominant Species", dominantSpecies s);
      ("Habitat Suitability",
       Number_toString (habitatSuitability s) +++ "%");
      ("Advisory", advisories s);
      ("Total Fish Occurrences (OBIS)",
       Number_toString (totalFishOccurrences s));
      ("Total Fish Occurrences (GBIF)",
       Number_toString (totalFishOccurrencesGbif s));
      ("Total Fish Occurrences (Combined)",
       Number_toString (totalFishOccurrencesCombined s));
      ("Sample Species",
       match sampleSpecies s with
       | [] => "-"
       | _ => join ", " (sampleSpecies s)
       end) ] /\
  map snd (fisheriesCells EmptyObject) = repeat "-" 8.
Proof.
  intros s. split; [ | reflexivity].
  unfold fisheriesCells. cbn [field].
  rewrite !display_number.
  assert (Hdom : display (JsString (dominantSpecies s)) ""
                 = dominantSpecies s).
  { apply display_text. subst s. unfold fisheriesOf. cbn [dominantSpecies].
    apply or_text_not_blank. }
  assert (Hadv : display (JsString (advisories s)) "" = advisories s).
  { apply display_text. subst s. unfold fisheriesOf. cbn [advisories].
    destruct (Z.ltb 10 _); discriminate. }
  assert (Hhab : truthyValue (JsNumber (habitatSuitability s)) = true).
  { subst s. unfold fisheriesOf. cbn [habitatSuitability truthyValue].
    set (n := array_length (filter isFish obisRecords)
              + array_length gbifFish).
    assert (Hn : 0 <= n).
    { pose proof (array_length_nonneg (filter isFish obisRecords)).
      pose proof (array_length_nonneg gbifFish). lia. }
    destruct (Math_round_four_fifths n) as [_ Hb].
    apply negb_true_iff. apply Z.eqb_neq. lia. }
  assert (Hsam : display (JsString (join ", " (sampleSpecies s))) ""
                 = match sampleSpecies s with
                   | [] => "-"
                   | _ => join ", " (sampleSpecies s)
                   end).
  { apply display_joined. subst s. unfold fisheriesOf. cbn [sampleSpecies].
    apply Forall_forall. intros x Hx. apply In_firstn in Hx.
    pose proof (combinedSpeciesOf_not_empty obisRecords gbifFish) as Hne.
    rewrite Forall_forall in Hne. apply Hne. assumption. }
  rewrite Hdom, Hadv, Hhab, Hsam.
  unfold display at 1. cbn [ToString]. reflexivity.
Qed.

Lemma formatEntry_not_empty (e : string * Z) : formatEntry e <> "".
Proof.
  unfold formatEntry. apply append_not_empty_r. discriminate.
Qed.

Lemma topK_not_empty (obj : JsObject) (k : nat) :
  Forall (fun x => x <> "") (topK obj k).
Proof.
  unfold topK. apply Forall_forall. intros x Hx.
  apply in_map_iff in Hx. destruct Hx as [e [<- _]].
  apply formatEntry_not_empty.
Qed.

Lemma toFixed2_not_empty (x : Q) : toFixed2 x <> "".
Proof.
  unfold toFixed2. apply append_not_empty_r. discriminate.
Qed.

(** X22.  The molecular table of a computed summary shows the diversity
    index, the number of taxa and the total as they are (zero as "0"), the
    risk, the three marker genes joined with a comma and a space, and the
    top families and genera joined the same way, the placeholder standing
    for a list that is empty.  The table of the empty object shows the
    placeholder in all seven rows. *)
Theorem molecularCells_of_summary (records : list OccurrenceRecord)
  (families genera : list string) :
  let s := biodiversityOf records in
  topFamilies s = Some families ->
  topGenera s = Some genera ->
  molecularCells (Summary s) =
    Some [ ("eDNA Diversity Index", eDnaDiversityIndex s);
           ("Potential Taxa Detected",
            Number_toString (potentialTaxaDetected s));
           ("Invasive Risk", invasiveRisk s);
           ("Marker Genes", "COI, 16S, 18S");
           ("Total Occurrences (OBIS)",
            Number_toString (totalOccurrences s));
           ("Top Families",
            match families with [] => "-" | _ => join ", " families end);
           ("Top Genera",
            match genera with [] => "-" | _ => join ", " genera end) ] /\
  option_map (map snd) (molecularCells EmptyObject) = Some (repeat "-" 7).
Proof.
  intros s Hf Hg. split; [ | reflexivity].
  unfold molecularCells. rewrite Hf, Hg. cbn [field].
  rewrite !display_number.
  assert (Hidx : display (JsString (eDnaDiversityIndex s)) ""
                 = eDnaDiversityIndex s).
  { apply display_text. subst s. unfold biodiversityOf.
    cbn [eDnaDiversityIndex].
    destruct (Z.ltb 0 _); [apply toFixed2_not_empty | discriminate]. }
  assert (Hrisk : display (JsString (invasiveRisk s)) "" = invasiveRisk s).
  { apply display_text. subst s. unfold biodiversityOf. cbn [invasiveRisk].
    destruct (Z.ltb 50 _); discriminate. }
  assert (Hfam : Forall (fun x => x <> "") families).
  { subst s. unfold biodiversityOf in Hf. cbn [topFamilies] in Hf.
    destruct (fst (countLoop records)); [ | discriminate].
    simpl in Hf. injection Hf as <-. apply topK_not_empty. }
  assert (Hgen : Forall (fun x => x <> "") genera).
  { subst s. unfold biodiversityOf in Hg. cbn [topGenera] in Hg.
    destruct (snd (countLoop records)); [ | discriminate].
    simpl in Hg. injection Hg as <-. apply topK_not_empty. }
  rewrite Hidx, Hrisk, (display_joined _ Hfam), (display_joined _ Hgen).
  reflexivity.
Qed.

(** Six occurrences of four families, none with a genus. *)
Lemma molecularCells_of_summary_witness :
  option_map (map snd) (molecularCells (Summary (biodiversityOf sixOccurrences)))
  = Some [ "0.00"; "0"; "Low"; "COI, 16S, 18S"; "6";
           "Clupeidae (2), Scombridae (2), Carangidae (1)"; "-" ].
Proof.
  destruct (molecularCells_of_summary sixOccurrences
              ["Clupeidae (2)"; "Scombridae (2)"; "Carangidae (1)"] []
              eq_refl eq_refl) as [H _].
  rewrite H. reflexivity.
Defined.

(** X23.  An occurrence table has one row of three cells per record, in
    the order of the records, and the single placeholder row when there is
    no record.  The name cell and the date cell show the text of the record
    when it is present and not empty, and the placeholder otherwise: such a
    cell reads "-" exactly when the text is absent, empty or "-" itself.
    The depth cell shows the placeholder for an absent depth and the text
    of the number for a present one, zero included.  A depth of zero is
    therefore shown for a record of source A, while a normalised record of
    source B, whose zero depth was dropped, shows the placeholder. *)
Theorem occurrenceTable_rows (Number_text : Q -> string)
  (rs : list OccurrenceRecord) :
  (rs = [] -> occurrenceTable Number_text rs = [["-"]]) /\
  (rs <> [] ->
   occurrenceTable Number_text rs = map (occurrenceRow Number_text) rs /\
   List.length (occurrenceTable Number_text rs) = List.length rs) /\
  (forall r, exists name date depth,
     occurrenceRow Number_text r = [name; date; depth] /\
     (name = "-" <-> truthy (scientificName r) = false
                     \/ scientificName r = Some "-") /\
     (truthy (scientificName r) = true -> scientificName r = Some name) /\
     (date = "-" <-> truthy (eventDate r) = false
                     \/ eventDate r = Some "-") /\
     (truthy (eventDate r) = true -> eventDate r = Some date) /\
     (minimumDepthInMeters r = None -> depth = "-") /\
     (forall q, minimumDepthInMeters r = Some q -> depth = Number_text q)) /\
  (forall raw,
     Forall (fun x => match x with Some q => Qeq q 0 | None => True end)
            [ GbifRaw.depth raw; GbifRaw.minimumDepthInMeters raw;
              GbifRaw.decimalDepth raw ] ->
     nth_error (occurrenceRow Number_text (normalizeGbif raw)) 2
     = Some "-").
Proof.
  split; [intros ->; reflexivity | ].
  split.
  { intros H. destruct rs as [ | r rs]; [contradiction | ].
    unfold occurrenceTable. cbn [map tableBody].
    split; [reflexivity | ]. cbn [List.length]. rewrite length_map.
    reflexivity. }
  split.
  - intros r. unfold occurrenceRow.
    eexists _, _, _. split; [reflexivity | ].
    split; [ | split; [ | split; [ | split; [ | split]]]].
    + destruct (scientificName r) as [s | ]; cbn [optString truthy].
      * destruct s as [ | c s].
        -- split; auto.
        -- rewrite (display_text (String c s)) by discriminate.
           change (negb (String.eqb (String c s) "")) with true.
           split; [intros H; right; rewrite H; reflexivity | ].
           intros [H | H]; [discriminate | congruence].
      * split; auto.
    + destruct (scientificName r) as [s | ]; cbn [optString truthy];
        [ | discriminate].
      destruct (String.eqb_spec s ""); cbn [negb]; [discriminate | ].
      intros _. rewrite display_text by assumption. reflexivity.
    + destruct (eventDate r) as [s | ]; cbn [optString truthy].
      * destruct s as [ | c s].
        -- split; auto.
        -- rewrite (display_text (String c s)) by discriminate.
           change (negb (String.eqb (String c s) "")) with true.
           split; [intros H; right; rewrite H; reflexivity | ].
           intros [H | H]; [discriminate | congruence].
      * split; auto.
    + destruct (eventDate r) as [s | ]; cbn [optString truthy];
        [ | discriminate].
      destruct (String.eqb_spec s ""); cbn [negb]; [discriminate | ].
      intros _. rewrite display_text by assumption. reflexivity.
    + intros ->. reflexivity.
    + intros q ->. cbn [option_map displayNumber]. apply append_empty_r.
  - intros raw H. unfold occurrenceRow. cbn [nth_error].
    assert (E : minimumDepthInMeters (normalizeGbif raw) = None).
    { unfold normalizeGbif. cbn [minimumDepthInMeters].
      rewrite !or_elseQ_assoc.
      change (or_elseQ (GbifRaw.depth raw)
                (or_elseQ (GbifRaw.minimumDepthInMeters raw)
                   (or_elseQ (GbifRaw.decimalDepth raw) None)))
        with (firstTruthyQ [ GbifRaw.depth raw;
                             GbifRaw.minimumDepthInMeters raw;
                             GbifRaw.decimalDepth raw ]).
      apply firstTruthyQ_None. exact H. }
    rewrite E. reflexivity.
Qed.

(** ** The page controller *)

Lemma getCoordsFromQuery_within (lat lon : number) (c : Coordinate) :
  getCoordsFromQuery lat lon = Some c ->
  within (-90) 90 (latitude c) /\ within (-180) 180 (longitude c).
Proof.
  intros H. unfold getCoordsFromQuery in H.
  destruct (Number_isNaN lat) eqn:E1; [discriminate | ].
  destruct (Number_isNaN lon) eqn:E2; [discriminate | ].
  simpl in H. injection H as H. subst c.
  unfold normalizeCoordsMaybeSwap.
  destruct ((num_lt lat (deg (-90)) || num_gt lat (deg 90))
            && num_ge lon (deg (-180)) && num_le lon (deg 180))%bool;
    cbn [latitude longitude];
    split; apply clamp_within; (assumption || lia).
Qed.






Lemma parseCoordsFromInputs_within (lonInput latInput : option number)
  (c : Coordinate) :
  parseCoordsFromInputs lonInput latInput = Some c ->
  within (-90) 90 (latitude c) /\ within (-180) 180 (longitude c).
Proof.
  destruct lonInput as [lon | ], latInput as [lat | ]; simpl;
    try discriminate.
  intros H. apply (getCoordsFromQuery_within lat lon).
  unfold getCoordsFromQuery. rewrite orb_comm. exact H.
Qed.

Lemma coordsQuery_unescaped (c : Coordinate) :
  within (-90) 90 (latitude c) ->
  within (-180) 180 (longitude c) ->
  exists lat lon,
    formatCoord (latitude c) = Some lat /\
    formatCoord (longitude c) = Some lon /\
    coordsQuery (latitude c) (longitude c)
    = Some ("?lat=" +++ lat +++ "&lon=" +++ lon).
Proof.
  intros Hlat Hlon.
  destruct (formatCoord_unescaped _ (within_widen _ Hlat))
    as [lat [Elat Ulat]].
  destruct (formatCoord_unescaped _ Hlon) as [lon [Elon Ulon]].
  exists lat, lon. split; [exact Elat | ]. split; [exact Elon | ].
  unfold coordsQuery. rewrite Elat, Elon, Ulat, Ulon. reflexivity.
Qed.

(** X25.  A click on Explore either alerts or navigates, never both.  It
    alerts, and does nothing else, exactly when an input is missing or does
    not read as a number.  Otherwise it stores the normalised coordinate,
    which is in range, and navigates to the oceanographic page with that
    coordinate written with six decimals in the query. *)
Theorem exploreClick_effects (lonInput latInput : option number) :
  exists effects,
    exploreClick lonInput latInput = Some effects /\
    ((parseCoordsFromInputs lonInput latInput = None /\
      effects = [Alert "Please enter valid Longitude and Latitude."])
     \/
     (exists c lat lon,
        parseCoordsFromInputs lonInput latInput = Some c /\
        within (-90) 90 (latitude c) /\
        within (-180) 180 (longitude c) /\
        formatCoord (latitude c) = Some lat /\
        formatCoord (longitude c) = Some lon /\
        effects = [ StorageSetItem c;
                    Navigate ("oceanographic.html"
                              +++ "?lat=" +++ lat +++ "&lon=" +++ lon) ])).
Proof.
  unfold exploreClick.
  destruct (parseCoordsFromInputs lonInput latInput) as [c | ] eqn:E.
  - destruct (parseCoordsFromInputs_within _ _ _ E) as [W1 W2].
    destruct (coordsQuery_unescaped c W1 W2) as (lat & lon & E1 & E2 & Eq).
    rewrite Eq. eexists. split; [reflexivity | ].
    right. exists c, lat, lon.
    split; [reflexivity | ]. split; [exact W1 | ]. split; [exact W2 | ].
    split; [exact E1 | ]. split; [exact E2 | ].
    destruct c as [cla clo]. reflexivity.
  - eexists. split; [reflexivity | ]. left. split; reflexivity.
Qed.

(** ** The families chart reads the entries back *)

Lemma spanDigits_digits (d t : string) :
  allDigits d = true ->
  match t with
  | EmptyString => True
  | String c _ => digit_of c = None
  end ->
  spanDigits (d +++ t) = (d, t).
Proof.
  intros Hd Ht. induction d as [ | c d IH]; simpl in *.
  - destruct t as [ | c t]; [reflexivity | ]. simpl. rewrite Ht. reflexivity.
  - destruct (digit_of c); [ | discriminate].
    rewrite (IH Hd). reflexivity.
Qed.

Lemma beforeBracket_entry (name digits : string) :
  noBracket name = true ->
  beforeBracket (name +++ " (" +++ digits +++ ")") = name.
Proof.
  induction name as [ | c name IH]; intros H.
  - reflexivity.
  - cbn [noBracket] in H. apply andb_true_iff in H. destruct H as [Hc Hn].
    cbn [String.append beforeBracket].
    destruct name as [ | d name].
    + cbn [String.append]. 
      change (Ascii.eqb " " "(") with false. rewrite andb_false_r.
      rewrite <- (IH Hn) at 2. reflexivity.
    + cbn [String.append].
      assert (Hd : Ascii.eqb d "(" = false).
      { cbn [noBracket] in Hn. apply andb_true_iff in Hn.
        destruct Hn as [Hd _]. apply negb_true_iff in Hd. exact Hd. }
      rewrite Hd, andb_false_r.
      f_equal. apply (IH Hn).
Qed.

Lemma bracketedDigits_entry (name digits : string) :
  noBracket name = true ->
  allDigits digits = true -> digits <> "" ->
  bracketedDigits (name +++ " (" +++ digits +++ ")") = Some digits.
Proof.
  intros Hn Hd Hne. induction name as [ | c name IH].
  - cbn [String.append bracketedDigits].
    change (Ascii.eqb " " "(") with false. cbv iota.
    cbn [bracketedDigits]. change (Ascii.eqb "(" "(") with true. cbv iota.
    rewrite (spanDigits_digits digits ")" Hd) by reflexivity.
    destruct digits as [ | d ds]; [contradiction | reflexivity].
  - cbn [noBracket] in Hn. apply andb_true_iff in Hn. destruct Hn as [Hc Hn].
    apply negb_true_iff in Hc.
    cbn [String.append bracketedDigits]. rewrite Hc. apply IH. exact Hn.
Qed.

Lemma Number_toString_not_empty (n : Z) : 0 <= n -> Number_toString n <> "".
Proof.
  intros Hn.
  destruct (Number_toString_nonneg n Hn) as [[_ E] | [d [Hd [E _]]]];
    rewrite E; [discriminate | ].
  destruct d; simpl; try discriminate. contradiction.
Qed.

Lemma entry_read_back (e : string * Z) :
  noBracket (fst e) = true -> 0 <= snd e ->
  beforeBracket (formatEntry e) = fst e /\ chartValue (formatEntry e) = snd e.
Proof.
  intros Hn Hc. unfold formatEntry. split.
  - apply beforeBracket_entry. exact Hn.
  - unfold chartValue.
    rewrite (bracketedDigits_entry _ _ Hn
               (allDigits_Number_toString _ Hc)
               (Number_toString_not_empty _ Hc)).
    rewrite (parse_digits_Number_toString _ Hc). apply Z2N.id. exact Hc.
Qed.

(** X26.  The families chart recovers what the top families hold.  When
    no family name is the name of a property inherited from
    [Object.prototype] and none has an opening bracket, the top families
    exist, the labels of the chart are the names listed in them, in the
    same order, and the values are the numbers of occurrences of those
    names. *)
Theorem familyChartData_reads_back (records : list OccurrenceRecord) :
  Forall (fun name => inherited name = false) (familyNames records) ->
  Forall (fun name => noBracket name = true) (familyNames records) ->
  exists families picks,
    topFamilies (biodiversityOf records) = Some families /\
    families
    = map (fun x =>
             x +++ " ("
             +++ Number_toString
                   (Z.of_nat (occurrencesOf (familyNames records) x))
             +++ ")") picks /\
    familyChartData families
    = (picks,
       map (fun x => Z.of_nat (occurrencesOf (familyNames records) x)) picks).
Proof.
  intros Hown Hnb.
  destruct (countLoop_own records) as [Ht _].
  unfold biodiversityOf. cbn [topFamilies].
  rewrite (Ht Hown). cbn [option_map]. clear Ht Hown.
  set (names := familyNames records) in *.
  destruct (tally_top_by_count names) as [Htop Hfmt].
  destruct Htop as (_ & Hin & _).
  exists (topK (tally names) 3), (map fst (topEntries (tally names) 3)).
  split; [reflexivity | ].
  split; [exact Hfmt | ].
  unfold familyChartData. rewrite Hfmt, !map_map. f_equal.
  - apply map_ext_in. intros e He.
    apply (entry_read_back (fst e, Z.of_nat (occurrencesOf names (fst e)))).
    + cbn [fst]. rewrite Forall_forall in Hnb. apply Hnb. apply Hin.
      apply in_map. exact He.
    + cbn [snd]. lia.
  - apply map_ext_in. intros e He.
    apply (entry_read_back (fst e, Z.of_nat (occurrencesOf names (fst e)))).
    + cbn [fst]. rewrite Forall_forall in Hnb. apply Hnb. apply Hin.
      apply in_map. exact He.
    + cbn [snd]. lia.
Qed.

(** Six occurrences of four families. *)
Lemma familyChartData_reads_back_witness :
  exists picks,
    topFamilies (biodiversityOf sixOccurrences)
    = Some ["Clupeidae (2)"; "Scombridae (2)"; "Carangidae (1)"] /\
    familyChartData ["Clupeidae (2)"; "Scombridae (2)"; "Carangidae (1)"]
    = (picks,
       map (fun x =>
              Z.of_nat (occurrencesOf (familyNames sixOccurrences) x)) picks).
Proof.
  destruct (familyChartData_reads_back sixOccurrences)
    as [families [picks [Hf [_ H]]]].
  - repeat constructor.
  - repeat constructor.
  - exists picks. split; [reflexivity | ].
    assert (E : families
                = ["Clupeidae (2)"; "Scombridae (2)"; "Carangidae (1)"]).
    { vm_compute in Hf. injection Hf as <-. reflexivity. }
    rewrite <- E. exact H.
Defined.
